(** * The inventory model client: transactions, labels, journal and watches

    A shallow embedding of [pkg/inventory/model/client.go].  The [Client]
    coordinates a single-writer SQL backend, a label index kept next to every
    model, and a journal whose staged events reach the watches when the
    owning write unit commits.

    Every method of [Client] that reads or writes [r.tx] runs between
    [r.Lock()] and the deferred [r.Unlock()], so the methods are modelled as
    atomic state transformers; the one blocking point inside such a critical
    section, [r.dbMutex.Lock()], is modelled by the [Blocked] outcome.

    The file holds [Client] and [Tx] only.  [Table], [Journal], [Watch],
    [Event], [Label], the [Model] interface and [liberr.Wrap] live in other
    files of the package; they are modelled from the specification and
    marked as such.  [Open] and [Close], which only manage the connection,
    are modelled apart, on the fields they use; for the other methods the
    client is taken as opened. *)

From stdpp Require Import base option list gmap strings.

Open Scope string_scope.
Open Scope list_scope.

(** ** Data model *)

(** Modelled from the spec: the [Model] interface is declared in another
    file.  A model as the client sees it: the name the table gives to its
    type ([Table.Name]), the primary key ([Pk()]), the label mapping
    ([Labels()]) and the remaining field values. *)
Record Model := mkModel {
  Kind : string;
  Pk : string;
  Labels : gmap string string;
  Body : string;
}.

(** Modelled from the spec: [Label] is declared in another file; these are
    the fields of the literal that [insertLabels] builds. *)
Record Label := mkLabel {
  Parent : string;
  LKind : string;
  Name : string;
  Value : string;
}.

#[global] Instance Label_eq_dec : EqDecision Label.
Proof. solve_decision. Defined.

(** Errors.  [TxInvalidError] is the package variable of [client.go].
    Modelled from the spec: [NotFound] and [MappingError] are the mapper's
    errors of section 7, and [Wrap] is [liberr.Wrap], which adds context to
    an error and keeps it as the cause. *)
Inductive error :=
| NotFound
| MappingError
| TxInvalidError
| Wrap (e : error).

(** The error at the root of a chain of [Wrap]s. *)
Fixpoint cause (e : error) : error :=
  match e with
  | Wrap e' => cause e'
  | _ => e
  end.

Inductive result (A : Type) :=
| Ok (a : A)
| Err (e : error).
Arguments Ok {A} a.
Arguments Err {A} e.

(** ** The relational backend *)

(** Modelled from the spec: the storage engine and the Relational Mapper
    ([database/sql], [Table]) are not part of the client; section 6 gives
    the contract.  One table of models (a row is found by type name and
    primary key) and the built-in Label table. *)
Record Tables := mkTables {
  models : list Model;
  labels : list Label;
}.

(** Modelled from the spec: [x] is the row with the primary key of [m] in
    the table of its type. *)
Definition same_row (m : Model) (x : Model) : bool :=
  bool_decide (Kind x = Kind m) && bool_decide (Pk x = Pk m).

(** The predicate [And(Eq("Kind", kind), Eq("Parent", parent))] of
    [deleteLabels]. *)
Definition for_key (kind parent : string) (l : Label) : bool :=
  bool_decide (LKind l = kind) && bool_decide (Parent l = parent).

(** Modelled from the spec: [Get] finds the row by primary key and fails
    with [NotFound] when it is absent. *)
Definition rows_get (m : Model) (t : Tables) : result (Model * Tables) :=
  match List.find (same_row m) (models t) with
  | Some x => Ok (x, t)
  | None => Err NotFound
  end.

(** Modelled from the spec: [List] returns the rows of one type in storage
    order. *)
Definition rows_list (kind : string) (t : Tables)
  : result (list Model * Tables) :=
  Ok (List.filter (fun x => bool_decide (Kind x = kind)) (models t), t).

(** Modelled from the spec: [Insert] appends the row; a second row with the
    same primary key is a constraint violation. *)
Definition rows_insert (m : Model) (t : Tables) : result (unit * Tables) :=
  if existsb (same_row m) (models t) then Err MappingError
  else Ok (tt, mkTables (models t ++ [m]) (labels t)).

(** Modelled from the spec: [Update] rewrites the row with that key. *)
Definition rows_update (m : Model) (t : Tables) : result (unit * Tables) :=
  Ok (tt, mkTables
            (List.map (fun x => if same_row m x then m else x) (models t))
            (labels t)).

(** Modelled from the spec: [Delete] removes the row with that key. *)
Definition rows_delete (m : Model) (t : Tables) : result (unit * Tables) :=
  Ok (tt, mkTables (List.filter (fun x => negb (same_row m x)) (models t))
                   (labels t)).

(** Modelled from the spec: the Label table; rows are inserted, listed by
    [And(Eq("Kind", k), Eq("Parent", p))] and deleted one by one. *)
Definition labels_insert (l : Label) (t : Tables) : result (unit * Tables) :=
  Ok (tt, mkTables (models t) (labels t ++ [l])).

Definition labels_list (kind parent : string) (t : Tables)
  : result (list Label * Tables) :=
  Ok (List.filter (for_key kind parent) (labels t), t).

Definition labels_delete (l : Label) (t : Tables) : result (unit * Tables) :=
  Ok (tt, mkTables
            (models t)
            (List.filter (fun x => negb (bool_decide (x = l))) (labels t))).

(** A [*sql.Tx]: transactions are told apart by identity, as [commit] and
    [end] compare pointers. *)
Definition TxRef := nat.

(** What [Table.DB] holds: the connection [r.db] (every statement commits on
    its own) or the open transaction [r.tx]. *)
Inductive Handle :=
| ViaDB
| ViaTx (ref : TxRef).

(** Modelled from the spec: the storage engine.  [committed] is the durable
    state; [working] is the private state of the open transaction, durable
    only once it commits; [faults] scripts the backend calls that fail for a
    reason of their own (I/O), one entry per call, and a call that fails
    changes nothing. *)
Record DB := mkDB {
  committed : Tables;
  working : option (TxRef * Tables);
  faults : list bool;
  next_ref : TxRef;
}.

Definition next_fault (d : DB) : bool := List.hd false (faults d).

Definition tick (d : DB) : DB :=
  mkDB (committed d) (working d) (List.tl (faults d)) (next_ref d).

Definition view (h : Handle) (d : DB) : option Tables :=
  match h with
  | ViaDB => Some (committed d)
  | ViaTx ref =>
      match working d with
      | Some (ref', t) => if bool_decide (ref' = ref) then Some t else None
      | None => None
      end
  end.

Definition store (h : Handle) (t : Tables) (d : DB) : DB :=
  match h with
  | ViaDB => mkDB t (working d) (faults d) (next_ref d)
  | ViaTx ref => mkDB (committed d) (Some (ref, t)) (faults d) (next_ref d)
  end.

(** Modelled from the spec: one statement through handle [h]; through
    [r.db] it reads and writes the durable state, through the transaction
    its working state. *)
Definition exec {A} (h : Handle) (f : Tables -> result (A * Tables)) (d : DB)
  : result A * DB :=
  if next_fault d then (Err MappingError, tick d)
  else match view h (tick d) with
       | None => (Err MappingError, tick d)
       | Some t =>
           match f t with
           | Err e => (Err e, tick d)
           | Ok (a, t') => (Ok a, store h t' (tick d))
           end
       end.

(** Modelled from the spec: [db.Begin()] opens a transaction on a copy of
    the durable state. *)
Definition sql_begin (d : DB) : result TxRef * DB :=
  if next_fault d then (Err MappingError, tick d)
  else (Ok (next_ref d),
        mkDB (committed d) (Some (next_ref d, committed d))
             (List.tl (faults d)) (S (next_ref d))).

(** Modelled from the spec: [tx.Commit()] makes the working state
    durable. *)
Definition sql_commit (ref : TxRef) (d : DB) : result unit * DB :=
  if next_fault d then (Err MappingError, tick d)
  else match view (ViaTx ref) (tick d) with
       | None => (Err MappingError, tick d)
       | Some t => (Ok tt, mkDB t None (List.tl (faults d)) (next_ref d))
       end.

(** Modelled from the spec: [tx.Rollback()] drops the working state. *)
Definition sql_rollback (ref : TxRef) (d : DB) : result unit * DB :=
  if next_fault d then (Err MappingError, tick d)
  else match view (ViaTx ref) (tick d) with
       | None => (Err MappingError, tick d)
       | Some _ =>
           (Ok tt, mkDB (committed d) None (List.tl (faults d)) (next_ref d))
       end.

(** ** Journal and watches *)

(** Modelled from the spec: the actions of section 3 ([Created] is the
    constant used by [Client.Watch]). *)
Inductive Action :=
| Created
| Updated
| Deleted.

(** Modelled from the spec: an event, which is also what the journal
    stages: the model, the action and, for [Updated], the value the row had
    before ([Client.Watch] builds [Event{Model, Action}]). *)
Record Event := mkEvent {
  EAction : Action;
  EModel : Model;
  EPrior : option Model;
}.

(** Modelled from the spec: a watch ([Watch] is declared in the journal's
    file).  The handler is represented by the events it was handed, oldest
    first; a watch is live between [Start] and [End]. *)
Record Watch := mkWatch {
  WKind : string;
  started : bool;
  closed : bool;
  received : list Event;
}.

Definition WatchId := nat.

(** Modelled from the spec: the journal ([Journal] is declared in another
    file of the package): the staged events, oldest first, and the
    registered watches. *)
Record Journal := mkJournal {
  staged : list Event;
  watchList : list Watch;
}.

(** Modelled from the spec: a watch is live once started and until
    closed. *)
Definition live (w : Watch) : bool := started w && negb (closed w).

(** Modelled from the spec: the handler of [w] is handed [e]. *)
Definition deliver (e : Event) (w : Watch) : Watch :=
  mkWatch (WKind w) (started w) (closed w) (received w ++ [e]).

(** Modelled from the spec: the target type of [w] is the type of the
    model of [e]. *)
Definition matches (e : Event) (w : Watch) : bool :=
  bool_decide (WKind w = Kind (EModel e)).

(** Modelled from the spec: one staged event goes to every live watch of its
    model's type. *)
Definition dispatch (ws : list Watch) (e : Event) : list Watch :=
  List.map (fun w => if live w && matches e w then deliver e w else w) ws.

(** Modelled from the spec: [Journal.Created], [Updated] and [Deleted]
    append a staged entry. *)
Definition stage (e : Event) (j : Journal) : Journal :=
  mkJournal (staged j ++ [e]) (watchList j).

(** Modelled from the spec: [Journal.Commit] dispatches the staged events in
    FIFO order, then clears them. *)
Definition journal_commit (j : Journal) : Journal :=
  mkJournal [] (List.fold_left dispatch (staged j) (watchList j)).

(** Modelled from the spec: [Journal.Unstage] discards the staged events
    without dispatch. *)
Definition journal_unstage (j : Journal) : Journal :=
  mkJournal [] (watchList j).

(** Modelled from the spec: [Journal.Watch] registers a watch that is not
    yet started. *)
Definition journal_watch (kind : string) (j : Journal) : WatchId * Journal :=
  (length (watchList j),
   mkJournal (staged j) (watchList j ++ [mkWatch kind false false []])).

(** Modelled from the spec: [watch.notify] hands the event to the handler
    (delivery is synchronous, there is no queue). *)
Definition watch_notify (w : WatchId) (e : Event) (j : Journal) : Journal :=
  mkJournal (staged j) (alter (deliver e) w (watchList j)).

(** Modelled from the spec: [watch.Start] makes the watch live. *)
Definition watch_start (w : WatchId) (j : Journal) : Journal :=
  mkJournal (staged j)
    (alter (fun x => mkWatch (WKind x) true (closed x) (received x)) w
           (watchList j)).

(** Modelled from the spec: [watch.End] closes the watch. *)
Definition watch_end (w : WatchId) (j : Journal) : Journal :=
  mkJournal (staged j)
    (alter (fun x => mkWatch (WKind x) (started x) true (received x)) w
           (watchList j)).

(** ** The client *)

(** The calls the client makes on [Table]. *)
Inductive TableCall :=
| CGet (kind pk : string)
| CList (kind : string)
| CInsert (m : Model)
| CUpdate (m : Model)
| CDelete (m : Model)
| CInsertLabel (l : Label)
| CListLabels (kind parent : string)
| CDeleteLabel (l : Label).

(** What a method does, in program order. *)
Inductive Effect :=
| ELock
| EUnlock
| EDbLock
| EDbUnlock
| ESqlBegin (ok : bool)
| ESqlCommit (ok : bool)
| ESqlRollback (ok : bool)
| ETable (h : Handle) (call : TableCall) (ok : bool)
| EStage (e : Event)
| EJournalCommit (flushed : list Event)
| EJournalUnstage (dropped : list Event)
| EJournalWatch (w : WatchId)
| ENotify (w : WatchId) (e : Event)
| EStart (w : WatchId).

(** [Client]: [mu] is the embedded [sync.RWMutex], [dbMutex] the write
    lock; [trace] records the effects so far, oldest first. *)
Record Client := mkClient {
  mu : bool;
  dbMutex : bool;
  db : DB;
  tx : option TxRef;
  journal : Journal;
  trace : list Effect;
}.

Definition set_mu (b : bool) (c : Client) : Client :=
  mkClient b (dbMutex c) (db c) (tx c) (journal c) (trace c).
Definition set_dbMutex (b : bool) (c : Client) : Client :=
  mkClient (mu c) b (db c) (tx c) (journal c) (trace c).
Definition set_db (d : DB) (c : Client) : Client :=
  mkClient (mu c) (dbMutex c) d (tx c) (journal c) (trace c).
Definition set_tx (t : option TxRef) (c : Client) : Client :=
  mkClient (mu c) (dbMutex c) (db c) t (journal c) (trace c).
Definition set_journal (j : Journal) (c : Client) : Client :=
  mkClient (mu c) (dbMutex c) (db c) (tx c) j (trace c).
Definition emit (e : Effect) (c : Client) : Client :=
  mkClient (mu c) (dbMutex c) (db c) (tx c) (journal c) (trace c ++ [e]).

(** A call returns, waits for a mutex that is never released ([Blocked]), or
    dies unlocking a mutex that is not locked ([Fatal]). *)
Inductive Outcome (A : Type) :=
| Ret (a : A) (c : Client)
| Blocked (c : Client)
| Fatal (c : Client).
Arguments Ret {A} a c.
Arguments Blocked {A} c.
Arguments Fatal {A} c.

Definition M (A : Type) : Type := Client -> Outcome A.

Definition ret {A} (a : A) : M A := fun c => Ret a c.

Definition bind {A B} (m : M A) (k : A -> M B) : M B :=
  fun c =>
    match m c with
    | Ret a c' => k a c'
    | Blocked c' => Blocked c'
    | Fatal c' => Fatal c'
    end.

Declare Scope client_scope.
Delimit Scope client_scope with client.
Notation "x <- m ;; k" := (bind m (fun x => k))
  (at level 20, m at level 99, k at level 200, only parsing) : client_scope.
Notation "m ;; k" := (bind m (fun _ => k))
  (at level 100, k at level 200, right associativity, only parsing)
  : client_scope.
Open Scope client_scope.

(** [defer]: the deferred call runs after the body has its return value. *)
Definition with_deferred {A} (body : M A) (deferred : M unit) : M A :=
  a <- body ;; deferred ;; ret a.

Definition r_Lock : M unit :=
  fun c => if mu c then Blocked c else Ret tt (emit ELock (set_mu true c)).

Definition r_Unlock : M unit :=
  fun c => if mu c then Ret tt (emit EUnlock (set_mu false c)) else Fatal c.

Definition dbMutex_Lock : M unit :=
  fun c =>
    if dbMutex c then Blocked c
    else Ret tt (emit EDbLock (set_dbMutex true c)).

Definition dbMutex_Unlock : M unit :=
  fun c =>
    if dbMutex c then Ret tt (emit EDbUnlock (set_dbMutex false c))
    else Fatal c.

Definition r_tx : M (option TxRef) := fun c => Ret (tx c) c.

Definition assign_tx (t : option TxRef) : M unit :=
  fun c => Ret tt (set_tx t c).

Definition is_ok {A} (r : result A) : bool :=
  match r with Ok _ => true | Err _ => false end.

Definition err_of (r : result unit) : option error :=
  match r with Ok _ => None | Err e => Some e end.

(** Modelled from the spec: a call on [Table{DB: h}] is one backend
    statement; it is recorded in the trace with its success. *)
Definition table_call {A} (h : Handle) (call : TableCall)
    (f : Tables -> result (A * Tables)) : M (result A) :=
  fun c =>
    let (r, d) := exec h f (db c) in
    Ret r (emit (ETable h call (is_ok r)) (set_db d c)).

Definition Table_Get (h : Handle) (m : Model) : M (result Model) :=
  table_call h (CGet (Kind m) (Pk m)) (rows_get m).

Definition Table_List (h : Handle) (kind : string) : M (result (list Model)) :=
  table_call h (CList kind) (rows_list kind).

Definition Table_Insert (h : Handle) (m : Model) : M (option error) :=
  r <- table_call h (CInsert m) (rows_insert m) ;; ret (err_of r).

Definition Table_Update (h : Handle) (m : Model) : M (option error) :=
  r <- table_call h (CUpdate m) (rows_update m) ;; ret (err_of r).

Definition Table_Delete (h : Handle) (m : Model) : M (option error) :=
  r <- table_call h (CDelete m) (rows_delete m) ;; ret (err_of r).

Definition Table_InsertLabel (h : Handle) (l : Label) : M (option error) :=
  r <- table_call h (CInsertLabel l) (labels_insert l) ;; ret (err_of r).

Definition Table_ListLabels (h : Handle) (kind parent : string)
  : M (result (list Label)) :=
  table_call h (CListLabels kind parent) (labels_list kind parent).

Definition Table_DeleteLabel (h : Handle) (l : Label) : M (option error) :=
  r <- table_call h (CDeleteLabel l) (labels_delete l) ;; ret (err_of r).

Definition db_Begin : M (result TxRef) :=
  fun c =>
    let (r, d) := sql_begin (db c) in
    Ret r (emit (ESqlBegin (is_ok r)) (set_db d c)).

Definition tx_Commit (ref : TxRef) : M (option error) :=
  fun c =>
    let (r, d) := sql_commit ref (db c) in
    Ret (err_of r) (emit (ESqlCommit (is_ok r)) (set_db d c)).

Definition tx_Rollback (ref : TxRef) : M (option error) :=
  fun c =>
    let (r, d) := sql_rollback ref (db c) in
    Ret (err_of r) (emit (ESqlRollback (is_ok r)) (set_db d c)).

Definition via_journal (e : Effect) (f : Journal -> Journal) : M unit :=
  fun c => Ret tt (emit e (set_journal (f (journal c)) c)).

Definition journal_Stage (e : Event) : M unit :=
  via_journal (EStage e) (stage e).

Definition journal_Created (m : Model) : M unit :=
  journal_Stage (mkEvent Created m None).

Definition journal_Updated (prior m : Model) : M unit :=
  journal_Stage (mkEvent Updated m (Some prior)).

Definition journal_Deleted (m : Model) : M unit :=
  journal_Stage (mkEvent Deleted m None).

Definition journal_Commit : M unit :=
  fun c =>
    Ret tt (emit (EJournalCommit (staged (journal c)))
                 (set_journal (journal_commit (journal c)) c)).

Definition journal_Unstage : M unit :=
  fun c =>
    Ret tt (emit (EJournalUnstage (staged (journal c)))
                 (set_journal (journal_unstage (journal c)) c)).

(** Modelled from the spec: [Journal.copy] is a detached snapshot of the
    model's field values. *)
Definition journal_copy (m : Model) : M Model := ret m.

Definition journal_Watch (m : Model) : M (WatchId * option error) :=
  fun c =>
    let (w, j) := journal_watch (Kind m) (journal c) in
    Ret (w, None) (emit (EJournalWatch w) (set_journal j c)).

Definition watch_Notify (w : WatchId) (e : Event) : M unit :=
  via_journal (ENotify w e) (watch_notify w e).

Definition watch_Start (w : WatchId) : M unit :=
  via_journal (EStart w) (watch_start w).

(** [Tx]: the [client] field is the one client of this development. *)
Record Tx := mkTx {
  ref : TxRef;
}.

(** [x.f] on a nil pointer. *)
Definition nil_dereference {A} : M A := fun c => Fatal c.

Section Methods.

(** [for l, v := range model.Labels()]: Go leaves the order of a map's
    entries open. *)
Variable range : gmap string string -> list (string * string).

(** [Client.commit]. *)
Definition Client_commit (tx : Tx) : M (option error) :=
  r_Lock ;;
  with_deferred
    (cur <- r_tx ;;
     if bool_decide (cur = None) || negb (bool_decide (cur = Some (ref tx)))
     then ret (Some (Wrap TxInvalidError))
     else
       with_deferred
         (err <- tx_Commit (ref tx) ;;
          match err with
          | Some e => ret (Some (Wrap e))
          | None => journal_Commit ;; ret None
          end)
         (dbMutex_Unlock ;; assign_tx None))
    r_Unlock.

(** [Client.end]. *)
Definition Client_end (tx : Tx) : M (option error) :=
  r_Lock ;;
  with_deferred
    (cur <- r_tx ;;
     if bool_decide (cur = None) || negb (bool_decide (cur = Some (ref tx)))
     then ret (Some (Wrap TxInvalidError))
     else
       with_deferred
         (err <- tx_Rollback (ref tx) ;;
          match err with
          | Some e => ret (Some (Wrap e))
          | None => journal_Unstage ;; ret None
          end)
         (dbMutex_Unlock ;; assign_tx None))
    r_Unlock.

(** [Tx.Commit] and [Tx.End]. *)
Definition Tx_Commit (r : Tx) : M (option error) := Client_commit r.
Definition Tx_End (r : Tx) : M (option error) := Client_end r.

(** [Client.Begin]. *)
Definition Client_Begin : M (option Tx * option error) :=
  r_Lock ;;
  with_deferred
    (dbMutex_Lock ;;
     r <- db_Begin ;;
     match r with
     | Err err => ret (None, Some err)
     | Ok tx => assign_tx (Some tx) ;; ret (Some (mkTx tx), None)
     end)
    r_Unlock.

(** [Client.Get]. *)
Definition Client_Get (model : Model) : M (result Model) :=
  Table_Get ViaDB model.

(** [Client.GetForUpdate]; the model is returned as the call leaves it. *)
Definition Client_GetForUpdate (model : Model)
  : M (Model * option Tx * option error) :=
  b <- Client_Begin ;;
  match snd b with
  | Some err => ret (model, None, Some (Wrap err))
  | None =>
      r <- Table_Get ViaDB model ;;
      match r with
      | Ok found => ret (found, fst b, None)
      | Err err =>
          match fst b with
          | Some tx => Tx_End tx ;; ret (model, None, Some err)
          | None => nil_dereference
          end
      end
  end.

(** [Client.insertLabels]. *)
Fixpoint insertLabels_range (table : Handle) (model : Model)
    (entries : list (string * string)) : M (option error) :=
  match entries with
  | [] => ret None
  | (l, v) :: rest =>
      err <- Table_InsertLabel table (mkLabel (Pk model) (Kind model) l v) ;;
      match err with
      | Some e => ret (Some (Wrap e))
      | None => insertLabels_range table model rest
      end
  end.

Definition Client_insertLabels (table : Handle) (model : Model)
  : M (option error) :=
  insertLabels_range table model (range (Labels model)).

(** [Client.deleteLabels]. *)
Fixpoint deleteLabels_range (table : Handle) (list : list Label)
  : M (option error) :=
  match list with
  | [] => ret None
  | label :: rest =>
      err <- Table_DeleteLabel table label ;;
      match err with
      | Some e => ret (Some (Wrap e))
      | None => deleteLabels_range table rest
      end
  end.

Definition Client_deleteLabels (table : Handle) (model : Model)
  : M (option error) :=
  r <- Table_ListLabels table (Kind model) (Pk model) ;;
  match r with
  | Err err => ret (Some (Wrap err))
  | Ok list => deleteLabels_range table list
  end.

(** [Client.replaceLabels]. *)
Definition Client_replaceLabels (table : Handle) (model : Model)
  : M (option error) :=
  err <- Client_deleteLabels table model ;;
  match err with
  | Some e => ret (Some (Wrap e))
  | None =>
      err <- Client_insertLabels table model ;;
      match err with
      | Some e => ret (Some (Wrap e))
      | None => ret None
      end
  end.

(** The opening of [Insert], [Update] and [Delete]: take the state lock,
    pick the handle, and hold the write lock for the statement when no
    transaction is active. *)
Definition mutation (body : Handle -> M (option error)) : M (option error) :=
  r_Lock ;;
  with_deferred
    (cur <- r_tx ;;
     match cur with
     | None => dbMutex_Lock ;; with_deferred (body ViaDB) dbMutex_Unlock
     | Some tx => body (ViaTx tx)
     end)
    r_Unlock.

(** [if r.tx == nil { r.journal.Commit() }]. *)
Definition commit_unless_tx : M unit :=
  cur <- r_tx ;;
  match cur with
  | None => journal_Commit
  | Some _ => ret tt
  end.

(** [Client.Insert]. *)
Definition Insert_body (model : Model) (table : Handle) : M (option error) :=
  err <- Table_Insert table model ;;
  match err with
  | Some e => ret (Some (Wrap e))
  | None =>
      err <- Client_insertLabels table model ;;
      match err with
      | Some e => ret (Some (Wrap e))
      | None => journal_Created model ;; commit_unless_tx ;; ret None
      end
  end.

Definition Client_Insert (model : Model) : M (option error) :=
  mutation (Insert_body model).

(** [Client.Update]. *)
Definition Update_body (model : Model) (table : Handle) : M (option error) :=
  current <- journal_copy model ;;
  r <- Table_Get table current ;;
  match r with
  | Err err => ret (Some (Wrap err))
  | Ok current =>
      err <- Table_Update table model ;;
      match err with
      | Some e => ret (Some (Wrap e))
      | None =>
          err <- Client_replaceLabels table model ;;
          match err with
          | Some e => ret (Some (Wrap e))
          | None =>
              journal_Updated current model ;; commit_unless_tx ;; ret None
          end
      end
  end.

Definition Client_Update (model : Model) : M (option error) :=
  mutation (Update_body model).

(** [Client.Delete]. *)
Definition Delete_body (model : Model) (table : Handle) : M (option error) :=
  err <- Table_Delete table model ;;
  match err with
  | Some e => ret (Some (Wrap e))
  | None =>
      err <- Client_deleteLabels table model ;;
      match err with
      | Some e => ret (Some (Wrap e))
      | None => journal_Deleted model ;; commit_unless_tx ;; ret None
      end
  end.

Definition Client_Delete (model : Model) : M (option error) :=
  mutation (Delete_body model).

(** [Client.Watch]. *)
Fixpoint notify_rows (watch : WatchId) (list : list Model) : M unit :=
  match list with
  | [] => ret tt
  | m :: rest =>
      watch_Notify watch (mkEvent Created m None) ;; notify_rows watch rest
  end.

Definition Client_Watch (model : Model) : M (option WatchId * option error) :=
  r_Lock ;;
  with_deferred
    (wr <- journal_Watch model ;;
     match snd wr with
     | Some err => ret (None, Some (Wrap err))
     | None =>
         r <- Table_List ViaDB (Kind model) ;;
         match r with
         | Err err => ret (None, Some (Wrap err))
         | Ok list =>
             notify_rows (fst wr) list ;;
             watch_Start (fst wr) ;;
             ret (Some (fst wr), None)
         end
     end)
    r_Unlock.

End Methods.

(** ** The three mutations, as one family *)

Inductive Mutation :=
| MInsert (model : Model)
| MUpdate (model : Model)
| MDelete (model : Model).

Definition subject (op : Mutation) : Model :=
  match op with
  | MInsert m | MUpdate m | MDelete m => m
  end.

Definition action_of (op : Mutation) : Action :=
  match op with
  | MInsert _ => Created
  | MUpdate _ => Updated
  | MDelete _ => Deleted
  end.

Definition body_of (range : gmap string string -> list (string * string))
    (op : Mutation) : Handle -> M (option error) :=
  match op with
  | MInsert m => Insert_body range m
  | MUpdate m => Update_body range m
  | MDelete m => Delete_body m
  end.

Definition call (range : gmap string string -> list (string * string))
    (op : Mutation) : M (option error) :=
  match op with
  | MInsert m => Client_Insert range m
  | MUpdate m => Client_Update range m
  | MDelete m => Client_Delete m
  end.

(** The handle a mutation picks in state [c]. *)
Definition handle_of (c : Client) : Handle :=
  match tx c with
  | None => ViaDB
  | Some t => ViaTx t
  end.

(** The state in which the body of a mutation starts. *)
Definition entered (c : Client) : Client :=
  match tx c with
  | None => emit EDbLock (set_dbMutex true (emit ELock (set_mu true c)))
  | Some _ => emit ELock (set_mu true c)
  end.

(** The tail shared by the three bodies. *)
Definition finish (e : Event) : M (option error) :=
  journal_Stage e ;; commit_unless_tx ;; ret None.

(** The label rows of a model. *)
Definition label_row (m : Model) (kv : string * string) : Label :=
  mkLabel (Pk m) (Kind m) (fst kv) (snd kv).

Definition created (m : Model) : Event := mkEvent Created m None.

(** ** Effects in a trace *)

Definition via (h : Handle) (e : Effect) : Prop :=
  match e with
  | ETable h' _ _ => h' = h
  | _ => False
  end.

Definition is_journal_commit (e : Effect) : bool :=
  match e with EJournalCommit _ => true | _ => false end.

Definition is_db_lock (e : Effect) : bool :=
  match e with EDbLock | EDbUnlock => true | _ => false end.

Definition is_write (e : Effect) : bool :=
  match e with
  | ETable _ (CInsert _) _ | ETable _ (CUpdate _) _ | ETable _ (CDelete _) _
  | ETable _ (CInsertLabel _) _ | ETable _ (CDeleteLabel _) _ => true
  | _ => false
  end.

(** [c'] differs from [c] by statements sent through [h] only. *)
Record backend_step (h : Handle) (c c' : Client) : Prop := mkStep {
  step_mu : mu c' = mu c;
  step_dbMutex : dbMutex c' = dbMutex c;
  step_tx : tx c' = tx c;
  step_journal : journal c' = journal c;
  step_trace : exists seg, trace c' = trace c ++ seg /\ Forall (via h) seg;
}.

Definition backend_only {A} (h : Handle) (m : M A) : Prop :=
  forall c, exists a c', m c = Ret a c' /\ backend_step h c c'.

(** ** States that the calls leave *)

(** The state a mutation leaves, given the state [x] its body left. *)
Definition released (c x : Client) : Client :=
  match tx c with
  | None => emit EUnlock (set_mu false (emit EDbUnlock (set_dbMutex false x)))
  | Some _ => emit EUnlock (set_mu false x)
  end.

(** The state [finish e] leaves. *)
Definition finished (e : Event) (c : Client) : Client :=
  let c1 := emit (EStage e) (set_journal (stage e (journal c)) c) in
  match tx c with
  | None =>
      emit (EJournalCommit (staged (journal c) ++ [e]))
           (set_journal (journal_commit (stage e (journal c))) c1)
  | Some _ => c1
  end.

(** The state [commit] or [end] leaves when the transaction is not the
    active one. *)
Definition refused (c : Client) : Client :=
  emit EUnlock (set_mu false (emit ELock (set_mu true c))).

(** The deferred part of [commit] and [end], then the deferred [Unlock]. *)
Definition closed_tx (x : Client) : Client :=
  emit EUnlock
    (set_mu false (set_tx None (emit EDbUnlock (set_dbMutex false x)))).

(** The state [commit] leaves when the transaction is the active one. *)
Definition after_commit (tx : Tx) (c : Client) : Client :=
  let r := fst (sql_commit (ref tx) (db c)) in
  let d := snd (sql_commit (ref tx) (db c)) in
  let c1 := emit (ESqlCommit (is_ok r)) (set_db d (emit ELock (set_mu true c))) in
  closed_tx
    (match r with
     | Ok _ =>
         emit (EJournalCommit (staged (journal c)))
              (set_journal (journal_commit (journal c)) c1)
     | Err _ => c1
     end).

(** The state [end] leaves when the transaction is the active one. *)
Definition after_end (tx : Tx) (c : Client) : Client :=
  let r := fst (sql_rollback (ref tx) (db c)) in
  let d := snd (sql_rollback (ref tx) (db c)) in
  let c1 :=
    emit (ESqlRollback (is_ok r)) (set_db d (emit ELock (set_mu true c))) in
  closed_tx
    (match r with
     | Ok _ =>
         emit (EJournalUnstage (staged (journal c)))
              (set_journal (journal_unstage (journal c)) c1)
     | Err _ => c1
     end).

Definition wrapped (r : result unit) : option error :=
  match r with
  | Ok _ => None
  | Err e => Some (Wrap e)
  end.

(** A live watch receives the staged events of its type, oldest first. *)
Definition receive_all (es : list Event) (w : Watch) : Watch :=
  if live w
  then mkWatch (WKind w) (started w) (closed w)
         (received w ++ List.filter (fun e => matches e w) es)
  else w.

(** ** States and models for the examples *)

Definition state_of {A} (o : Outcome A) : Client :=
  match o with
  | Ret _ c | Blocked c | Fatal c => c
  end.

(** A client just opened on an empty store, with a script of faults. *)
Definition opened (script : list bool) : Client :=
  mkClient false false (mkDB (mkTables [] []) None script 0) None
           (mkJournal [] []) [].

Definition vm_a : Model := mkModel "vm" "a" {[ "env" := "prod" ]} "v1".
Definition vm_a' : Model := mkModel "vm" "a" {[ "env" := "stage" ]} "v2".
Definition vm_b : Model := mkModel "vm" "b" ∅ "v1".

(** The order of [map_to_list] stands for Go's in the examples. *)
Definition in_order : gmap string string -> list (string * string) :=
  map_to_list.

(** A transaction whose backend commit fails: a watch on [vm], [Begin],
    [Insert] of [vm_a], [Commit] (the fifth backend call fails), then an
    [Insert] of [vm_b] with no transaction. *)
Definition fc0 : Client := opened [false; false; false; false; true].
Definition fc1 : Client := state_of (Client_Watch vm_a fc0).
Definition fc2 : Client := state_of (Client_Begin fc1).
Definition fc3 : Client := state_of (Client_Insert in_order vm_a fc2).
Definition fc4 : Client := state_of (Tx_Commit (mkTx 0) fc3).
Definition fc5 : Client := state_of (Client_Insert in_order vm_b fc4).

Definition is_backend_commit_ok (e : Effect) : bool :=
  match e with ESqlCommit true => true | _ => false end.

(** The effects with which a mutation opens and closes in state [c]. *)
Definition opening (c : Client) : list Effect :=
  match tx c with
  | None => [ELock; EDbLock]
  | Some _ => [ELock]
  end.

Definition closing (c : Client) : list Effect :=
  match tx c with
  | None => [EDbUnlock; EUnlock]
  | Some _ => [EUnlock]
  end.

Definition touches_journal (e : Effect) : bool :=
  match e with
  | EStage _ | EJournalCommit _ | EJournalUnstage _ | EJournalWatch _
  | ENotify _ _ | EStart _ => true
  | _ => false
  end.

(** The primary mapper operation of a mutation and its label
    synchronization. *)
Definition primary (op : Mutation) (table : Handle) : M (option error) :=
  match op with
  | MInsert m => Table_Insert table m
  | MUpdate m => Table_Update table m
  | MDelete m => Table_Delete table m
  end.

Definition label_sync (range : gmap string string -> list (string * string))
    (op : Mutation) (table : Handle) : M (option error) :=
  match op with
  | MInsert m => Client_insertLabels range table m
  | MUpdate m => Client_replaceLabels range table m
  | MDelete m => Client_deleteLabels table m
  end.

(** What precedes the primary operation: [Update] fetches the stored row. *)
Definition reaches_primary (op : Mutation) (table : Handle) (c x : Client)
  : Prop :=
  match op with
  | MUpdate m => exists current, Table_Get table m c = Ret (Ok current) x
  | _ => x = c
  end.

(** A transaction whose backend rollback fails: as above up to the Insert,
    then [End] (the fifth backend call fails) and an Insert of [vm_b]. *)
Definition fe4 : Client := state_of (Tx_End (mkTx 0) fc3).
Definition fe5 : Client := state_of (Client_Insert in_order vm_b fe4).

(** The state [Begin] leaves when the write lock is free, and what it
    returns. *)
Definition after_begin (c : Client) : Client :=
  let r := fst (sql_begin (db c)) in
  let d := snd (sql_begin (db c)) in
  let c1 :=
    emit (ESqlBegin (is_ok r))
         (set_db d (emit EDbLock (set_dbMutex true (emit ELock (set_mu true c)))))
  in
  emit EUnlock
    (set_mu false
       (match r with
        | Ok ref => set_tx (Some ref) c1
        | Err _ => c1
        end)).

Definition begun (c : Client) : option Tx * option error :=
  match fst (sql_begin (db c)) with
  | Ok ref => (Some (mkTx ref), None)
  | Err e => (None, Some e)
  end.

(** The rows a [List] of the model's type returns in state [c]. *)
Definition snapshot (m : Model) (c : Client) : list Model :=
  List.filter (fun x => bool_decide (Kind x = Kind m))
              (models (committed (db c))).

(** The state [notify_rows] leaves. *)
Definition notified (w : WatchId) (rows : list Model) (c : Client) : Client :=
  mkClient (mu c) (dbMutex c) (db c) (tx c)
    (List.fold_left (fun j x => watch_notify w (created x) j) rows (journal c))
    (trace c ++ List.map (fun x => ENotify w (created x)) rows).

(** The calls a goroutine can make on the client.  Each of them but
    [GetForUpdate] is one critical section of the state lock (or takes no
    lock at all), so a run of several goroutines is a sequence of them. *)
Inductive Request :=
| DoBegin
| DoGetForUpdate (model : Model)
| DoGet (model : Model)
| DoList (kind : string)
| DoInsert (model : Model)
| DoUpdate (model : Model)
| DoDelete (model : Model)
| DoWatch (model : Model)
| DoCommit (tx : Tx)
| DoEnd (tx : Tx).

Definition perform (range : gmap string string -> list (string * string))
    (q : Request) : M unit :=
  match q with
  | DoBegin => Client_Begin ;; ret tt
  | DoGetForUpdate m => Client_GetForUpdate m ;; ret tt
  | DoGet m => Client_Get m ;; ret tt
  | DoList kind => Table_List ViaDB kind ;; ret tt
  | DoInsert m => Client_Insert range m ;; ret tt
  | DoUpdate m => Client_Update range m ;; ret tt
  | DoDelete m => Client_Delete m ;; ret tt
  | DoWatch m => Client_Watch m ;; ret tt
  | DoCommit t => Tx_Commit t ;; ret tt
  | DoEnd t => Tx_End t ;; ret tt
  end.

Fixpoint perform_all (range : gmap string string -> list (string * string))
    (qs : list Request) : M unit :=
  match qs with
  | [] => ret tt
  | q :: rest => perform range q ;; perform_all range rest
  end.

(** [q] is a Commit or an End of the transaction [t]. *)
Definition ends (t : Tx) (q : Request) : bool :=
  match q with
  | DoCommit u | DoEnd u => bool_decide (ref u = ref t)
  | _ => false
  end.

(** An effect that fits inside the write unit of [t]: it neither takes nor
    releases the write lock, it does not commit the journal, and if it
    writes to the backend it does so through the transaction of [t]. *)
Definition within_tx (t : Tx) (e : Effect) : Prop :=
  is_db_lock e = false /\ is_journal_commit e = false /\
  (is_write e = true -> via (ViaTx (ref t)) e).

(** The write lock is held for the transaction of [t]. *)
Definition holds_write_lock (t : Tx) (c : Client) : Prop :=
  mu c = false /\ dbMutex c = true /\ tx c = Some (ref t).

(** The label rows left when the rows in [gone] are deleted one by one. *)
Definition without (gone : list Label) (ls : list Label) : list Label :=
  List.filter
    (fun y => forallb (fun l => negb (bool_decide (y = l))) gone) ls.

(** The label rows of the key of [m]. *)
Definition labels_of (m : Model) (t : Tables) : list Label :=
  List.filter (for_key (Kind m) (Pk m)) (labels t).

(** The label rows that mirror the mapping of [m]. *)
Definition mirror (m : Model) : list Label :=
  List.map (label_row m) (map_to_list (Labels m)).

(** A stale label: [vm_a] is inserted, its Delete fails while listing the
    labels (the fourth backend call), and a model with the same key and
    other labels is inserted. *)
Definition vm_a_east : Model := mkModel "vm" "a" {[ "zone" := "east" ]} "v3".
Definition sl0 : Client := opened [false; false; false; true].
Definition sl1 : Client := state_of (Client_Insert in_order vm_a sl0).
Definition sl2 : Client := state_of (Client_Delete vm_a sl1).
Definition sl3 : Client := state_of (Client_Insert in_order vm_a_east sl2).

(** A store with two rows, and an Update of the first. *)
Definition ws1 : Client := state_of (Client_Insert in_order vm_a (opened [])).
Definition ws2 : Client := state_of (Client_Insert in_order vm_b ws1).
Definition wu1 : Client := state_of (Client_Update in_order vm_a' ws1).

(** An Insert whose label synchronization fails (the second backend
    call). *)
Definition lf0 : Client := opened [false; true].
Definition lf1 : Client := state_of (Table_Insert ViaDB vm_a (entered lf0)).
Definition lf2 : Client :=
  state_of (Client_insertLabels in_order ViaDB vm_a lf1).

(** Calls made by others while transaction 0 is open. *)
Definition others : list Request :=
  [DoInsert vm_a; DoGet vm_a; DoCommit (mkTx 5); DoWatch vm_b; DoEnd (mkTx 7)].
Definition span_end : Client :=
  state_of (perform_all in_order others (after_begin fc1)).

(** ** Further properties: definitions *)

(** Between two calls the state lock is free, and an active transaction
    holds the write lock. *)
Definition well_locked (c : Client) : Prop :=
  mu c = false /\ (tx c <> None -> dbMutex c = true).

(** The call did not die, and if it returned it left a state in [P]. *)
Definition survives {A} (P : Client -> Prop) (o : Outcome A) : Prop :=
  match o with
  | Ret _ c' => P c'
  | Blocked _ => True
  | Fatal _ => False
  end.

(** The write lock is held and no transaction is there to release it. *)
Definition lock_lost (c : Client) : Prop :=
  mu c = false /\ dbMutex c = true /\ tx c = None.

(** The calls that need the write lock or that release it. *)
Definition needs_write_lock (q : Request) : bool :=
  match q with
  | DoBegin | DoGetForUpdate _ | DoInsert _ | DoUpdate _ | DoDelete _ => true
  | _ => false
  end.

(** A busy client: a watch, a committed transaction, a mutation on its
    own, a transaction that is ended. *)
Definition busy : list Request :=
  [DoWatch vm_a; DoBegin; DoInsert vm_a; DoCommit (mkTx 0); DoInsert vm_b;
   DoBegin; DoUpdate vm_a'; DoEnd (mkTx 1); DoGet vm_a].

(** A client whose first [db.Begin] fails, and calls that follow. *)
Definition lost0 : Client := opened [true].
Definition after_lost : list Request :=
  [DoGet vm_a; DoCommit (mkTx 0); DoWatch vm_a; DoEnd (mkTx 0)].
Definition lost1 : Client :=
  state_of (perform_all in_order after_lost (after_begin lost0)).

(** The tables a successful mutation leaves, from the tables it found. *)
Definition applied (range : gmap string string -> list (string * string))
    (op : Mutation) (t : Tables) : Tables :=
  match op with
  | MInsert m =>
      mkTables (models t ++ [m])
               (labels t ++ List.map (label_row m) (range (Labels m)))
  | MUpdate m =>
      mkTables (List.map (fun x => if same_row m x then m else x) (models t))
               (without (labels_of m t) (labels t)
                ++ List.map (label_row m) (range (Labels m)))
  | MDelete m =>
      mkTables (List.filter (fun x => negb (same_row m x)) (models t))
               (without (labels_of m t) (labels t))
  end.

(** What the tables must hold for the mutation to succeed: Insert needs
    the key free, Update needs the row. *)
Definition admits (op : Mutation) (t : Tables) : Prop :=
  match op with
  | MInsert m => existsb (same_row m) (models t) = false
  | MUpdate m => exists current, List.find (same_row m) (models t) = Some current
  | MDelete _ => True
  end.

(** A caller that makes the mutations one after the other and stops at the
    first error. *)
Fixpoint call_all (range : gmap string string -> list (string * string))
    (ops : list Mutation) : M (option error) :=
  match ops with
  | [] => ret None
  | op :: rest =>
      err <- call range op ;;
      match err with
      | Some e => ret (Some e)
      | None => call_all range rest
      end
  end.

(** What [Get] returns for [m] on tables [t]. *)
Definition lookup_row (m : Model) (t : Tables) : result Model :=
  match List.find (same_row m) (models t) with
  | Some x => Ok x
  | None => Err NotFound
  end.

(** The row a successful mutation leaves under the key of its model. *)
Definition stored_after (op : Mutation) : result Model :=
  match op with
  | MInsert m | MUpdate m => Ok m
  | MDelete _ => Err NotFound
  end.

(** States for a round trip: insert, update, delete, each followed by a
    Get. *)
Definition rt1 : Client := state_of (Client_Update in_order vm_a' ws2).
Definition rt2 : Client := state_of (Client_Delete vm_a' rt1).

(** A computation that, when it returns, has left the durable tables as
    they were. *)
Definition durable {A} (m : M A) : Prop :=
  forall c a c', m c = Ret a c' -> committed (db c') = committed (db c).

(** The tables after the mutations [ops], made in that order. *)
Definition applied_all (range : gmap string string -> list (string * string))
    (ops : list Mutation) (t : Tables) : Tables :=
  List.fold_left (fun acc op => applied range op acc) ops t.

(** The example of the comment on [Begin]: a transaction with two
    Inserts, then Commit. *)
Definition two_inserts : list Mutation := [MInsert vm_a; MInsert vm_b].
Definition eg0 : Client := state_of (Client_Watch vm_a (opened [])).
Definition eg1 : Client :=
  state_of (call_all in_order two_inserts (after_begin eg0)).
Definition eg2 : Client := state_of (Tx_Commit (mkTx 0) eg1).

(** What a watch is bound to get: the events its handler has, followed, if
    it is live, by the staged events of its type.  [audience] lists this
    for every watch, with the type and the state of the watch. *)
Definition bound_for (j : Journal) (w : Watch) : list Event :=
  received w
  ++ (if live w then List.filter (fun e => matches e w) (staged j) else []).

Definition audience (j : Journal)
  : list (string * bool * bool * list Event) :=
  List.map (fun w => (WKind w, started w, closed w, bound_for j w))
           (watchList j).

(** The events [es] join what a live watch of their type is bound to get. *)
Definition joined (es : list Event) (a : string * bool * bool * list Event)
  : string * bool * bool * list Event :=
  let '(kind, s, cl, heard) := a in
  (kind, s, cl,
   heard ++ (if s && negb cl
             then List.filter
                    (fun e => bool_decide (kind = Kind (EModel e))) es
             else [])).

(** The event a mutation stages. *)
Definition announces (op : Mutation) (e : Event) : Prop :=
  EModel e = subject op /\ EAction e = action_of op.

(** The watch that [Client.Watch] adds to the journal: registered, and
    started only if the snapshot was listed. *)
Definition new_watch (m : Model) (c : Client) (listed : bool) : Watch :=
  mkWatch (Kind m) listed false
          (if listed then List.map created (snapshot m c) else []).

(** A client whose next backend call fails: a Watch whose List fails. *)
Definition wf0 : Client :=
  mkClient false false (mkDB (committed (db ws2)) None [true] 0) None
           (mkJournal [] []) [].

(** [m'] has another key than [m]. *)
Definition other_key (m m' : Model) : Prop :=
  Kind m' <> Kind m \/ Pk m' <> Pk m.

(** The entries a stretch of trace staged. *)
Definition staged_in (seg : list Effect) : list Event :=
  List.flat_map (fun x => match x with EStage e => [e] | _ => [] end) seg.

(** ** Open and Close *)

(** The constant [Pragma]. *)
Definition Pragma : string := "PRAGMA foreign_keys = ON".

(** An element of [r.models]: a model of the application, by the name of
    its type, or the [&Label{}] that [Open] appends. *)
Inductive Registered :=
| AModel (kind : string)
| ALabel.

(** A [*sql.DB]. *)
Definition Conn := nat.

(** What [Open] and [Close] do outside the client, in program order. *)
Inductive HostEffect :=
| HRemove
| HSqlOpen (conn : Conn)
| HExec (conn : Conn) (statement : string) (ok : bool)
| HClose (conn : Conn) (ok : bool).

(** The fields of [Client] that [Open] and [Close] use: [r.models] and
    [r.db]; with them the next connection [sql.Open] returns, a script
    of the calls to [database/sql] that fail (one entry per call of
    [sql.Open], [db.Exec] and [db.Close]) and the effects so far. *)
Record Host := mkHost {
  r_models : list Registered;
  r_db : option Conn;
  next_conn : Conn;
  host_faults : list bool;
  host_log : list HostEffect;
}.

(** [Open] panics where the source does; otherwise a call returns. *)
Inductive Landing :=
| Returned (err : option error) (s : Host)
| Panicked (s : Host).

Definition host_fault (s : Host) : bool := List.hd false (host_faults s).

Definition host_tick (s : Host) : Host :=
  mkHost (r_models s) (r_db s) (next_conn s) (List.tl (host_faults s))
         (host_log s).

Definition host_emit (e : HostEffect) (s : Host) : Host :=
  mkHost (r_models s) (r_db s) (next_conn s) (host_faults s)
         (host_log s ++ [e]).

Definition assign_db (d : option Conn) (s : Host) : Host :=
  mkHost (r_models s) d (next_conn s) (host_faults s) (host_log s).

(** [os.Remove(r.path)], whose result the source ignores. *)
Definition os_Remove (s : Host) : Host := host_emit HRemove s.

(** [db.Close()]. *)
Definition db_Close (conn : Conn) (s : Host) : bool * Host :=
  (negb (host_fault s),
   host_emit (HClose conn (negb (host_fault s))) (host_tick s)).

Section Lifecycle.

(** [Table{}.DDL], which is declared in another file: the statements that
    build the table of a model, or an error. *)
Variable DDL : Registered -> result (list string).

(** The first loop of [Open]: the statements, or [None] where the source
    panics. *)
Fixpoint collect (ms : list Registered) (statements : list string)
  : option (list string) :=
  match ms with
  | [] => Some statements
  | m :: rest =>
      match DDL m with
      | Err _ => None
      | Ok ddl => collect rest (statements ++ ddl)
      end
  end.

(** The second loop of [Open]: the error it returns with, if any. *)
Fixpoint exec_all (db : Conn) (statements : list string) (s : Host)
  : option error * Host :=
  match statements with
  | [] => (None, s)
  | ddl :: rest =>
      if host_fault s
      then (Some (Wrap MappingError),
            snd (db_Close db (host_emit (HExec db ddl false) (host_tick s))))
      else exec_all db rest (host_emit (HExec db ddl true) (host_tick s))
  end.

(** [Client.Open]. *)
Definition Client_Open (purge : bool) (s : Host) : Landing :=
  let s := if purge then os_Remove s else s in
  if host_fault s then Panicked (host_tick s)
  else
    let db := next_conn s in
    let s :=
      mkHost (r_models s ++ [ALabel]) (r_db s) (S db)
             (List.tl (host_faults s)) (host_log s ++ [HSqlOpen db]) in
    match collect (r_models s) [Pragma] with
    | None => Panicked s
    | Some statements =>
        match exec_all db statements s with
        | (Some err, s') => Returned (Some err) s'
        | (None, s') => Returned None (assign_db (Some db) s')
        end
    end.

(** [Client.Close]. *)
Definition Client_Close (purge : bool) (s : Host) : Landing :=
  match r_db s with
  | None => Returned None s
  | Some db =>
      match db_Close db s with
      | (false, s') => Returned (Some (Wrap MappingError)) s'
      | (true, s') =>
          let s' := assign_db None s' in
          Returned None (if purge then os_Remove s' else s')
      end
  end.

End Lifecycle.

(** The statements [Open] means to execute for the models [ms]. *)
Definition schema (DDL : Registered -> result (list string))
    (ms : list Registered) : list string :=
  Pragma
  :: List.flat_map (fun m => match DDL m with Ok ddl => ddl | Err _ => [] end)
                   ms.

(** A schema for the examples. *)
Definition ddl_eg (m : Registered) : result (list string) :=
  match m with
  | AModel kind => Ok [String.append "CREATE TABLE " kind]
  | ALabel => Ok ["CREATE TABLE Label"; "CREATE INDEX LabelKey"]
  end.

Definition host0 (script : list bool) : Host :=
  mkHost [AModel "vm"] None 0 script [].

Definition landed (l : Landing) : Host :=
  match l with
  | Returned _ s | Panicked s => s
  end.

(** ** The staged entries, read off the trace *)

(** The effects that empty the staging area of the journal: a flush and an
    unstage. *)
Definition empties_journal (e : Effect) : bool :=
  match e with
  | EJournalCommit _ | EJournalUnstage _ => true
  | _ => false
  end.

(** A stretch of trace accounts for the staged entries: starting from the
    entries [s], every [EStage] appends its entry, every flush and every
    unstage carries exactly the entries staged at that point and leaves
    none, and [s'] are the entries staged at the end. *)
Fixpoint journal_log (s : list Event) (seg : list Effect) (s' : list Event)
  : Prop :=
  match seg with
  | [] => s' = s
  | EStage e :: rest => journal_log (s ++ [e]) rest s'
  | EJournalCommit es :: rest => es = s /\ journal_log [] rest s'
  | EJournalUnstage es :: rest => es = s /\ journal_log [] rest s'
  | _ :: rest => journal_log s rest s'
  end.

(** After the failed Commit of [fc4]: a second transaction that is ended
    with a rollback that succeeds, then an Insert of [vm_b]. *)
Definition unstaged_run : list Request :=
  [DoBegin; DoEnd (mkTx 1); DoInsert vm_b].
Definition fu5 : Client := state_of (Client_Begin fc4).
Definition fu6 : Client := state_of (Tx_End (mkTx 1) fu5).
Definition fu7 : Client := state_of (Client_Insert in_order vm_b fu6).

(** ** Lemmas on the frame of backend statements *)

Lemma backend_step_refl h c : backend_step h c c.
Proof.
  split; try reflexivity.
  exists []. split; [ by rewrite app_nil_r | constructor ].
Qed.

Lemma backend_step_trans h c1 c2 c3 :
  backend_step h c1 c2 -> backend_step h c2 c3 -> backend_step h c1 c3.
Proof.
  intros [m1 d1 t1 j1 (s1 & e1 & f1)] [m2 d2 t2 j2 (s2 & e2 & f2)].
  split; try congruence.
  exists (s1 ++ s2). split.
  - rewrite e2, e1. by rewrite <- app_assoc.
  - by apply Forall_app.
Qed.

Lemma backend_only_ret {A} h (a : A) : backend_only h (ret a).
Proof. intros c. exists a, c. split; [ done | apply backend_step_refl ]. Qed.

Lemma backend_only_bind {A B} h (m : M A) (k : A -> M B) :
  backend_only h m -> (forall a, backend_only h (k a)) ->
  backend_only h (bind m k).
Proof.
  intros Hm Hk c.
  destruct (Hm c) as (a & c1 & E1 & S1).
  destruct (Hk a c1) as (b & c2 & E2 & S2).
  exists b, c2. split.
  - unfold bind. by rewrite E1.
  - eapply backend_step_trans; eauto.
Qed.

Lemma table_call_step {A} h what (f : Tables -> result (A * Tables)) c :
  exists r d,
    exec h f (db c) = (r, d) /\
    table_call h what f c = Ret r (emit (ETable h what (is_ok r)) (set_db d c)).
Proof.
  unfold table_call. destruct (exec h f (db c)) as [r d]. by exists r, d.
Qed.

Lemma backend_only_table_call {A} h what (f : Tables -> result (A * Tables)) :
  backend_only h (table_call h what f).
Proof.
  intros c. destruct (table_call_step h what f c) as (r & d & _ & E).
  exists r, (emit (ETable h what (is_ok r)) (set_db d c)).
  split; [ done | ].
  split; try reflexivity.
  exists [ETable h what (is_ok r)]. split; [ done | ].
  by repeat constructor.
Qed.

Ltac backend_only_tac :=
  repeat first
    [ apply backend_only_ret
    | apply backend_only_table_call
    | apply backend_only_bind; [ | intros ? ]
    | match goal with |- backend_only _ (match ?x with _ => _ end) =>
        destruct x end ].

Lemma backend_only_Table_Get h m : backend_only h (Table_Get h m).
Proof. apply backend_only_table_call. Qed.

Lemma backend_only_insertLabels_range h m kvs :
  backend_only h (insertLabels_range h m kvs).
Proof.
  induction kvs as [| [l v] rest IH]; simpl.
  - apply backend_only_ret.
  - unfold Table_InsertLabel. backend_only_tac. apply IH.
Qed.

Lemma backend_only_deleteLabels_range h ls :
  backend_only h (deleteLabels_range h ls).
Proof.
  induction ls as [| l rest IH]; simpl.
  - apply backend_only_ret.
  - unfold Table_DeleteLabel. backend_only_tac. apply IH.
Qed.

Lemma backend_only_deleteLabels h m : backend_only h (Client_deleteLabels h m).
Proof.
  unfold Client_deleteLabels, Table_ListLabels.
  apply backend_only_bind; [ apply backend_only_table_call | intros [ls | e] ].
  - apply backend_only_deleteLabels_range.
  - apply backend_only_ret.
Qed.

Lemma backend_only_insertLabels range h m :
  backend_only h (Client_insertLabels range h m).
Proof. apply backend_only_insertLabels_range. Qed.

Lemma backend_only_replaceLabels range h m :
  backend_only h (Client_replaceLabels range h m).
Proof.
  unfold Client_replaceLabels.
  apply backend_only_bind; [ apply backend_only_deleteLabels | intros [e |] ].
  - apply backend_only_ret.
  - apply backend_only_bind; [ apply backend_only_insertLabels | intros [e |] ];
      apply backend_only_ret.
Qed.

Lemma backend_only_Table_Insert h m : backend_only h (Table_Insert h m).
Proof. unfold Table_Insert. backend_only_tac. Qed.

Lemma backend_only_Table_Update h m : backend_only h (Table_Update h m).
Proof. unfold Table_Update. backend_only_tac. Qed.

Lemma backend_only_Table_Delete h m : backend_only h (Table_Delete h m).
Proof. unfold Table_Delete. backend_only_tac. Qed.

(** ** The shape of a mutation *)

Lemma finish_run e c : finish e c = Ret None (finished e c).
Proof.
  unfold finish, finished, bind, journal_Stage, via_journal, commit_unless_tx,
    bind, r_tx, journal_Commit, ret.
  simpl. destruct (tx c); reflexivity.
Qed.

Lemma body_cases range op h c :
  exists c1, backend_step h c c1 /\
    ((exists e, body_of range op h c = Ret (Some (Wrap e)) c1) \/
     (exists e, body_of range op h c = finish e c1 /\
                EModel e = subject op /\ EAction e = action_of op)).
Proof.
  destruct op as [m | m | m]; simpl.
  - unfold Insert_body, bind.
    destruct (backend_only_Table_Insert h m c) as (r1 & c1 & E1 & S1).
    rewrite E1. destruct r1 as [e |].
    { exists c1. split; [ done | left; by exists e ]. }
    destruct (backend_only_insertLabels range h m c1) as (r2 & c2 & E2 & S2).
    rewrite E2. exists c2.
    split; [ eapply backend_step_trans; eauto | ].
    destruct r2 as [e |]; [ left; by exists e | right ].
    by exists (mkEvent Created m None).
  - unfold Update_body, journal_copy, bind, ret.
    destruct (backend_only_Table_Get h m c) as (r0 & c0 & E0 & S0).
    rewrite E0. destruct r0 as [current | e]; cycle 1.
    { exists c0. split; [ done | left; by exists e ]. }
    destruct (backend_only_Table_Update h m c0) as (r1 & c1 & E1 & S1).
    rewrite E1. destruct r1 as [e |].
    { exists c1. split; [ eapply backend_step_trans; eauto | left; by exists e ]. }
    destruct (backend_only_replaceLabels range h m c1) as (r2 & c2 & E2 & S2).
    rewrite E2. exists c2.
    split; [ repeat (eapply backend_step_trans; eauto) | ].
    destruct r2 as [e |]; [ left; by exists e | right ].
    by exists (mkEvent Updated m (Some current)).
  - unfold Delete_body, bind.
    destruct (backend_only_Table_Delete h m c) as (r1 & c1 & E1 & S1).
    rewrite E1. destruct r1 as [e |].
    { exists c1. split; [ done | left; by exists e ]. }
    destruct (backend_only_deleteLabels h m c1) as (r2 & c2 & E2 & S2).
    rewrite E2. exists c2.
    split; [ eapply backend_step_trans; eauto | ].
    destruct r2 as [e |]; [ left; by exists e | right ].
    by exists (mkEvent Deleted m None).
Qed.

Lemma call_is_mutation range op : call range op = mutation (body_of range op).
Proof. by destruct op. Qed.

(** A mutation whose body returns: the locks are taken and given back
    around it. *)
Lemma mutation_run body c r x :
  mu c = false -> (tx c = None -> dbMutex c = false) ->
  body (handle_of c) (entered c) = Ret r x ->
  mu x = true -> (tx c = None -> dbMutex x = true) ->
  mutation body c = Ret r (released c x).
Proof.
  intros Hmu Hdb Hbody Hmx Hdx.
  unfold mutation, with_deferred, bind, r_Lock, r_tx, released.
  unfold handle_of, entered in Hbody.
  rewrite Hmu. simpl.
  destruct (tx c) as [t |] eqn:Ht.
  - rewrite Hbody. unfold r_Unlock. by rewrite Hmx.
  - unfold dbMutex_Lock at 1. simpl. rewrite (Hdb eq_refl).
    rewrite Hbody. unfold dbMutex_Unlock. rewrite (Hdx eq_refl).
    unfold r_Unlock. simpl. by rewrite Hmx.
Qed.

Lemma entered_mu c : mu (entered c) = true.
Proof. unfold entered. by destruct (tx c). Qed.

Lemma entered_tx c : tx (entered c) = tx c.
Proof. unfold entered. destruct (tx c) eqn:E; simpl; by rewrite E. Qed.

Lemma entered_journal c : journal (entered c) = journal c.
Proof. unfold entered. by destruct (tx c). Qed.

Lemma entered_db c : db (entered c) = db c.
Proof. unfold entered. by destruct (tx c). Qed.

Lemma entered_dbMutex c : tx c = None -> dbMutex (entered c) = true.
Proof. unfold entered. by intros ->. Qed.

Lemma finished_mu e c : mu (finished e c) = mu c.
Proof. unfold finished. by destruct (tx c). Qed.

Lemma finished_dbMutex e c : dbMutex (finished e c) = dbMutex c.
Proof. unfold finished. by destruct (tx c). Qed.

Lemma finished_tx e c : tx (finished e c) = tx c.
Proof. unfold finished. destruct (tx c) eqn:E; simpl; by rewrite E. Qed.

Lemma finished_db e c : db (finished e c) = db c.
Proof. unfold finished. by destruct (tx c). Qed.

(** Every call of a mutation that is not blocked returns, in one of two
    ways: with a wrapped error after backend statements only, or with nil
    after [finish]. *)
Lemma call_cases range op c :
  mu c = false -> (tx c = None -> dbMutex c = false) ->
  exists x, backend_step (handle_of c) (entered c) x /\
    ((exists e, call range op c = Ret (Some (Wrap e)) (released c x)) \/
     (exists e, call range op c = Ret None (released c (finished e x)) /\
                EModel e = subject op /\ EAction e = action_of op)).
Proof.
  intros Hmu Hdb. rewrite call_is_mutation.
  destruct (body_cases range op (handle_of c) (entered c))
    as (x & Sx & [(e & E) | (e & E & Hm & Ha)]).
  - exists x. split; [ done | left ]. exists e.
    apply mutation_run; try done.
    + destruct Sx as [-> _ _ _ _]. apply entered_mu.
    + intros Ht. destruct Sx as [_ -> _ _ _]. by apply entered_dbMutex.
  - exists x. split; [ done | right ]. exists e.
    split; [ | split; assumption ].
    rewrite finish_run in E.
    apply mutation_run; try done.
    + rewrite finished_mu. destruct Sx as [-> _ _ _ _]. apply entered_mu.
    + intros Ht. rewrite finished_dbMutex.
      destruct Sx as [_ -> _ _ _]. by apply entered_dbMutex.
Qed.

(** ** Commit and End, run *)

Lemma invalid_test (cur : option TxRef) (tx : Tx) :
  cur <> Some (ref tx) ->
  bool_decide (cur = None) || negb (bool_decide (cur = Some (ref tx))) = true.
Proof.
  intros H. rewrite (bool_decide_eq_false_2 _ H). simpl. apply orb_true_r.
Qed.

Lemma valid_test (tx : Tx) :
  bool_decide (Some (ref tx) = @None TxRef)
  || negb (bool_decide (Some (ref tx) = Some (ref tx))) = false.
Proof.
  rewrite bool_decide_eq_false_2 by discriminate.
  by rewrite bool_decide_eq_true_2.
Qed.

Lemma commit_refused t c :
  mu c = false -> tx c <> Some (ref t) ->
  Client_commit t c = Ret (Some (Wrap TxInvalidError)) (refused c).
Proof.
  intros Hmu Hne.
  unfold Client_commit, with_deferred, bind, r_Lock, r_tx. rewrite Hmu. simpl.
  by rewrite (invalid_test _ _ Hne).
Qed.

Lemma end_refused t c :
  mu c = false -> tx c <> Some (ref t) ->
  Client_end t c = Ret (Some (Wrap TxInvalidError)) (refused c).
Proof.
  intros Hmu Hne.
  unfold Client_end, with_deferred, bind, r_Lock, r_tx. rewrite Hmu. simpl.
  by rewrite (invalid_test _ _ Hne).
Qed.

Lemma commit_run t c :
  mu c = false -> dbMutex c = true -> tx c = Some (ref t) ->
  Client_commit t c
  = Ret (wrapped (fst (sql_commit (ref t) (db c)))) (after_commit t c).
Proof.
  intros Hmu Hdb Ht.
  unfold Client_commit, with_deferred, bind, r_Lock, r_tx, after_commit.
  rewrite Hmu. simpl. rewrite Ht, valid_test.
  unfold tx_Commit. simpl.
  destruct (sql_commit (ref t) (db c)) as [[[] | e] d]; simpl;
    unfold dbMutex_Unlock; simpl; by rewrite Hdb.
Qed.

Lemma end_run t c :
  mu c = false -> dbMutex c = true -> tx c = Some (ref t) ->
  Client_end t c
  = Ret (wrapped (fst (sql_rollback (ref t) (db c)))) (after_end t c).
Proof.
  intros Hmu Hdb Ht.
  unfold Client_end, with_deferred, bind, r_Lock, r_tx, after_end.
  rewrite Hmu. simpl. rewrite Ht, valid_test.
  unfold tx_Rollback. simpl.
  destruct (sql_rollback (ref t) (db c)) as [[[] | e] d]; simpl;
    unfold dbMutex_Unlock; simpl; by rewrite Hdb.
Qed.

(** ** What a flush of the journal hands to each watch *)

Lemma fold_dispatch es ws :
  List.fold_left dispatch es ws = List.map (receive_all es) ws.
Proof.
  revert ws. induction es as [| e es IH]; intros ws; simpl.
  - induction ws as [| w ws IHw]; simpl; [ done | ].
    rewrite <- IHw. f_equal.
    unfold receive_all. destruct w as [k s cl rc]; simpl.
    destruct (live _); [ by rewrite app_nil_r | done ].
  - rewrite IH. unfold dispatch. rewrite List.map_map.
    apply List.map_ext. intros w.
    unfold receive_all, live, matches, deliver.
    destruct w as [k s cl rc]; simpl.
    destruct (s && negb cl) eqn:L; simpl.
    + destruct (bool_decide (k = Kind (EModel e))) eqn:K; simpl.
      * rewrite L. simpl. by rewrite <- app_assoc.
      * by rewrite L.
    + by rewrite L.
Qed.

Lemma journal_commit_watchList j :
  watchList (journal_commit j) = List.map (receive_all (staged j)) (watchList j).
Proof. unfold journal_commit. simpl. apply fold_dispatch. Qed.

Lemma via_not_journal_commit h e : via h e -> is_journal_commit e = false.
Proof. by destruct e. Qed.

Ltac flatten_trace := simpl; repeat (rewrite <- app_assoc; simpl).

Ltac conjuncts := repeat match goal with |- _ /\ _ => split end.

Ltac by_evaluation := vm_compute; reflexivity.

(** ** When the journal is committed *)

(** C1 (as amended).  A successful Insert, Update or Delete made while no
    transaction is active stages its entry and commits the journal before it
    returns: the flush is in the call's own trace and every live watch of
    the type has the event.  A call made while a transaction is active never
    commits the journal.  [Tx.Commit] flushes the journal only after its
    backend commit has succeeded; when the backend commit fails it hands
    nothing to any watch and leaves the journal as it was, entries still
    staged, and if the next call is a mutation without a transaction that
    succeeds, its flush hands them to the watches together with its own
    entry. *)
Theorem journal_commit_timing range op c r c' t k :
  mu c = false -> (tx c = None -> dbMutex c = false) ->
  call range op c = Ret r c' ->
  mu k = false -> dbMutex k = true -> tx k = Some (ref t) ->
  (tx c = None -> r = None ->
   exists e seg,
     EModel e = subject op /\ EAction e = action_of op /\
     Forall (via ViaDB) seg /\
     trace c' = trace c ++ [ELock; EDbLock] ++ seg ++
                [EStage e; EJournalCommit (staged (journal c) ++ [e]);
                 EDbUnlock; EUnlock] /\
     staged (journal c') = [] /\
     watchList (journal c')
     = List.map (receive_all (staged (journal c) ++ [e]))
                (watchList (journal c)))
  /\
  (tx c <> None ->
   watchList (journal c') = watchList (journal c) /\
   (exists seg, trace c' = trace c ++ seg /\
                Forall (fun x => is_journal_commit x = false) seg) /\
   (r = None ->
    exists e, EModel e = subject op /\ EAction e = action_of op /\
              staged (journal c') = staged (journal c) ++ [e]))
  /\
  (exists r2 k',
     Tx_Commit t k = Ret r2 k' /\
     ((r2 = None /\
       trace k' = trace k ++ [ELock; ESqlCommit true;
                              EJournalCommit (staged (journal k));
                              EDbUnlock; EUnlock] /\
       staged (journal k') = [] /\
       watchList (journal k')
       = List.map (receive_all (staged (journal k))) (watchList (journal k)))
      \/
      (exists e, r2 = Some (Wrap e) /\
         trace k' = trace k ++ [ELock; ESqlCommit false; EDbUnlock; EUnlock] /\
         journal k' = journal k /\
         forall op2 k2,
           call range op2 k' = Ret None k2 ->
           exists e2,
             EModel e2 = subject op2 /\ EAction e2 = action_of op2 /\
             watchList (journal k2)
             = List.map (receive_all (staged (journal k) ++ [e2]))
                        (watchList (journal k))))).
Proof.
  intros Hmu Hdb Hcall Hmk Hdk Htk.
  destruct (call_cases range op c Hmu Hdb)
    as (x & [Sm Sd St Sj (seg & Str & Svia)] & Hcases).
  rewrite entered_tx in St. rewrite entered_journal in Sj.
  split; [ | split ].
  - intros Hnone ->.
    destruct Hcases as [(e & E) | (e & E & Hm & Ha)];
      rewrite E in Hcall; [ discriminate | ].
    injection Hcall as <-.
    exists e, seg. split; [ done | ]. split; [ done | ].
    unfold handle_of in Svia. rewrite Hnone in Svia.
    split; [ done | ].
    unfold released, finished. rewrite St, Hnone. simpl.
    rewrite Str, Sj. unfold entered. rewrite Hnone. simpl.
    split; [ by flatten_trace | ].
    split; [ done | ].
    apply fold_dispatch.
  - intros Hsome. destruct (tx c) as [a |] eqn:Ha; [ clear Hsome | done ].
    assert (Hseg : Forall (fun x => is_journal_commit x = false) seg).
    { eapply Forall_impl; [ exact Svia | ].
      intros y. apply via_not_journal_commit. }
    destruct Hcases as [(e & E) | (e & E & Hm & Hact)];
      rewrite E in Hcall; injection Hcall as <- <-;
      unfold released, finished; rewrite ?St, Ha; simpl;
      rewrite Str, Sj; unfold entered; rewrite Ha; simpl.
    + split; [ done | ]. split; [ | done ].
      exists ([ELock] ++ seg ++ [EUnlock]). split; [ by flatten_trace | ].
      apply Forall_app. split; [ by repeat constructor | ].
      apply Forall_app. split; [ done | by repeat constructor ].
    + split; [ done | ]. split.
      * exists ([ELock] ++ seg ++ [EStage e; EUnlock]).
        split; [ by flatten_trace | ].
        apply Forall_app. split; [ by repeat constructor | ].
        apply Forall_app. split; [ done | by repeat constructor ].
      * intros _. by exists e.
  - unfold Tx_Commit. rewrite (commit_run t k Hmk Hdk Htk).
    eexists _, _. split; [ reflexivity | ].
    destruct (fst (sql_commit (ref t) (db k))) as [[] | e] eqn:Hsql.
    + left. unfold after_commit, closed_tx. rewrite Hsql. simpl.
      split; [ done | ]. split; [ by flatten_trace | ].
      split; [ done | ]. apply fold_dispatch.
    + right. exists e.
      assert (Hj : journal (after_commit t k) = journal k).
      { unfold after_commit. by rewrite Hsql. }
      split; [ done | ].
      split; [ unfold after_commit, closed_tx; rewrite Hsql; by flatten_trace | ].
      split; [ done | ].
      intros op2 k2 Hnext.
      destruct (call_cases range op2 (after_commit t k))
        as (y & [_ _ Ty Jy _] & [(e2 & E) | (e2 & E & Hm & Ha)]);
        try done; rewrite E in Hnext; [ discriminate | ].
      injection Hnext as <-. exists e2. split; [ done | ]. split; [ done | ].
      rewrite entered_tx in Ty. rewrite entered_journal, Hj in Jy.
      assert (Hn : tx (after_commit t k) = None) by done.
      unfold released, finished. rewrite Ty, Hn. simpl.
      rewrite Jy. apply fold_dispatch.
Qed.

Lemma journal_commit_timing_witness :
  (mu fc4 = false /\ (tx fc4 = None -> dbMutex fc4 = false) /\
   call in_order (MInsert vm_b) fc4 = Ret None fc5 /\
   mu fc3 = false /\ dbMutex fc3 = true /\ tx fc3 = Some (ref (mkTx 0))) /\
  staged (journal fc5) = [].
Proof.
  assert (H1 : mu fc4 = false) by by_evaluation.
  assert (H2 : tx fc4 = None -> dbMutex fc4 = false)
    by (intros _; by_evaluation).
  assert (H3 : call in_order (MInsert vm_b) fc4 = Ret None fc5)
    by by_evaluation.
  assert (H4 : mu fc3 = false) by by_evaluation.
  assert (H5 : dbMutex fc3 = true) by by_evaluation.
  assert (H6 : tx fc3 = Some (ref (mkTx 0))) by by_evaluation.
  split; [ conjuncts; assumption | ].
  destruct (journal_commit_timing in_order (MInsert vm_b) fc4 None fc5
              (mkTx 0) fc3 H1 H2 H3 H4 H5 H6) as (A & _ & _).
  assert (H7 : tx fc4 = None) by by_evaluation.
  destruct (A H7 eq_refl) as (e & seg & _ & _ & _ & _ & Hs & _).
  exact Hs.
Defined.

(** C1 as stated fails on this run: the entry that the Insert of [vm_a]
    staged while transaction 0 was active is handed to the watch, although
    the backend commit of that transaction failed, no backend commit ever
    succeeded, and [vm_a] is not in the store. *)
Lemma staged_entry_outlives_failed_commit :
  tx fc2 = Some 0 /\
  Client_Insert in_order vm_a fc2 = Ret None fc3 /\
  Tx_Commit (mkTx 0) fc3 = Ret (Some (Wrap MappingError)) fc4 /\
  Client_Insert in_order vm_b fc4 = Ret None fc5 /\
  received <$> (watchList (journal fc5) !! 0%nat)
  = Some [created vm_a; created vm_b] /\
  List.existsb is_backend_commit_ok (trace fc5) = false /\
  models (committed (db fc5)) = [vm_b].
Proof. conjuncts; by_evaluation. Qed.

(** ** More on the shape of a mutation *)

Lemma backend_only_step {A} h (m : M A) c a c' :
  backend_only h m -> m c = Ret a c' -> backend_step h c c'.
Proof.
  intros Hm E. destruct (Hm c) as (a' & c'' & E' & S).
  rewrite E in E'. by injection E' as -> ->.
Qed.

Lemma backend_only_primary op h : backend_only h (primary op h).
Proof.
  destruct op; simpl;
    [ apply backend_only_Table_Insert | apply backend_only_Table_Update
    | apply backend_only_Table_Delete ].
Qed.

Lemma backend_only_label_sync range op h :
  backend_only h (label_sync range op h).
Proof.
  destruct op; simpl;
    [ apply backend_only_insertLabels | apply backend_only_replaceLabels
    | apply backend_only_deleteLabels ].
Qed.

Lemma entered_trace c : trace (entered c) = trace c ++ opening c.
Proof. unfold entered, opening. destruct (tx c); by flatten_trace. Qed.

Lemma released_trace c x : trace (released c x) = trace x ++ closing c.
Proof. unfold released, closing. destruct (tx c); by flatten_trace. Qed.

Lemma released_journal c x : journal (released c x) = journal x.
Proof. unfold released. by destruct (tx c). Qed.

Lemma released_db c x : db (released c x) = db x.
Proof. unfold released. by destruct (tx c). Qed.

Lemma released_tx c x : tx (released c x) = tx x.
Proof. unfold released. by destruct (tx c). Qed.

Lemma released_mu c x : mu (released c x) = false.
Proof. unfold released. by destruct (tx c). Qed.

Lemma opening_quiet c : Forall (fun e => touches_journal e = false) (opening c).
Proof. unfold opening. destruct (tx c); by repeat constructor. Qed.

Lemma closing_quiet c : Forall (fun e => touches_journal e = false) (closing c).
Proof. unfold closing. destruct (tx c); by repeat constructor. Qed.

Lemma via_quiet h seg :
  Forall (via h) seg -> Forall (fun e => touches_journal e = false) seg.
Proof. intros H. eapply Forall_impl; [ exact H | ]. intros e. by destruct e. Qed.

(** A mutation that leaves its body after backend statements only has not
    touched the journal. *)
Lemma released_quiet c x :
  backend_step (handle_of c) (entered c) x ->
  journal (released c x) = journal c /\
  exists seg, trace (released c x) = trace c ++ seg /\
              Forall (fun e => touches_journal e = false) seg.
Proof.
  intros [_ _ _ Sj (seg & Str & Svia)].
  rewrite released_journal, Sj, entered_journal. split; [ done | ].
  exists (opening c ++ seg ++ closing c).
  rewrite released_trace, Str, entered_trace. split; [ by flatten_trace | ].
  apply Forall_app. split; [ apply opening_quiet | ].
  apply Forall_app. split; [ by eapply via_quiet | apply closing_quiet ].
Qed.

(** C9.  When the primary mapper operation of an Insert, Update or Delete
    succeeds and the label synchronization that follows fails with [e], the
    call returns [e] wrapped, the journal is as it was (nothing staged,
    nothing handed to a watch), and the call's trace has no journal effect:
    no stage and no commit. *)
Theorem label_failure_stages_nothing range op c x0 x1 x2 e :
  mu c = false -> (tx c = None -> dbMutex c = false) ->
  reaches_primary op (handle_of c) (entered c) x0 ->
  primary op (handle_of c) x0 = Ret None x1 ->
  label_sync range op (handle_of c) x1 = Ret (Some e) x2 ->
  exists c',
    call range op c = Ret (Some (Wrap e)) c' /\
    journal c' = journal c /\
    exists seg, trace c' = trace c ++ seg /\
                Forall (fun x => touches_journal x = false) seg.
Proof.
  intros Hmu Hdb H0 H1 H2.
  set (h := handle_of c) in *.
  assert (S0 : backend_step h (entered c) x0).
  { destruct op as [m | m | m]; simpl in H0;
      try (subst x0; apply backend_step_refl).
    destruct H0 as (cur & H0).
    eapply backend_only_step; [ apply backend_only_Table_Get | exact H0 ]. }
  assert (S1 : backend_step h x0 x1)
    by (eapply backend_only_step; [ apply backend_only_primary | exact H1 ]).
  assert (S2 : backend_step h x1 x2)
    by (eapply backend_only_step; [ apply backend_only_label_sync | exact H2 ]).
  assert (S : backend_step h (entered c) x2)
    by (repeat (eapply backend_step_trans; eauto)).
  assert (Hbody : body_of range op h (entered c) = Ret (Some (Wrap e)) x2).
  { destruct op as [m | m | m]; simpl in *.
    - subst x0. unfold Insert_body, bind. by rewrite H1, H2.
    - destruct H0 as (cur & H0).
      unfold Update_body, journal_copy, bind, ret. by rewrite H0, H1, H2.
    - subst x0. unfold Delete_body, bind. by rewrite H1, H2. }
  exists (released c x2). split.
  - rewrite call_is_mutation. apply mutation_run; try done.
    + destruct S as [-> _ _ _ _]. apply entered_mu.
    + intros Ht. destruct S as [_ -> _ _ _]. by apply entered_dbMutex.
  - by apply released_quiet.
Qed.

(** ** Update, in detail *)

Lemma Table_Get_run h m c :
  Table_Get h m c
  = Ret (fst (exec h (rows_get m) (db c)))
        (emit (ETable h (CGet (Kind m) (Pk m))
                 (is_ok (fst (exec h (rows_get m) (db c)))))
              (set_db (snd (exec h (rows_get m) (db c))) c)).
Proof.
  unfold Table_Get, table_call. by destruct (exec h (rows_get m) (db c)).
Qed.

Lemma exec_failure {A} h (f : Tables -> result (A * Tables)) d e :
  fst (exec h f d) = Err e -> snd (exec h f d) = tick d.
Proof.
  unfold exec. destruct (next_fault d); [ done | ].
  destruct (view h (tick d)) as [t |]; [ | done ].
  by destruct (f t) as [[a t'] | e'].
Qed.

Lemma view_tick h d : view h (tick d) = view h d.
Proof. by destruct h. Qed.

Lemma exec_get_absent h m d t :
  next_fault d = false -> view h d = Some t ->
  List.find (same_row m) (models t) = None ->
  fst (exec h (rows_get m) d) = Err NotFound.
Proof.
  intros Hf Hv Hnone. unfold exec. rewrite Hf, view_tick, Hv.
  unfold rows_get. by rewrite Hnone.
Qed.

Lemma exec_get_ok h m d found :
  fst (exec h (rows_get m) d) = Ok found ->
  forall t, view h d = Some t ->
            List.find (same_row m) (models t) = Some found.
Proof.
  unfold exec. destruct (next_fault d); [ discriminate | ].
  rewrite view_tick. intros H t Hv. rewrite Hv in H.
  unfold rows_get in H.
  destruct (List.find (same_row m) (models t)); simpl in H;
    [ by injection H as -> | discriminate ].
Qed.

Lemma Update_body_cases range m h c r0 x0 :
  Table_Get h m c = Ret r0 x0 ->
  match r0 with
  | Err e => Update_body range m h c = Ret (Some (Wrap e)) x0
  | Ok current =>
      exists x, backend_step h x0 x /\
        ((exists e, Update_body range m h c = Ret (Some (Wrap e)) x) \/
         Update_body range m h c = finish (mkEvent Updated m (Some current)) x)
  end.
Proof.
  intros E0.
  unfold Update_body, journal_copy, bind, ret. rewrite E0.
  destruct r0 as [current | e]; [ | done ].
  destruct (backend_only_Table_Update h m x0) as (r1 & c1 & E1 & S1).
  rewrite E1. destruct r1 as [e |].
  { exists c1. split; [ done | left; by exists e ]. }
  destruct (backend_only_replaceLabels range h m c1) as (r2 & c2 & E2 & S2).
  rewrite E2. exists c2.
  split; [ eapply backend_step_trans; eauto | ].
  destruct r2 as [e |]; [ left; by exists e | by right ].
Qed.

Lemma finished_trace e x : exists tail, trace (finished e x) = trace x ++ tail.
Proof.
  unfold finished. destruct (tx x); simpl.
  - by exists [EStage e].
  - exists [EStage e; EJournalCommit (staged (journal x) ++ [e])].
    by flatten_trace.
Qed.

Lemma finished_stages e x :
  exists rest, trace (finished e x) = trace x ++ EStage e :: rest.
Proof.
  unfold finished. destruct (tx x); simpl.
  - by exists [].
  - exists [EJournalCommit (staged (journal x) ++ [e])]. by flatten_trace.
Qed.

(** C6.  Every Update call starts, once the locks are taken, by fetching
    the stored row: that [Get] is the first statement in the call's trace.
    When the fetch fails with [e] (with [NotFound] when the row is absent),
    Update returns [e] wrapped and has written nothing: the fetch is the
    only statement of the call, the tables and the journal are as they
    were.  When the fetch succeeds and the Update does too, the entry it
    stages carries the fetched row as the prior value. *)
Theorem update_fetches_first range m c :
  mu c = false -> (tx c = None -> dbMutex c = false) ->
  exists r0 x0,
    Table_Get (handle_of c) m (entered c) = Ret r0 x0 /\
    (forall t, next_fault (db c) = false ->
               view (handle_of c) (db c) = Some t ->
               List.find (same_row m) (models t) = None ->
               r0 = Err NotFound) /\
    (exists r c' rest,
       Client_Update range m c = Ret r c' /\
       trace c' = trace c ++ opening c ++
                  ETable (handle_of c) (CGet (Kind m) (Pk m)) (is_ok r0)
                  :: rest) /\
    (forall e, r0 = Err e ->
       exists c',
         Client_Update range m c = Ret (Some (Wrap e)) c' /\
         committed (db c') = committed (db c) /\
         working (db c') = working (db c) /\
         journal c' = journal c /\
         trace c' = trace c ++ opening c ++
                    [ETable (handle_of c) (CGet (Kind m) (Pk m)) false] ++
                    closing c) /\
    (forall current c',
       r0 = Ok current -> Client_Update range m c = Ret None c' ->
       exists pre post,
         trace c' = pre ++ EStage (mkEvent Updated m (Some current)) :: post).
Proof.
  intros Hmu Hdb.
  set (h := handle_of c).
  pose proof (Table_Get_run h m (entered c)) as Hget.
  set (r0 := fst (exec h (rows_get m) (db (entered c)))) in *.
  set (x0 := emit (ETable h (CGet (Kind m) (Pk m)) (is_ok r0))
               (set_db (snd (exec h (rows_get m) (db (entered c))))
                       (entered c))) in *.
  pose proof (Update_body_cases range m h (entered c) r0 x0 Hget) as Hcases.
  assert (Hmx0 : mu x0 = true) by apply entered_mu.
  assert (Hdx0 : tx c = None -> dbMutex x0 = true)
    by (intros Ht; by apply entered_dbMutex).
  assert (Htr0 : trace x0 = trace c ++ opening c ++
                   [ETable h (CGet (Kind m) (Pk m)) (is_ok r0)]).
  { unfold x0. simpl. rewrite entered_trace. by flatten_trace. }
  exists r0, x0. split; [ done | ]. split; [ | split; [ | split ] ].
  - intros t Hf Hv Hnone. unfold r0. rewrite entered_db.
    by eapply exec_get_absent.
  - destruct r0 as [current | e].
    + destruct Hcases as (x & Sx & Hx).
      pose proof Sx as [Sm Sd _ _ (seg & Str & _)].
      destruct Hx as [(e & E) | E].
      * exists (Some (Wrap e)), (released c x), (seg ++ closing c).
        split.
        -- apply (mutation_run (Update_body range m));
             first [ done
                   | rewrite Sm; exact Hmx0
                   | intros Ht; rewrite Sd; exact (Hdx0 Ht) ].
        -- rewrite released_trace, Str, Htr0. by flatten_trace.
      * rewrite finish_run in E.
        destruct (finished_trace (mkEvent Updated m (Some current)) x)
          as (tail & Htail).
        exists None, (released c (finished (mkEvent Updated m (Some current)) x)),
          (seg ++ tail ++ closing c).
        split.
        -- apply (mutation_run (Update_body range m));
             first [ done
                   | rewrite finished_mu, Sm; exact Hmx0
                   | intros Ht; rewrite finished_dbMutex, Sd; exact (Hdx0 Ht) ].
        -- rewrite released_trace, Htail, Str, Htr0. by flatten_trace.
    + exists (Some (Wrap e)), (released c x0), (closing c). split.
      * by apply (mutation_run (Update_body range m)).
      * rewrite released_trace, Htr0. by flatten_trace.
  - intros e He.
    exists (released c x0).
    split.
    { rewrite He in Hcases. by apply (mutation_run (Update_body range m)). }
    rewrite released_db, released_journal, released_trace, Htr0, He.
    unfold x0. simpl.
    rewrite (exec_failure h (rows_get m) (db (entered c)) e He).
    rewrite entered_db, entered_journal.
    split; [ done | ]. split; [ done | ]. split; [ done | ].
    by flatten_trace.
  - intros current c' He Hc'. rewrite He in Hcases.
    destruct Hcases as (x & [Sm Sd _ _ _] & [(e & E) | E]).
    + assert (Hc : Client_Update range m c
                   = Ret (Some (Wrap e)) (released c x)).
      { apply (mutation_run (Update_body range m));
          first [ done
                | rewrite Sm; exact Hmx0
                | intros Ht; rewrite Sd; exact (Hdx0 Ht) ]. }
      rewrite Hc in Hc'. discriminate.
    + rewrite finish_run in E.
      assert (Hc : Client_Update range m c
                   = Ret None
                       (released c
                          (finished (mkEvent Updated m (Some current)) x))).
      { apply (mutation_run (Update_body range m));
          first [ done
                | rewrite finished_mu, Sm; exact Hmx0
                | intros Ht; rewrite finished_dbMutex, Sd; exact (Hdx0 Ht) ]. }
      rewrite Hc in Hc'. injection Hc' as <-.
      destruct (finished_stages (mkEvent Updated m (Some current)) x)
        as (rest & Hrest).
      exists (trace x), (rest ++ closing c).
      rewrite released_trace, Hrest. by flatten_trace.
Qed.

(** ** Commit and End, their two ways out *)

Lemma sql_commit_failure ref d e :
  fst (sql_commit ref d) = Err e -> snd (sql_commit ref d) = tick d.
Proof.
  unfold sql_commit. destruct (next_fault d); [ done | ].
  by destruct (view (ViaTx ref) (tick d)).
Qed.

Lemma sql_rollback_cases ref d :
  (fst (sql_rollback ref d) = Ok tt /\
   committed (snd (sql_rollback ref d)) = committed d /\
   working (snd (sql_rollback ref d)) = None) \/
  (exists e, fst (sql_rollback ref d) = Err e /\
             snd (sql_rollback ref d) = tick d).
Proof.
  unfold sql_rollback. destruct (next_fault d).
  - right. by exists MappingError.
  - destruct (view (ViaTx ref) (tick d)).
    + by left.
    + right. by exists MappingError.
Qed.

(** C5.  Commit and End are terminal: after either of them (whatever it
    returned) a second Commit or End of the same Tx returns
    [TxInvalidError], wrapped, and so does a Commit or End of a Tx that is
    not the client's active transaction; such a refused call changes
    nothing but the trace. *)
Theorem commit_and_end_are_terminal t c u k :
  mu c = false -> dbMutex c = true -> tx c = Some (ref t) ->
  mu k = false -> tx k <> Some (ref u) ->
  (exists r c1,
     Tx_Commit t c = Ret r c1 /\
     Tx_Commit t c1 = Ret (Some (Wrap TxInvalidError)) (refused c1) /\
     Tx_End t c1 = Ret (Some (Wrap TxInvalidError)) (refused c1)) /\
  (exists r c1,
     Tx_End t c = Ret r c1 /\
     Tx_Commit t c1 = Ret (Some (Wrap TxInvalidError)) (refused c1) /\
     Tx_End t c1 = Ret (Some (Wrap TxInvalidError)) (refused c1)) /\
  Tx_Commit u k = Ret (Some (Wrap TxInvalidError)) (refused k) /\
  Tx_End u k = Ret (Some (Wrap TxInvalidError)) (refused k) /\
  cause (Wrap TxInvalidError) = TxInvalidError /\
  tx (refused k) = tx k /\ dbMutex (refused k) = dbMutex k /\
  db (refused k) = db k /\ journal (refused k) = journal k /\
  trace (refused k) = trace k ++ [ELock; EUnlock].
Proof.
  intros Hmu Hdb Ht Hmk Hne.
  unfold Tx_Commit, Tx_End.
  split; [ | split ].
  - rewrite (commit_run t c Hmu Hdb Ht). eexists _, _.
    split; [ reflexivity | ].
    split; [ apply commit_refused | apply end_refused ]; done.
  - rewrite (end_run t c Hmu Hdb Ht). eexists _, _.
    split; [ reflexivity | ].
    split; [ apply commit_refused | apply end_refused ]; done.
  - split; [ by apply commit_refused | ].
    split; [ by apply end_refused | ].
    conjuncts; try done. unfold refused. by flatten_trace.
Qed.

(** C3 (as amended).  [Tx.End] on the active transaction always clears the
    active transaction and releases the write lock, and hands no event to
    any watch.  When the backend rollback succeeds, the working state of
    the transaction is gone and every staged entry is discarded.  When the
    backend rollback fails, End returns the error wrapped and discards
    nothing: the staged entries stay staged.  Either both discards happen
    or neither does. *)
Theorem end_discards_both_or_neither t c :
  mu c = false -> dbMutex c = true -> tx c = Some (ref t) ->
  exists r c',
    Tx_End t c = Ret r c' /\
    tx c' = None /\ dbMutex c' = false /\
    watchList (journal c') = watchList (journal c) /\
    committed (db c') = committed (db c) /\
    ((r = None /\
      working (db c') = None /\
      staged (journal c') = [] /\
      trace c' = trace c ++ [ELock; ESqlRollback true;
                             EJournalUnstage (staged (journal c));
                             EDbUnlock; EUnlock])
     \/
     (exists e,
        r = Some (Wrap e) /\
        working (db c') = working (db c) /\
        staged (journal c') = staged (journal c) /\
        trace c' = trace c ++ [ELock; ESqlRollback false;
                               EDbUnlock; EUnlock])).
Proof.
  intros Hmu Hdb Ht.
  unfold Tx_End. rewrite (end_run t c Hmu Hdb Ht).
  eexists _, _. split; [ reflexivity | ].
  split; [ done | ]. split; [ done | ].
  unfold after_end.
  destruct (sql_rollback_cases (ref t) (db c))
    as [(Hok & Hc & Hw) | (e & Herr & Hd)].
  - rewrite Hok. simpl. rewrite Hc, Hw.
    split; [ done | ]. split; [ done | ]. left.
    conjuncts; try done. by flatten_trace.
  - rewrite Herr. simpl. rewrite Hd. simpl.
    split; [ done | ]. split; [ done | ]. right. exists e.
    conjuncts; try done. by flatten_trace.
Qed.

(** C3 as stated fails on this run: [End] on the active transaction 0,
    whose backend rollback fails, leaves the entry of [vm_a] staged, and
    the next Insert hands it to the watch. *)
Lemma failed_end_leaves_entries_staged :
  tx fc3 = Some 0 /\ dbMutex fc3 = true /\
  staged (journal fc3) = [created vm_a] /\
  Tx_End (mkTx 0) fc3 = Ret (Some (Wrap MappingError)) fe4 /\
  staged (journal fe4) = [created vm_a] /\
  Client_Insert in_order vm_b fe4 = Ret None fe5 /\
  received <$> (watchList (journal fe5) !! 0%nat)
  = Some [created vm_a; created vm_b].
Proof. conjuncts; by_evaluation. Qed.

(** ** Begin and GetForUpdate *)

Lemma Begin_run c :
  mu c = false -> dbMutex c = false ->
  Client_Begin c = Ret (begun c) (after_begin c).
Proof.
  intros Hmu Hdb.
  unfold Client_Begin, with_deferred, bind, r_Lock, dbMutex_Lock, db_Begin,
    begun, after_begin.
  rewrite Hmu. simpl. rewrite Hdb. simpl.
  destruct (sql_begin (db c)) as [[ref | e] d]; reflexivity.
Qed.

Lemma Begin_blocked c :
  mu c = false -> dbMutex c = true ->
  Client_Begin c = Blocked (emit ELock (set_mu true c)).
Proof.
  intros Hmu Hdb.
  unfold Client_Begin, with_deferred, bind, r_Lock, dbMutex_Lock.
  rewrite Hmu. simpl. by rewrite Hdb.
Qed.

Lemma sql_begin_ok d ref :
  fst (sql_begin d) = Ok ref ->
  next_fault d = false /\ ref = next_ref d /\
  committed (snd (sql_begin d)) = committed d /\
  working (snd (sql_begin d)) = Some (ref, committed d) /\
  faults (snd (sql_begin d)) = List.tl (faults d).
Proof.
  unfold sql_begin. destruct (next_fault d); [ done | ].
  simpl. intros [= <-]. done.
Qed.

Lemma after_end_trace t x :
  exists ok rest,
    trace (after_end t x) = trace x ++ ELock :: ESqlRollback ok :: rest.
Proof.
  unfold after_end, closed_tx.
  destruct (fst (sql_rollback (ref t) (db x))) as [[] | e].
  - exists true, [EJournalUnstage (staged (journal x)); EDbUnlock; EUnlock].
    by flatten_trace.
  - exists false, [EDbUnlock; EUnlock]. by flatten_trace.
Qed.

(** C7.  [GetForUpdate] whose [Begin] succeeds: when the fetch succeeds it
    returns the stored row and the Tx, which is the client's active
    transaction and holds the write lock; when the fetch fails with [e]
    (with [NotFound] when the row is absent) it calls [End] on the Tx it had
    begun and returns the model as given, a nil Tx and [e], and the client
    is left with no active transaction and the write lock free. *)
Theorem get_for_update_ends_its_tx m c ref0 :
  mu c = false -> dbMutex c = false ->
  fst (sql_begin (db c)) = Ok ref0 ->
  exists r0 x0,
    Table_Get ViaDB m (after_begin c) = Ret r0 x0 /\
    (forall found, r0 = Ok found ->
       Client_GetForUpdate m c = Ret (found, Some (mkTx ref0), None) x0 /\
       List.find (same_row m) (models (committed (db c))) = Some found /\
       tx x0 = Some ref0 /\ dbMutex x0 = true /\ mu x0 = false) /\
    (forall e, r0 = Err e ->
       exists r1 c',
         Tx_End (mkTx ref0) x0 = Ret r1 c' /\
         Client_GetForUpdate m c = Ret (m, None, Some e) c' /\
         tx c' = None /\ dbMutex c' = false /\ mu c' = false /\
         exists ok rest,
           trace c' = trace x0 ++ ELock :: ESqlRollback ok :: rest) /\
    (next_fault (db (after_begin c)) = false ->
     List.find (same_row m) (models (committed (db c))) = None ->
     r0 = Err NotFound).
Proof.
  intros Hmu Hdb Hok.
  destruct (sql_begin_ok _ _ Hok) as (_ & _ & Hc & _ & _).
  pose proof (Table_Get_run ViaDB m (after_begin c)) as Hget.
  set (r0 := fst (exec ViaDB (rows_get m) (db (after_begin c)))) in *.
  set (x0 := emit (ETable ViaDB (CGet (Kind m) (Pk m)) (is_ok r0))
               (set_db (snd (exec ViaDB (rows_get m) (db (after_begin c))))
                       (after_begin c))) in *.
  assert (Hdbc : committed (db (after_begin c)) = committed (db c)).
  { unfold after_begin. rewrite Hok. simpl. exact Hc. }
  assert (Htx : tx x0 = Some ref0).
  { unfold x0, after_begin. rewrite Hok. reflexivity. }
  assert (Hdx : dbMutex x0 = true)
    by (unfold x0, after_begin; rewrite Hok; reflexivity).
  assert (Hmx : mu x0 = false) by reflexivity.
  assert (Hbegun : begun c = (Some (mkTx ref0), None))
    by (unfold begun; by rewrite Hok).
  exists r0, x0. split; [ done | ]. split; [ | split ].
  - intros found Hfound.
    split.
    { unfold Client_GetForUpdate, bind.
      rewrite (Begin_run c Hmu Hdb), Hbegun. simpl.
      rewrite Hget, Hfound. reflexivity. }
    split; [ | conjuncts; assumption ].
    rewrite <- Hdbc.
    by apply (exec_get_ok ViaDB m (db (after_begin c)) found).
  - intros e He.
    exists (wrapped (fst (sql_rollback ref0 (db x0)))), (after_end (mkTx ref0) x0).
    assert (Hend : Tx_End (mkTx ref0) x0
                   = Ret (wrapped (fst (sql_rollback ref0 (db x0))))
                         (after_end (mkTx ref0) x0))
      by (by apply end_run).
    split; [ done | ]. split.
    { unfold Client_GetForUpdate, bind.
      rewrite (Begin_run c Hmu Hdb), Hbegun. simpl.
      rewrite Hget, He, Hend. reflexivity. }
    split; [ done | ]. split; [ done | ]. split; [ done | ].
    apply after_end_trace.
  - intros Hf Hnone. unfold r0.
    apply (exec_get_absent ViaDB m _ (committed (db c)));
      [ exact Hf | exact (f_equal Some Hdbc) | exact Hnone ].
Qed.

(** ** Watch *)

Lemma notify_rows_run w rows c :
  notify_rows w rows c = Ret tt (notified w rows c).
Proof.
  revert c. induction rows as [| m rest IH]; intros c; simpl.
  - unfold ret, notified. simpl. destruct c; simpl. by rewrite app_nil_r.
  - unfold bind, watch_Notify, via_journal. rewrite IH.
    unfold notified. simpl. by rewrite <- app_assoc.
Qed.

Lemma alter_last {A} (f : A -> A) (ws : list A) (wn : A) :
  alter f (length ws) (ws ++ [wn]) = ws ++ [f wn].
Proof. induction ws as [| w ws IH]; simpl; [ done | by f_equal ]. Qed.

Lemma notify_fresh_watch rows st ws wn :
  List.fold_left (fun j x => watch_notify (length ws) (created x) j) rows
                 (mkJournal st (ws ++ [wn]))
  = mkJournal st
      (ws ++ [mkWatch (WKind wn) (started wn) (closed wn)
                      (received wn ++ List.map created rows)]).
Proof.
  revert wn. induction rows as [| m rest IH]; intros wn; simpl.
  - destruct wn; simpl. by rewrite app_nil_r.
  - unfold watch_notify at 2. simpl. rewrite alter_last, IH. simpl.
    by rewrite <- app_assoc.
Qed.

Lemma start_fresh_watch st ws wn :
  watch_start (length ws) (mkJournal st (ws ++ [wn]))
  = mkJournal st (ws ++ [mkWatch (WKind wn) true (closed wn) (received wn)]).
Proof.
  unfold watch_start. simpl. by rewrite alter_last.
Qed.

(** C2.  A [Watch] call whose snapshot [List] succeeds registers the watch
    with the journal, then lists the rows of the type, then hands the
    handler one [Created] event per row, in the order of the list, then
    starts the watch; all of it between [Lock] and [Unlock] of the state
    lock.  The handler has received exactly these events: as many as there
    are rows. *)
Theorem watch_replays_snapshot m c :
  mu c = false -> next_fault (db c) = false ->
  exists c',
    Client_Watch m c = Ret (Some (length (watchList (journal c))), None) c' /\
    watchList (journal c')
    = watchList (journal c)
      ++ [mkWatch (Kind m) true false (List.map created (snapshot m c))] /\
    length (List.map created (snapshot m c)) = length (snapshot m c) /\
    staged (journal c') = staged (journal c) /\
    trace c'
    = trace c
      ++ [ELock; EJournalWatch (length (watchList (journal c)));
          ETable ViaDB (CList (Kind m)) true]
      ++ List.map (fun x => ENotify (length (watchList (journal c))) (created x))
                  (snapshot m c)
      ++ [EStart (length (watchList (journal c))); EUnlock].
Proof.
  intros Hmu Hf.
  unfold Client_Watch, with_deferred, bind, r_Lock. rewrite Hmu. simpl.
  unfold Table_List, table_call, exec. simpl. rewrite Hf. simpl.
  rewrite notify_rows_run.
  unfold watch_Start, via_journal, r_Unlock. simpl.
  eexists. split; [ reflexivity | ].
  rewrite notify_fresh_watch, start_fresh_watch. simpl.
  split; [ done | ]. split; [ apply List.length_map | ].
  split; [ done | ].
  unfold snapshot. by flatten_trace.
Qed.

(** ** The span of a transaction *)

Lemma within_tx_lock t : within_tx t ELock.
Proof. by repeat split. Qed.

Lemma within_tx_unlock t : within_tx t EUnlock.
Proof. by repeat split. Qed.

Lemma within_tx_via t seg :
  Forall (via (ViaTx (ref t))) seg -> Forall (within_tx t) seg.
Proof.
  intros H. eapply Forall_impl; [ exact H | ].
  intros e He. destruct e; first [ done | by repeat split ].
Qed.

Lemma within_tx_read t seg :
  Forall (fun e => is_db_lock e = false /\ is_journal_commit e = false /\
                   is_write e = false) seg ->
  Forall (within_tx t) seg.
Proof.
  intros H. eapply Forall_impl; [ exact H | ].
  intros e (H1 & H2 & H3). repeat split; try done. by rewrite H3.
Qed.

(** A mutation made while [t] is the active transaction. *)
Lemma call_within_tx range op t c r c' :
  holds_write_lock t c -> call range op c = Ret r c' ->
  holds_write_lock t c' /\
  exists seg, trace c' = trace c ++ seg /\ Forall (within_tx t) seg.
Proof.
  intros (Hmu & Hdb & Ht) Hcall.
  destruct (call_cases range op c Hmu) as (x & Sx & Hcases);
    [ by rewrite Ht | ].
  destruct Sx as [Sm Sd St Sj (seg & Str & Svia)].
  rewrite entered_tx in St.
  unfold handle_of in Svia. rewrite Ht in Svia.
  assert (Hdx : dbMutex x = true).
  { rewrite Sd. unfold entered. by rewrite Ht. }
  assert (Hopen : trace (entered c) = trace c ++ [ELock]).
  { rewrite entered_trace. unfold opening. by rewrite Ht. }
  destruct Hcases as [(e & E) | (e & E & _)];
    rewrite E in Hcall; injection Hcall as <- <-;
    unfold released, finished; rewrite ?St, Ht; simpl.
  - split; [ unfold holds_write_lock; simpl; by rewrite Hdx, St | ].
    exists ([ELock] ++ seg ++ [EUnlock]).
    rewrite Str, Hopen. split; [ by flatten_trace | ].
    apply Forall_app.
    split; [ constructor; [ apply within_tx_lock | constructor ] | ].
    apply Forall_app. split; [ by apply within_tx_via | ].
    constructor; [ apply within_tx_unlock | constructor ].
  - split; [ unfold holds_write_lock; simpl; by rewrite Hdx, St | ].
    exists ([ELock] ++ seg ++ [EStage e; EUnlock]).
    rewrite Str, Hopen. split; [ by flatten_trace | ].
    apply Forall_app.
    split; [ constructor; [ apply within_tx_lock | constructor ] | ].
    apply Forall_app. split; [ by apply within_tx_via | ].
    constructor; [ by split | ].
    constructor; [ apply within_tx_unlock | constructor ].
Qed.

(** A read through the connection. *)
Lemma read_within_tx {A} t what (f : Tables -> result (A * Tables)) c r c' :
  is_write (ETable ViaDB what true) = false ->
  holds_write_lock t c -> table_call ViaDB what f c = Ret r c' ->
  holds_write_lock t c' /\
  exists seg, trace c' = trace c ++ seg /\ Forall (within_tx t) seg.
Proof.
  intros Hread (Hmu & Hdb & Ht) Hcall.
  destruct (table_call_step ViaDB what f c) as (r1 & d & _ & E).
  rewrite E in Hcall. injection Hcall as <- <-.
  split; [ done | ].
  exists [ETable ViaDB what (is_ok r1)]. split; [ done | ].
  repeat constructor; try done.
  intros Hw. destruct what; simpl in *; done.
Qed.

(** A Watch call. *)
Lemma watch_within_tx t m c r c' :
  holds_write_lock t c -> Client_Watch m c = Ret r c' ->
  holds_write_lock t c' /\
  exists seg, trace c' = trace c ++ seg /\ Forall (within_tx t) seg.
Proof.
  intros (Hmu & Hdb & Ht).
  unfold Client_Watch, with_deferred, bind, r_Lock. rewrite Hmu. simpl.
  unfold Table_List, table_call. simpl.
  destruct (exec ViaDB (rows_list (Kind m)) (db c)) as [[rows | e] d]; simpl.
  - rewrite notify_rows_run.
    unfold watch_Start, via_journal, r_Unlock. simpl.
    intros [= <- <-]. simpl.
    split; [ done | ].
    eexists. split; [ by flatten_trace | ].
    repeat constructor; try done.
    apply Forall_app. split.
    + apply List.Forall_map. apply Forall_forall. intros y _.
      by repeat split.
    + by repeat constructor.
  - unfold r_Unlock. simpl. intros [= <- <-]. simpl.
    split; [ done | ].
    eexists. split; [ by flatten_trace | ].
    by repeat constructor.
Qed.

(** One call that is not a Commit or End of [t] leaves the write lock with
    [t]; [Begin] and [GetForUpdate] do not return. *)
Lemma perform_within_tx range t q c c' :
  holds_write_lock t c -> ends t q = false ->
  perform range q c = Ret tt c' ->
  holds_write_lock t c' /\
  exists seg, trace c' = trace c ++ seg /\ Forall (within_tx t) seg.
Proof.
  intros Hold Hq Hrun. pose proof Hold as (Hmu & Hdb & Ht).
  destruct q as [| m | m | kind | m | m | m | m | u | u];
    simpl in Hrun; unfold bind in Hrun.
  - by rewrite (Begin_blocked c Hmu Hdb) in Hrun.
  - unfold Client_GetForUpdate, bind in Hrun.
    by rewrite (Begin_blocked c Hmu Hdb) in Hrun.
  - destruct (Client_Get m c) as [r x | |] eqn:E; try done.
    injection Hrun as <-.
    apply (read_within_tx t (CGet (Kind m) (Pk m)) (rows_get m) c r);
      [ reflexivity | exact Hold | exact E ].
  - destruct (Table_List ViaDB kind c) as [r x | |] eqn:E; try done.
    injection Hrun as <-.
    apply (read_within_tx t (CList kind) (rows_list kind) c r);
      [ reflexivity | exact Hold | exact E ].
  - destruct (Client_Insert range m c) as [r x | |] eqn:E; try done.
    injection Hrun as <-. by eapply (call_within_tx range (MInsert m)).
  - destruct (Client_Update range m c) as [r x | |] eqn:E; try done.
    injection Hrun as <-. by eapply (call_within_tx range (MUpdate m)).
  - destruct (Client_Delete m c) as [r x | |] eqn:E; try done.
    injection Hrun as <-. by eapply (call_within_tx range (MDelete m)).
  - destruct (Client_Watch m c) as [r x | |] eqn:E; try done.
    injection Hrun as <-. by eapply watch_within_tx.
  - simpl in Hq. apply bool_decide_eq_false in Hq.
    unfold Tx_Commit in Hrun. rewrite commit_refused in Hrun;
      [ | done | rewrite Ht; congruence ].
    injection Hrun as <-. split; [ done | ].
    exists [ELock; EUnlock]. split; [ unfold refused; by flatten_trace | ].
    by repeat constructor.
  - simpl in Hq. apply bool_decide_eq_false in Hq.
    unfold Tx_End in Hrun. rewrite end_refused in Hrun;
      [ | done | rewrite Ht; congruence ].
    injection Hrun as <-. split; [ done | ].
    exists [ELock; EUnlock]. split; [ unfold refused; by flatten_trace | ].
    by repeat constructor.
Qed.

Lemma perform_all_within_tx range t qs c c' :
  holds_write_lock t c -> Forall (fun q => ends t q = false) qs ->
  perform_all range qs c = Ret tt c' ->
  holds_write_lock t c' /\
  exists seg, trace c' = trace c ++ seg /\ Forall (within_tx t) seg.
Proof.
  revert c. induction qs as [| q rest IH]; intros c Hold Hqs Hrun.
  - injection Hrun as <-. split; [ done | ].
    exists []. split; [ by rewrite app_nil_r | constructor ].
  - apply Forall_cons in Hqs as [Hq Hrest].
    simpl in Hrun. unfold bind in Hrun.
    destruct (perform range q c) as [[] x | |] eqn:E; try done.
    destruct (perform_within_tx range t q c x Hold Hq E)
      as (Hx & s1 & E1 & F1).
    destruct (IH x Hx Hrest Hrun) as (Hc' & s2 & E2 & F2).
    split; [ done | ].
    exists (s1 ++ s2). split; [ rewrite E2, E1; by rewrite <- app_assoc | ].
    by apply Forall_app.
Qed.

Lemma after_begin_trace k :
  trace (after_begin k)
  = trace k ++ [ELock; EDbLock; ESqlBegin (is_ok (fst (sql_begin (db k))));
                EUnlock].
Proof.
  unfold after_begin.
  destruct (fst (sql_begin (db k))) as [ref0 | e]; by flatten_trace.
Qed.

Lemma after_begin_dbMutex k : dbMutex (after_begin k) = true.
Proof. unfold after_begin. by destruct (fst (sql_begin (db k))). Qed.

(** C8.  [Begin] takes the write lock before it opens the backend
    transaction and returns without releasing it, whether or not the
    backend transaction could be opened.  From the return of a successful
    [Begin] and through any sequence of calls on the client that are not a
    Commit or an End of the returned Tx, the lock stays held for that Tx:
    no call takes or releases it, no call commits the journal (none is an
    autocommit mutation), every write goes through the transaction, and a
    second [Begin] waits.  Commit and End of the Tx release the lock. *)
Theorem begin_holds_write_lock_until_end range c t qs c2 k :
  mu c = false -> dbMutex c = false ->
  fst (sql_begin (db c)) = Ok (ref t) ->
  Forall (fun q => ends t q = false) qs ->
  perform_all range qs (after_begin c) = Ret tt c2 ->
  mu k = false -> dbMutex k = false ->
  (Client_Begin k = Ret (begun k) (after_begin k) /\
   dbMutex (after_begin k) = true /\
   trace (after_begin k)
   = trace k ++ [ELock; EDbLock; ESqlBegin (is_ok (fst (sql_begin (db k))));
                 EUnlock]) /\
  Client_Begin c = Ret (Some t, None) (after_begin c) /\
  holds_write_lock t (after_begin c) /\
  holds_write_lock t c2 /\
  (exists seg, trace c2 = trace (after_begin c) ++ seg /\
               Forall (within_tx t) seg) /\
  Client_Begin c2 = Blocked (emit ELock (set_mu true c2)) /\
  (exists r, Tx_Commit t c2 = Ret r (after_commit t c2)) /\
  dbMutex (after_commit t c2) = false /\
  (exists r, Tx_End t c2 = Ret r (after_end t c2)) /\
  dbMutex (after_end t c2) = false.
Proof.
  intros Hmu Hdb Hok Hqs Hrun Hmk Hdk.
  assert (Hold : holds_write_lock t (after_begin c)).
  { unfold holds_write_lock, after_begin. rewrite Hok. by simpl. }
  destruct (perform_all_within_tx range t qs _ c2 Hold Hqs Hrun)
    as (Hold2 & Hseg).
  pose proof Hold2 as (Hm2 & Hd2 & Ht2).
  split.
  { split; [ by apply Begin_run | ].
    split; [ apply after_begin_dbMutex | apply after_begin_trace ]. }
  split.
  { rewrite (Begin_run c Hmu Hdb). unfold begun. rewrite Hok.
    by destruct t. }
  split; [ done | ]. split; [ done | ]. split; [ done | ].
  split; [ by apply Begin_blocked | ].
  split; [ eexists; by apply commit_run | ].
  split; [ done | ].
  split; [ eexists; by apply end_run | done ].
Qed.

(** ** What the statements of a mutation do to the tables *)

Lemma view_store h t d : view h (store h t d) = Some t.
Proof.
  destruct h as [| ref0]; simpl; [ done | ].
  by rewrite bool_decide_eq_true_2.
Qed.

Lemma exec_ok {A} h (f : Tables -> result (A * Tables)) d a :
  fst (exec h f d) = Ok a ->
  exists t t', view h d = Some t /\ f t = Ok (a, t') /\
               view h (snd (exec h f d)) = Some t'.
Proof.
  unfold exec. destruct (next_fault d); [ discriminate | ].
  rewrite view_tick. destruct (view h d) as [t |]; [ | discriminate ].
  destruct (f t) as [[a' t'] | e] eqn:Ef; simpl; [ | discriminate ].
  intros [= ->]. exists t, t'. split; [ done | ]. split; [ done | ].
  apply view_store.
Qed.

(** A statement that returns nil went through. *)
Lemma statement_ok h what (f : Tables -> result (unit * Tables)) c x t :
  bind (table_call h what f) (fun r => ret (err_of r)) c = Ret None x ->
  view h (db c) = Some t ->
  exists t', f t = Ok (tt, t') /\ view h (db x) = Some t' /\
             trace x = trace c ++ [ETable h what true].
Proof.
  unfold bind, table_call, ret. intros H Hv.
  destruct (exec h f (db c)) as [r d] eqn:E.
  injection H as Hr <-.
  destruct r as [[] | e]; [ | discriminate ].
  destruct (exec_ok h f (db c) tt) as (t0 & t' & Hv0 & Hf & Hv');
    [ by rewrite E | ].
  rewrite Hv in Hv0. injection Hv0 as <-.
  exists t'. rewrite E in Hv'. by split.
Qed.

Lemma insertLabels_range_ok h m kvs c x t :
  insertLabels_range h m kvs c = Ret None x ->
  view h (db c) = Some t ->
  view h (db x)
  = Some (mkTables (models t) (labels t ++ List.map (label_row m) kvs)) /\
  trace x
  = trace c ++ List.map (fun kv => ETable h (CInsertLabel (label_row m kv)) true)
                        kvs.
Proof.
  revert c t. induction kvs as [| [l v] rest IH]; intros c t H Hv.
  - injection H as <-. simpl. rewrite !app_nil_r. by destruct t.
  - simpl in H. unfold bind at 1 in H.
    destruct (Table_InsertLabel h (mkLabel (Pk m) (Kind m) l v) c)
      as [[e |] c1 | |] eqn:E1; try discriminate.
    destruct (statement_ok h _ _ c c1 t E1 Hv) as (t' & Hf & Hv' & Htr).
    injection Hf as <-.
    destruct (IH c1 _ H Hv') as (Hv2 & Htr2). simpl in Hv2.
    split.
    + rewrite Hv2. simpl. by rewrite <- app_assoc.
    + rewrite Htr2, Htr. by flatten_trace.
Qed.

Lemma filter_filter {A} (p q : A -> bool) (l : list A) :
  List.filter p (List.filter q l) = List.filter (fun y => q y && p y) l.
Proof.
  induction l as [| a l IH]; simpl; [ done | ].
  destruct (q a); simpl; [ | done ].
  destruct (p a); by rewrite IH.
Qed.

Lemma deleteLabels_range_ok h gone c x t :
  deleteLabels_range h gone c = Ret None x ->
  view h (db c) = Some t ->
  view h (db x) = Some (mkTables (models t) (without gone (labels t))) /\
  trace x
  = trace c ++ List.map (fun l => ETable h (CDeleteLabel l) true) gone.
Proof.
  revert c t. induction gone as [| l rest IH]; intros c t H Hv.
  - injection H as <-. simpl. rewrite app_nil_r. split; [ | done ].
    rewrite Hv. f_equal. destruct t as [ms ls]. simpl. f_equal.
    unfold without. simpl. clear. induction ls; simpl; by f_equal.
  - simpl in H. unfold bind at 1 in H.
    destruct (Table_DeleteLabel h l c) as [[e |] c1 | |] eqn:E1;
      try discriminate.
    destruct (statement_ok h _ _ c c1 t E1 Hv) as (t' & Hf & Hv' & Htr).
    injection Hf as <-.
    destruct (IH c1 _ H Hv') as (Hv2 & Htr2). simpl in Hv2.
    split.
    + rewrite Hv2. simpl. unfold without. by rewrite filter_filter.
    + rewrite Htr2, Htr. by flatten_trace.
Qed.

Lemma listLabels_ok h kind parent c ls x t :
  Table_ListLabels h kind parent c = Ret (Ok ls) x ->
  view h (db c) = Some t ->
  ls = List.filter (for_key kind parent) (labels t) /\
  view h (db x) = Some t /\
  trace x = trace c ++ [ETable h (CListLabels kind parent) true].
Proof.
  unfold Table_ListLabels, table_call. intros H Hv.
  destruct (exec h (labels_list kind parent) (db c)) as [r d] eqn:E.
  injection H as -> <-.
  destruct (exec_ok h (labels_list kind parent) (db c) ls)
    as (t0 & t' & Hv0 & Hf & Hv'); [ by rewrite E | ].
  rewrite Hv in Hv0. injection Hv0 as <-.
  unfold labels_list in Hf. injection Hf as <- <-.
  rewrite E in Hv'. by split.
Qed.

Lemma filter_none {A} (p : A -> bool) (l : list A) :
  (forall y, In y l -> p y = false) -> List.filter p l = [].
Proof.
  induction l as [| a l IH]; simpl; intros H; [ done | ].
  rewrite (H a) by auto. apply IH. intros y Hy. apply H. auto.
Qed.

(** Deleting the rows listed for a key leaves no row of that key. *)
Lemma without_listed kind parent ls :
  List.filter (for_key kind parent)
              (without (List.filter (for_key kind parent) ls) ls) = [].
Proof.
  apply filter_none. intros y Hy.
  unfold without in Hy. apply List.filter_In in Hy as [Hin Hout].
  destruct (for_key kind parent y) eqn:Hk; [ | done ].
  assert (Hlisted : In y (List.filter (for_key kind parent) ls))
    by (apply List.filter_In; by split).
  rewrite List.forallb_forall in Hout. specialize (Hout y Hlisted).
  by rewrite bool_decide_eq_true_2 in Hout.
Qed.

Lemma mirror_for_key m kvs :
  List.filter (for_key (Kind m) (Pk m)) (List.map (label_row m) kvs)
  = List.map (label_row m) kvs.
Proof.
  induction kvs as [| kv kvs IH]; simpl; [ done | ].
  unfold for_key at 1. simpl.
  rewrite !bool_decide_eq_true_2 by done. simpl. by rewrite IH.
Qed.

Lemma statement_view h what (f : Tables -> result (unit * Tables)) c x :
  bind (table_call h what f) (fun r => ret (err_of r)) c = Ret None x ->
  exists t, view h (db c) = Some t.
Proof.
  unfold bind, table_call, ret. intros H.
  destruct (exec h f (db c)) as [r d] eqn:E.
  injection H as Hr <-.
  destruct r as [[] | e]; [ | discriminate ].
  destruct (exec_ok h f (db c) tt) as (t & _ & Hv & _); [ by rewrite E | ].
  by exists t.
Qed.

Lemma call_inv range op c r c' :
  mu c = false -> (tx c = None -> dbMutex c = false) ->
  call range op c = Ret r c' ->
  exists x, body_of range op (handle_of c) (entered c) = Ret r x /\
            c' = released c x.
Proof.
  intros Hmu Hdb Hcall.
  destruct (body_cases range op (handle_of c) (entered c))
    as (x & [Sm Sd _ _ _] & Hx).
  assert (Hrun : forall r0 x0,
             body_of range op (handle_of c) (entered c) = Ret r0 x0 ->
             mu x0 = mu x -> dbMutex x0 = dbMutex x ->
             exists x1, body_of range op (handle_of c) (entered c) = Ret r x1 /\
                        c' = released c x1).
  { intros r0 x0 E Hm0 Hd0.
    assert (Hc : call range op c = Ret r0 (released c x0)).
    { rewrite call_is_mutation. apply mutation_run; try done.
      - rewrite Hm0, Sm. apply entered_mu.
      - intros Ht. rewrite Hd0, Sd. by apply entered_dbMutex. }
    rewrite Hc in Hcall. injection Hcall as <- <-. by exists x0. }
  destruct Hx as [(e & E) | (e & E & _)].
  - by apply (Hrun _ _ E).
  - rewrite finish_run in E. apply (Hrun _ _ E).
    + apply finished_mu.
    + apply finished_dbMutex.
Qed.

Lemma finish_inv e c x : finish e c = Ret None x -> db x = db c /\
  exists tail, trace x = trace c ++ tail.
Proof.
  rewrite finish_run. intros [= <-]. split; [ apply finished_db | ].
  apply finished_trace.
Qed.

Lemma Insert_body_ok range m h c x :
  Insert_body range m h c = Ret None x ->
  exists t t',
    view h (db c) = Some t /\ view h (db x) = Some t' /\
    labels t' = labels t ++ List.map (label_row m) (range (Labels m)).
Proof.
  unfold Insert_body. unfold bind at 1. intros H.
  destruct (Table_Insert h m c) as [[e |] c1 | |] eqn:E1; try discriminate.
  destruct (statement_view h _ _ c c1 E1) as (t & Hv).
  destruct (statement_ok h _ _ c c1 t E1 Hv) as (t1 & Hf & Hv1 & _).
  unfold bind at 1 in H.
  destruct (Client_insertLabels range h m c1) as [[e |] c2 | |] eqn:E2;
    try discriminate.
  destruct (insertLabels_range_ok h m _ c1 c2 t1 E2 Hv1) as (Hv2 & _).
  destruct (finish_inv (mkEvent Created m None) c2 x H) as (Hdb & _).
  exists t, (mkTables (models t1)
               (labels t1 ++ List.map (label_row m) (range (Labels m)))).
  split; [ done | ]. split; [ by rewrite Hdb | ].
  simpl. f_equal.
  unfold rows_insert in Hf. destruct (existsb _ _); [ discriminate | ].
  by injection Hf as <-.
Qed.

Lemma Delete_body_ok m h c x :
  Delete_body m h c = Ret None x ->
  exists t t',
    view h (db c) = Some t /\ view h (db x) = Some t' /\
    labels t' = without (labels_of m t) (labels t).
Proof.
  unfold Delete_body. unfold bind at 1. intros H.
  destruct (Table_Delete h m c) as [[e |] c1 | |] eqn:E1; try discriminate.
  destruct (statement_view h _ _ c c1 E1) as (t & Hv).
  destruct (statement_ok h _ _ c c1 t E1 Hv) as (t1 & Hf & Hv1 & _).
  injection Hf as <-.
  unfold bind at 1 in H.
  destruct (Client_deleteLabels h m c1) as [[e |] c2 | |] eqn:E2;
    try discriminate.
  unfold Client_deleteLabels in E2. unfold bind at 1 in E2.
  destruct (Table_ListLabels h (Kind m) (Pk m) c1) as [[ls | e] c1' | |] eqn:E3;
    try discriminate.
  destruct (listLabels_ok h _ _ c1 ls c1' _ E3 Hv1) as (-> & Hv1' & _).
  destruct (deleteLabels_range_ok h _ c1' c2 _ E2 Hv1') as (Hv2 & _).
  destruct (finish_inv (mkEvent Deleted m None) c2 x H) as (Hdb & _).
  eexists t, _. split; [ done | ]. split; [ rewrite Hdb; exact Hv2 | ].
  done.
Qed.

Lemma bind_ret_inv {A B} (m : M A) (k : A -> M B) c b x :
  bind m k c = Ret b x -> exists a c1, m c = Ret a c1 /\ k a c1 = Ret b x.
Proof.
  unfold bind. destruct (m c) as [a c1 | |]; try discriminate.
  intros H. by exists a, c1.
Qed.

Lemma Table_Get_ok h m c current c0 :
  Table_Get h m c = Ret (Ok current) c0 ->
  exists t, view h (db c) = Some t /\ view h (db c0) = Some t /\
            trace c0 = trace c ++ [ETable h (CGet (Kind m) (Pk m)) true].
Proof.
  rewrite Table_Get_run. intros H. injection H as E0 <-.
  destruct (exec_ok h (rows_get m) (db c) current E0)
    as (t & t0 & Hv & Hf & Hv0).
  assert (t0 = t) as ->.
  { unfold rows_get in Hf. destruct (List.find _ _); [ | discriminate ].
    by injection Hf. }
  exists t. rewrite E0. by split.
Qed.

Lemma Update_body_ok range m h c x :
  Update_body range m h c = Ret None x ->
  exists t t' post,
    view h (db c) = Some t /\ view h (db x) = Some t' /\
    labels t'
    = without (labels_of m t) (labels t)
      ++ List.map (label_row m) (range (Labels m)) /\
    trace x
    = trace c
      ++ [ETable h (CGet (Kind m) (Pk m)) true; ETable h (CUpdate m) true;
          ETable h (CListLabels (Kind m) (Pk m)) true]
      ++ List.map (fun l => ETable h (CDeleteLabel l) true) (labels_of m t)
      ++ List.map (fun kv => ETable h (CInsertLabel (label_row m kv)) true)
                  (range (Labels m))
      ++ post.
Proof.
  unfold Update_body, journal_copy. intros H.
  apply bind_ret_inv in H as (m0 & c00 & Ecopy & H).
  injection Ecopy as <- <-.
  apply bind_ret_inv in H as (r0 & c0 & E0 & H).
  destruct r0 as [current | e]; [ | discriminate ].
  destruct (Table_Get_ok h m c current c0 E0) as (t & Hv & Hv0 & Htr0).
  apply bind_ret_inv in H as (r1 & c1 & E1 & H).
  destruct r1 as [e |]; [ discriminate | ].
  destruct (statement_ok h _ _ c0 c1 t E1 Hv0) as (t1 & Hf1 & Hv1 & Htr1).
  injection Hf1 as <-.
  apply bind_ret_inv in H as (r2 & c2 & E2 & H).
  destruct r2 as [e |]; [ discriminate | ].
  unfold Client_replaceLabels in E2.
  apply bind_ret_inv in E2 as (r3 & c3 & E3 & E2).
  destruct r3 as [e |]; [ discriminate | ].
  unfold Client_deleteLabels in E3.
  apply bind_ret_inv in E3 as (r4 & c1' & E4 & E3).
  destruct r4 as [ls | e]; [ | discriminate ].
  destruct (listLabels_ok h _ _ c1 ls c1' _ E4 Hv1) as (-> & Hv1' & Htr1').
  destruct (deleteLabels_range_ok h _ c1' c3 _ E3 Hv1') as (Hv3 & Htr3).
  apply bind_ret_inv in E2 as (r5 & c4 & E5 & E2).
  destruct r5 as [e |]; [ discriminate | ].
  injection E2 as <-.
  destruct (insertLabels_range_ok h m _ c3 c4 _ E5 Hv3) as (Hv4 & Htr4).
  destruct (finish_inv (mkEvent Updated m (Some current)) c4 x H)
    as (Hdb & post & Hpost).
  eexists t, _, post. split; [ done | ].
  split; [ rewrite Hdb; exact Hv4 | ].
  split; [ done | ].
  rewrite Hpost, Htr4, Htr3, Htr1', Htr1, Htr0. unfold labels_of. simpl.
  by flatten_trace.
Qed.

Lemma labels_of_app m ms ls1 ls2 :
  labels_of m (mkTables ms (ls1 ++ ls2))
  = List.filter (for_key (Kind m) (Pk m)) ls1
    ++ List.filter (for_key (Kind m) (Pk m)) ls2.
Proof. unfold labels_of. simpl. apply List.filter_app. Qed.

Lemma mirror_range range m :
  (forall x : gmap string string, range x ≡ₚ map_to_list x) ->
  List.map (label_row m) (range (Labels m)) ≡ₚ mirror m.
Proof. intros H. unfold mirror. apply Permutation_map, H. Qed.

(** C4 (as amended).  After a successful Update the label rows stored for
    the key of the model are exactly those of the model's mapping, and the
    call got there by listing the rows of the key, deleting each of them,
    and inserting one row per entry of the mapping.  After a successful
    Delete no label row of the key remains.  After a successful Insert the
    label rows of the key are those that were there before the call
    followed by those of the mapping: exactly the mapping when there was
    none before. *)
Theorem labels_mirror_model range op c c' :
  (forall x : gmap string string, range x ≡ₚ map_to_list x) ->
  mu c = false -> (tx c = None -> dbMutex c = false) ->
  call range op c = Ret None c' ->
  exists t t',
    view (handle_of c) (db c) = Some t /\
    view (handle_of c) (db c') = Some t' /\
    match op with
    | MInsert m =>
        labels_of m t'
        = labels_of m t ++ List.map (label_row m) (range (Labels m)) /\
        (labels_of m t = [] -> labels_of m t' ≡ₚ mirror m)
    | MUpdate m =>
        labels_of m t' ≡ₚ mirror m /\
        exists post,
          trace c'
          = trace c ++ opening c
            ++ [ETable (handle_of c) (CGet (Kind m) (Pk m)) true;
                ETable (handle_of c) (CUpdate m) true;
                ETable (handle_of c) (CListLabels (Kind m) (Pk m)) true]
            ++ List.map (fun l => ETable (handle_of c) (CDeleteLabel l) true)
                        (labels_of m t)
            ++ List.map (fun kv => ETable (handle_of c)
                                     (CInsertLabel (label_row m kv)) true)
                        (range (Labels m))
            ++ post
    | MDelete m => labels_of m t' = []
    end.
Proof.
  intros Hperm Hmu Hdb Hcall.
  destruct (call_inv range op c None c' Hmu Hdb Hcall) as (x & Hbody & ->).
  rewrite released_db.
  destruct op as [m | m | m]; simpl in Hbody.
  - destruct (Insert_body_ok range m _ _ x Hbody) as (t & t' & Hv & Hv' & Hl).
    rewrite entered_db in Hv.
    exists t, t'. split; [ done | ]. split; [ done | ].
    assert (Heq : labels_of m t'
                  = labels_of m t ++ List.map (label_row m) (range (Labels m))).
    { unfold labels_of at 1. rewrite Hl, List.filter_app.
      by rewrite mirror_for_key. }
    split; [ done | ].
    intros Hnone. rewrite Heq, Hnone. simpl. by apply mirror_range.
  - destruct (Update_body_ok range m _ _ x Hbody)
      as (t & t' & post & Hv & Hv' & Hl & Htr).
    rewrite entered_db in Hv.
    exists t, t'. split; [ done | ]. split; [ done | ].
    split.
    + unfold labels_of at 1. rewrite Hl, List.filter_app.
      unfold labels_of. rewrite without_listed, mirror_for_key. simpl.
      by apply mirror_range.
    + exists (post ++ closing c).
      rewrite released_trace, Htr, entered_trace. by flatten_trace.
  - destruct (Delete_body_ok m _ _ x Hbody) as (t & t' & Hv & Hv' & Hl).
    rewrite entered_db in Hv.
    exists t, t'. split; [ done | ]. split; [ done | ].
    unfold labels_of at 1. rewrite Hl. apply without_listed.
Qed.

(** C4 as stated fails on this run: the Delete of [vm_a] fails while it
    lists the labels (the row is gone, its label stays), and the Insert of
    a model with the same key then succeeds and leaves two label rows for
    the key where the model's mapping has one entry. *)
Lemma insert_keeps_stale_labels :
  Client_Insert in_order vm_a sl0 = Ret None sl1 /\
  Client_Delete vm_a sl1 = Ret (Some (Wrap (Wrap MappingError))) sl2 /\
  models (committed (db sl2)) = [] /\
  Client_Insert in_order vm_a_east sl2 = Ret None sl3 /\
  labels_of vm_a_east (committed (db sl3))
  = [mkLabel "a" "vm" "env" "prod"; mkLabel "a" "vm" "zone" "east"] /\
  mirror vm_a_east = [mkLabel "a" "vm" "zone" "east"].
Proof. conjuncts; by_evaluation. Qed.

(** ** Runs on concrete stores *)

Lemma in_order_perm (x : gmap string string) : in_order x ≡ₚ map_to_list x.
Proof. reflexivity. Qed.

Lemma watch_replays_snapshot_witness :
  (mu ws2 = false /\ next_fault (db ws2) = false) /\
  exists c',
    Client_Watch vm_a ws2
    = Ret (Some (length (watchList (journal ws2))), None) c' /\
    watchList (journal c')
    = watchList (journal ws2)
      ++ [mkWatch (Kind vm_a) true false
            (List.map created (snapshot vm_a ws2))].
Proof.
  assert (H1 : mu ws2 = false) by by_evaluation.
  assert (H2 : next_fault (db ws2) = false) by by_evaluation.
  split; [ split; assumption | ].
  destruct (watch_replays_snapshot vm_a ws2 H1 H2) as (c' & A & B & _).
  exists c'. split; assumption.
Defined.

Example watch_replays_two_rows :
  snapshot vm_a ws2 = [vm_a; vm_b] /\
  received <$> (watchList (journal (state_of (Client_Watch vm_a ws2))) !! 0%nat)
  = Some [created vm_a; created vm_b].
Proof. conjuncts; by_evaluation. Qed.

Lemma end_discards_both_or_neither_witness :
  (mu fc3 = false /\ dbMutex fc3 = true /\ tx fc3 = Some (ref (mkTx 0))) /\
  exists r c',
    Tx_End (mkTx 0) fc3 = Ret r c' /\ tx c' = None /\ dbMutex c' = false.
Proof.
  assert (H1 : mu fc3 = false) by by_evaluation.
  assert (H2 : dbMutex fc3 = true) by by_evaluation.
  assert (H3 : tx fc3 = Some (ref (mkTx 0))) by by_evaluation.
  split; [ conjuncts; assumption | ].
  destruct (end_discards_both_or_neither (mkTx 0) fc3 H1 H2 H3)
    as (r & c' & A & B & C & _).
  exists r, c'. conjuncts; assumption.
Defined.

Lemma labels_mirror_model_witness :
  (mu ws1 = false /\ (tx ws1 = None -> dbMutex ws1 = false) /\
   call in_order (MUpdate vm_a') ws1 = Ret None wu1) /\
  exists t t',
    view (handle_of ws1) (db ws1) = Some t /\
    view (handle_of ws1) (db wu1) = Some t' /\
    labels_of vm_a' t' ≡ₚ mirror vm_a'.
Proof.
  assert (H1 : mu ws1 = false) by by_evaluation.
  assert (H2 : tx ws1 = None -> dbMutex ws1 = false)
    by (intros _; by_evaluation).
  assert (H3 : call in_order (MUpdate vm_a') ws1 = Ret None wu1)
    by by_evaluation.
  split; [ conjuncts; assumption | ].
  destruct (labels_mirror_model in_order (MUpdate vm_a') ws1 wu1
              in_order_perm H1 H2 H3) as (t & t' & A & B & C & _).
  exists t, t'. conjuncts; assumption.
Defined.

Example update_replaces_labels :
  labels (committed (db ws1)) = [mkLabel "a" "vm" "env" "prod"] /\
  labels (committed (db wu1)) = [mkLabel "a" "vm" "env" "stage"].
Proof. conjuncts; by_evaluation. Qed.

Lemma commit_and_end_are_terminal_witness :
  (mu fc3 = false /\ dbMutex fc3 = true /\ tx fc3 = Some (ref (mkTx 0)) /\
   mu fc0 = false /\ tx fc0 <> Some (ref (mkTx 7))) /\
  Tx_Commit (mkTx 7) fc0 = Ret (Some (Wrap TxInvalidError)) (refused fc0) /\
  exists r c1,
    Tx_Commit (mkTx 0) fc3 = Ret r c1 /\
    Tx_Commit (mkTx 0) c1 = Ret (Some (Wrap TxInvalidError)) (refused c1) /\
    Tx_End (mkTx 0) c1 = Ret (Some (Wrap TxInvalidError)) (refused c1).
Proof.
  assert (H1 : mu fc3 = false) by by_evaluation.
  assert (H2 : dbMutex fc3 = true) by by_evaluation.
  assert (H3 : tx fc3 = Some (ref (mkTx 0))) by by_evaluation.
  assert (H4 : mu fc0 = false) by by_evaluation.
  assert (H5 : tx fc0 <> Some (ref (mkTx 7)))
    by (intros H; vm_compute in H; discriminate H).
  split; [ conjuncts; assumption | ].
  destruct (commit_and_end_are_terminal (mkTx 0) fc3 (mkTx 7) fc0
              H1 H2 H3 H4 H5) as (A & _ & B & _).
  split; assumption.
Defined.

Lemma update_fetches_first_witness :
  (mu (opened []) = false /\
   (tx (opened []) = None -> dbMutex (opened []) = false)) /\
  exists r0 x0,
    Table_Get (handle_of (opened [])) vm_a (entered (opened [])) = Ret r0 x0 /\
    (forall t, next_fault (db (opened [])) = false ->
               view (handle_of (opened [])) (db (opened [])) = Some t ->
               List.find (same_row vm_a) (models t) = None ->
               r0 = Err NotFound).
Proof.
  assert (H1 : mu (opened []) = false) by by_evaluation.
  assert (H2 : tx (opened []) = None -> dbMutex (opened []) = false)
    by (intros _; by_evaluation).
  split; [ conjuncts; assumption | ].
  destruct (update_fetches_first in_order vm_a (opened []) H1 H2)
    as (r0 & x0 & A & B & _).
  exists r0, x0. split; assumption.
Defined.

Example update_of_absent_row :
  exists c',
    Client_Update in_order vm_a (opened []) = Ret (Some (Wrap NotFound)) c' /\
    db c' = db (opened []) /\ journal c' = journal (opened []).
Proof. eexists. conjuncts; by_evaluation. Qed.

Lemma get_for_update_ends_its_tx_witness :
  (mu (opened []) = false /\ dbMutex (opened []) = false /\
   fst (sql_begin (db (opened []))) = Ok 0%nat) /\
  exists r0 x0,
    Table_Get ViaDB vm_a (after_begin (opened [])) = Ret r0 x0 /\
    (forall e, r0 = Err e ->
       exists r1 c',
         Tx_End (mkTx 0) x0 = Ret r1 c' /\
         Client_GetForUpdate vm_a (opened []) = Ret (vm_a, None, Some e) c' /\
         tx c' = None /\ dbMutex c' = false /\ mu c' = false /\
         exists ok rest,
           trace c' = trace x0 ++ ELock :: ESqlRollback ok :: rest).
Proof.
  assert (H1 : mu (opened []) = false) by by_evaluation.
  assert (H2 : dbMutex (opened []) = false) by by_evaluation.
  assert (H3 : fst (sql_begin (db (opened []))) = Ok 0%nat) by by_evaluation.
  split; [ conjuncts; assumption | ].
  destruct (get_for_update_ends_its_tx vm_a (opened []) 0%nat H1 H2 H3)
    as (r0 & x0 & A & _ & B & _).
  exists r0, x0. split; assumption.
Defined.

Example get_for_update_of_absent_row :
  exists c',
    Client_GetForUpdate vm_a (opened []) = Ret (vm_a, None, Some NotFound) c' /\
    tx c' = None /\ dbMutex c' = false.
Proof. eexists. conjuncts; by_evaluation. Qed.

Lemma begin_holds_write_lock_until_end_witness :
  (mu fc1 = false /\ dbMutex fc1 = false /\
   fst (sql_begin (db fc1)) = Ok (ref (mkTx 0)) /\
   Forall (fun q => ends (mkTx 0) q = false) others /\
   perform_all in_order others (after_begin fc1) = Ret tt span_end /\
   mu fc0 = false /\ dbMutex fc0 = false) /\
  holds_write_lock (mkTx 0) span_end /\
  Client_Begin span_end = Blocked (emit ELock (set_mu true span_end)).
Proof.
  assert (H1 : mu fc1 = false) by by_evaluation.
  assert (H2 : dbMutex fc1 = false) by by_evaluation.
  assert (H3 : fst (sql_begin (db fc1)) = Ok (ref (mkTx 0))) by by_evaluation.
  assert (H4 : Forall (fun q => ends (mkTx 0) q = false) others).
  { unfold others.
    repeat (apply List.Forall_cons; [ reflexivity | ]). apply List.Forall_nil. }
  assert (H5 : perform_all in_order others (after_begin fc1) = Ret tt span_end)
    by by_evaluation.
  assert (H6 : mu fc0 = false) by by_evaluation.
  assert (H7 : dbMutex fc0 = false) by by_evaluation.
  split; [ conjuncts; assumption | ].
  destruct (begin_holds_write_lock_until_end in_order fc1 (mkTx 0) others
              span_end fc0 H1 H2 H3 H4 H5 H6 H7)
    as (_ & _ & _ & A & _ & B & _).
  split; assumption.
Defined.

Lemma label_failure_stages_nothing_witness :
  (mu lf0 = false /\ (tx lf0 = None -> dbMutex lf0 = false) /\
   reaches_primary (MInsert vm_a) (handle_of lf0) (entered lf0) (entered lf0) /\
   primary (MInsert vm_a) (handle_of lf0) (entered lf0) = Ret None lf1 /\
   label_sync in_order (MInsert vm_a) (handle_of lf0) lf1
   = Ret (Some (Wrap MappingError)) lf2) /\
  exists c',
    call in_order (MInsert vm_a) lf0
    = Ret (Some (Wrap (Wrap MappingError))) c' /\
    journal c' = journal lf0.
Proof.
  assert (H1 : mu lf0 = false) by by_evaluation.
  assert (H2 : tx lf0 = None -> dbMutex lf0 = false)
    by (intros _; by_evaluation).
  assert (H3 : reaches_primary (MInsert vm_a) (handle_of lf0) (entered lf0)
                 (entered lf0)) by reflexivity.
  assert (H4 : primary (MInsert vm_a) (handle_of lf0) (entered lf0)
               = Ret None lf1) by by_evaluation.
  assert (H5 : label_sync in_order (MInsert vm_a) (handle_of lf0) lf1
               = Ret (Some (Wrap MappingError)) lf2) by by_evaluation.
  split; [ conjuncts; assumption | ].
  destruct (label_failure_stages_nothing in_order (MInsert vm_a) lf0
              (entered lf0) lf1 lf2 (Wrap MappingError) H1 H2 H3 H4 H5)
    as (c' & A & B & _).
  exists c'. split; assumption.
Defined.

(** The scenario of the specification: insert a record labelled
    [env = prod], watch its type, update it to [env = stage]; the watch has
    the replayed [Created] and then an [Updated] that carries the prior
    value, and the label table holds [env = stage] only. *)
Example insert_watch_update :
  let c1 := state_of (Client_Insert in_order vm_a (opened [])) in
  let c2 := state_of (Client_Watch vm_a c1) in
  let c3 := state_of (Client_Update in_order vm_a' c2) in
  received <$> (watchList (journal c3) !! 0%nat)
  = Some [created vm_a; mkEvent Updated vm_a' (Some vm_a)] /\
  labels (committed (db c3)) = [mkLabel "a" "vm" "env" "stage"].
Proof. cbv zeta. conjuncts; by_evaluation. Qed.

(** ** The locks, over any sequence of calls *)

Lemma mutation_blocked body c :
  mu c = false -> tx c = None -> dbMutex c = true ->
  mutation body c = Blocked (emit ELock (set_mu true c)).
Proof.
  intros Hmu Ht Hdb.
  unfold mutation, with_deferred, bind, r_Lock, r_tx. rewrite Hmu. simpl.
  rewrite Ht. unfold dbMutex_Lock. simpl. by rewrite Hdb.
Qed.

(** A mutation that returns has given back what it took. *)
Lemma call_frame range op c r c' :
  mu c = false -> (tx c = None -> dbMutex c = false) ->
  call range op c = Ret r c' ->
  mu c' = false /\ tx c' = tx c /\ dbMutex c' = dbMutex c.
Proof.
  intros Hmu Hdb Hcall.
  destruct (call_cases range op c Hmu Hdb)
    as (x & [Sm Sd St Sj _] & Hcases).
  rewrite entered_tx in St.
  assert (Hrel : forall y, tx y = tx c -> dbMutex y = dbMutex (entered c) ->
            mu (released c y) = false /\ tx (released c y) = tx c /\
            dbMutex (released c y) = dbMutex c).
  { intros y Hty Hdy. unfold released, entered in *.
    destruct (tx c) eqn:Ht; simpl in *; [ done | ].
    by rewrite Hdb. }
  destruct Hcases as [(e & E) | (e & E & _)];
    rewrite E in Hcall; injection Hcall as <- <-; apply Hrel.
  - done.
  - done.
  - by rewrite finished_tx.
  - by rewrite finished_dbMutex.
Qed.

(** A read through the connection leaves everything but the backend and
    the trace. *)
Lemma read_frame {A} what (f : Tables -> result (A * Tables)) c :
  exists r c',
    table_call ViaDB what f c = Ret r c' /\
    mu c' = mu c /\ tx c' = tx c /\ dbMutex c' = dbMutex c /\
    journal c' = journal c.
Proof.
  destruct (table_call_step ViaDB what f c) as (r & d & _ & E).
  eexists _, _. split; [ exact E | done ].
Qed.

(** A Watch call always returns, and leaves the locks and the transaction
    as they were. *)
Lemma watch_frame m c :
  mu c = false ->
  exists r c',
    Client_Watch m c = Ret r c' /\
    mu c' = false /\ tx c' = tx c /\ dbMutex c' = dbMutex c.
Proof.
  intros Hmu.
  unfold Client_Watch, with_deferred, bind, r_Lock. rewrite Hmu. simpl.
  unfold Table_List, table_call. simpl.
  destruct (exec ViaDB (rows_list (Kind m)) (db c)) as [[rows | e] d]; simpl.
  - rewrite notify_rows_run.
    unfold watch_Start, via_journal, r_Unlock. simpl.
    eexists _, _. split; [ reflexivity | done ].
  - unfold r_Unlock. simpl. eexists _, _. split; [ reflexivity | done ].
Qed.

Lemma perform_survives range q c :
  well_locked c -> survives well_locked (perform range q c).
Proof.
  intros [Hmu Hinv].
  assert (Hmut : forall op,
             survives well_locked (bind (call range op) (fun _ => ret tt) c)).
  { intros op. unfold bind.
    destruct (tx c) as [a |] eqn:Ht; [ | destruct (dbMutex c) eqn:Hdb ].
    - destruct (call range op c) as [r c' | |] eqn:E.
      + destruct (call_frame range op c r c' Hmu) as (A & B & C);
          [ congruence | done | ].
        simpl. split; [ done | ]. intros _. rewrite C. apply Hinv.
        congruence.
      + done.
      + destruct (call_cases range op c Hmu)
          as (x & _ & [(e & E') | (e & E' & _)]);
          [ congruence | | ]; rewrite E' in E; discriminate.
    - rewrite call_is_mutation, mutation_blocked; done.
    - destruct (call range op c) as [r c' | |] eqn:E.
      + destruct (call_frame range op c r c' Hmu) as (A & B & C); try done.
        simpl. split; [ done | ]. intros Hn. by rewrite B, Ht in Hn.
      + done.
      + destruct (call_cases range op c Hmu)
          as (x & _ & [(e & E') | (e & E' & _)]);
          [ done | | ]; rewrite E' in E; discriminate. }
  destruct q as [| m | m | kind | m | m | m | m | u | u]; simpl.
  - unfold bind. destruct (dbMutex c) eqn:Hdb.
    + by rewrite Begin_blocked.
    + rewrite Begin_run by done. simpl. split; [ done | ].
      intros _. apply after_begin_dbMutex.
  - unfold Client_GetForUpdate, bind. destruct (dbMutex c) eqn:Hdb.
    + by rewrite Begin_blocked.
    + rewrite Begin_run by done. unfold begun.
      destruct (fst (sql_begin (db c))) as [ref0 | e] eqn:Hb; simpl.
      * rewrite Table_Get_run.
        set (x0 := emit _ (set_db _ (after_begin c))).
        assert (Hx : mu x0 = false /\ dbMutex x0 = true /\ tx x0 = Some ref0).
        { unfold x0, after_begin. rewrite Hb. done. }
        destruct Hx as (Hm0 & Hd0 & Ht0).
        destruct (fst (exec ViaDB (rows_get m) (db (after_begin c)))); simpl.
        -- split; [ done | ]. by intros _.
        -- unfold Tx_End.
           rewrite (end_run (mkTx ref0) x0 Hm0 Hd0 Ht0). simpl.
           split; [ done | ]. by intros Hn.
      * split; [ done | ]. intros _. apply after_begin_dbMutex.
  - unfold bind, Client_Get, Table_Get.
    destruct (read_frame (CGet (Kind m) (Pk m)) (rows_get m) c)
      as (r & c' & E & A & B & C & _).
    rewrite E. simpl. split; [ congruence | ].
    rewrite B, C. apply Hinv.
  - unfold bind, Table_List.
    destruct (read_frame (CList kind) (rows_list kind) c)
      as (r & c' & E & A & B & C & _).
    rewrite E. simpl. split; [ congruence | ].
    rewrite B, C. apply Hinv.
  - apply (Hmut (MInsert m)).
  - apply (Hmut (MUpdate m)).
  - apply (Hmut (MDelete m)).
  - unfold bind. destruct (watch_frame m c Hmu) as (r & c' & E & A & B & C).
    rewrite E. simpl. split; [ done | ]. rewrite B, C. apply Hinv.
  - unfold bind, Tx_Commit.
    destruct (decide (tx c = Some (ref u))) as [Ht | Hne].
    + assert (Hd : dbMutex c = true) by (apply Hinv; congruence).
      rewrite (commit_run u c Hmu Hd Ht). simpl.
      split; [ done | ]. by intros Hn.
    + rewrite commit_refused by done. simpl. split; [ done | apply Hinv ].
  - unfold bind, Tx_End.
    destruct (decide (tx c = Some (ref u))) as [Ht | Hne].
    + assert (Hd : dbMutex c = true) by (apply Hinv; congruence).
      rewrite (end_run u c Hmu Hd Ht). simpl.
      split; [ done | ]. by intros Hn.
    + rewrite end_refused by done. simpl. split; [ done | apply Hinv ].
Qed.

(** X1.  From a state in which the state lock is free and an active
    transaction holds the write lock, no sequence of calls ever unlocks a
    mutex that is not locked or dereferences a nil Tx; if the sequence
    returns, every call has released the state lock and an active
    transaction still holds the write lock. *)
Theorem locks_stay_balanced range qs c :
  well_locked c -> survives well_locked (perform_all range qs c).
Proof.
  revert c. induction qs as [| q rest IH]; intros c Hc; simpl.
  - exact Hc.
  - unfold bind. pose proof (perform_survives range q c Hc) as Hq.
    destruct (perform range q c) as [[] c' | |]; simpl in *;
      [ by apply IH | done | done ].
Qed.

Lemma locks_stay_balanced_witness :
  well_locked (opened []) /\
  survives well_locked (perform_all in_order busy (opened [])).
Proof.
  assert (H : well_locked (opened [])).
  { split; [ by_evaluation | ].
    intros Hn. exfalso. apply Hn. by_evaluation. }
  split; [ exact H | exact (locks_stay_balanced in_order busy (opened []) H) ].
Defined.

Example busy_client_returns :
  exists c', perform_all in_order busy (opened []) = Ret tt c' /\
             models (committed (db c')) = [vm_a; vm_b].
Proof. eexists. conjuncts; by_evaluation. Qed.

(** ** The staged entries after a failed Commit *)

Lemma journal_log_app s seg1 s1 seg2 s2 :
  journal_log s seg1 s1 -> journal_log s1 seg2 s2 ->
  journal_log s (seg1 ++ seg2) s2.
Proof.
  revert s. induction seg1 as [| x seg1 IH]; intros s H1 H2; simpl in *.
  - by subst s1.
  - destruct x; try (by apply IH).
    + destruct H1 as [-> H1]. split; [ done | by apply IH ].
    + destruct H1 as [-> H1]. split; [ done | by apply IH ].
Qed.

Lemma journal_log_via h seg s : Forall (via h) seg -> journal_log s seg s.
Proof.
  induction 1 as [| x seg Hx _ IH]; [ done | ].
  destruct x; try done; exact IH.
Qed.

(** Up to the first flush or unstage the entries pile up. *)
Lemma journal_log_piles s seg s' :
  journal_log s seg s' ->
  Forall (fun x => empties_journal x = false) seg ->
  s' = s ++ staged_in seg.
Proof.
  revert s. induction seg as [| x seg IH]; intros s Hlog Hq; simpl in *.
  - by rewrite app_nil_r.
  - apply Forall_cons in Hq as [Hx Hq].
    destruct x; try discriminate Hx; try (by apply IH).
    rewrite (IH _ Hlog Hq). unfold staged_in. simpl.
    by rewrite <- app_assoc.
Qed.

Lemma journal_log_first_flush s pre es post s' :
  journal_log s (pre ++ EJournalCommit es :: post) s' ->
  Forall (fun x => empties_journal x = false) pre ->
  es = s ++ staged_in pre.
Proof.
  revert s. induction pre as [| x pre IH]; intros s Hlog Hq; simpl in *.
  - destruct Hlog as [-> _]. by rewrite app_nil_r.
  - apply Forall_cons in Hq as [Hx Hq].
    destruct x; try discriminate Hx; try (by apply IH).
    rewrite (IH _ Hlog Hq). unfold staged_in. simpl.
    by rewrite <- app_assoc.
Qed.

Lemma journal_log_first_unstage s pre es post s' :
  journal_log s (pre ++ EJournalUnstage es :: post) s' ->
  Forall (fun x => empties_journal x = false) pre ->
  es = s ++ staged_in pre.
Proof.
  revert s. induction pre as [| x pre IH]; intros s Hlog Hq; simpl in *.
  - destruct Hlog as [-> _]. by rewrite app_nil_r.
  - apply Forall_cons in Hq as [Hx Hq].
    destruct x; try discriminate Hx; try (by apply IH).
    rewrite (IH _ Hlog Hq). unfold staged_in. simpl.
    by rewrite <- app_assoc.
Qed.

Lemma call_journal_log range op c r c' :
  mu c = false -> (tx c = None -> dbMutex c = false) ->
  call range op c = Ret r c' ->
  exists seg,
    trace c' = trace c ++ seg /\
    journal_log (staged (journal c)) seg (staged (journal c')).
Proof.
  intros Hmu Hdb Hcall.
  destruct (call_cases range op c Hmu Hdb)
    as (x & [Sm Sd St Sj (seg & Str & Svia)] & Hcases).
  rewrite entered_tx in St. rewrite entered_journal in Sj.
  apply (journal_log_via _ _ (staged (journal c))) in Svia.
  destruct Hcases as [(e & E) | (e & E & _)];
    rewrite E in Hcall; injection Hcall as <- <-.
  - exists (opening c ++ seg ++ closing c).
    rewrite released_trace, released_journal, Str, entered_trace, Sj.
    split; [ by rewrite <- !app_assoc | ].
    apply (journal_log_app _ _ (staged (journal c))).
    { unfold opening. by destruct (tx c). }
    apply (journal_log_app _ _ (staged (journal c))); [ done | ].
    unfold closing. by destruct (tx c).
  - rewrite released_trace, released_journal.
    unfold finished. rewrite St.
    unfold closing.
    destruct (tx c) as [a |] eqn:Ht; simpl;
      rewrite Str, Sj, entered_trace; unfold opening; rewrite Ht.
    + exists ([ELock] ++ seg ++ [EStage e; EUnlock]).
      split; [ by flatten_trace | ].
      simpl. apply (journal_log_app _ _ (staged (journal c))); [ done | ].
      done.
    + exists ([ELock; EDbLock] ++ seg
              ++ [EStage e; EJournalCommit (staged (journal c) ++ [e]);
                  EDbUnlock; EUnlock]).
      split; [ by flatten_trace | ].
      simpl. apply (journal_log_app _ _ (staged (journal c))); [ done | ].
      done.
Qed.

Lemma refused_journal_log c :
  exists seg,
    trace (refused c) = trace c ++ seg /\
    journal_log (staged (journal c)) seg (staged (journal (refused c))).
Proof. exists [ELock; EUnlock]. split; [ by flatten_trace | done ]. Qed.

Lemma after_begin_journal_log c :
  exists seg,
    trace (after_begin c) = trace c ++ seg /\
    journal_log (staged (journal c)) seg (staged (journal (after_begin c))).
Proof.
  eexists. split; [ apply after_begin_trace | ].
  unfold after_begin. by destruct (fst (sql_begin (db c))).
Qed.

Lemma after_commit_journal_log t c :
  exists seg,
    trace (after_commit t c) = trace c ++ seg /\
    journal_log (staged (journal c)) seg (staged (journal (after_commit t c))).
Proof.
  unfold after_commit, closed_tx.
  destruct (fst (sql_commit (ref t) (db c))) as [[] | e].
  - exists [ELock; ESqlCommit true; EJournalCommit (staged (journal c));
            EDbUnlock; EUnlock].
    split; [ by flatten_trace | done ].
  - exists [ELock; ESqlCommit false; EDbUnlock; EUnlock].
    split; [ by flatten_trace | done ].
Qed.

Lemma after_end_journal_log t c :
  exists seg,
    trace (after_end t c) = trace c ++ seg /\
    journal_log (staged (journal c)) seg (staged (journal (after_end t c))).
Proof.
  unfold after_end, closed_tx.
  destruct (fst (sql_rollback (ref t) (db c))) as [[] | e].
  - exists [ELock; ESqlRollback true; EJournalUnstage (staged (journal c));
            EDbUnlock; EUnlock].
    split; [ by flatten_trace | done ].
  - exists [ELock; ESqlRollback false; EDbUnlock; EUnlock].
    split; [ by flatten_trace | done ].
Qed.

Lemma read_journal_log {A} what (f : Tables -> result (A * Tables)) c r c' :
  table_call ViaDB what f c = Ret r c' ->
  exists seg,
    trace c' = trace c ++ seg /\
    journal_log (staged (journal c)) seg (staged (journal c')).
Proof.
  destruct (table_call_step ViaDB what f c) as (r0 & d & _ & E).
  rewrite E. intros [= <- <-].
  exists [ETable ViaDB what (is_ok r0)]. split; done.
Qed.

Lemma journal_log_notify s w rows :
  journal_log s (List.map (fun x => ENotify w (created x)) rows) s.
Proof. induction rows as [| m rest IH]; simpl; done. Qed.

Lemma watch_journal_log m c r c' :
  mu c = false -> Client_Watch m c = Ret r c' ->
  exists seg,
    trace c' = trace c ++ seg /\
    journal_log (staged (journal c)) seg (staged (journal c')).
Proof.
  intros Hmu.
  unfold Client_Watch, with_deferred, bind, r_Lock. rewrite Hmu. simpl.
  unfold Table_List, table_call. simpl.
  destruct (exec ViaDB (rows_list (Kind m)) (db c)) as [[rows | e] d]; simpl.
  - rewrite notify_rows_run.
    unfold watch_Start, via_journal, r_Unlock. simpl.
    intros [= <- <-].
    rewrite notify_fresh_watch, start_fresh_watch. simpl.
    exists ([ELock; EJournalWatch (length (watchList (journal c)));
             ETable ViaDB (CList (Kind m)) true]
            ++ List.map
                 (fun x => ENotify (length (watchList (journal c))) (created x))
                 rows
            ++ [EStart (length (watchList (journal c))); EUnlock]).
    split; [ by flatten_trace | ]. simpl.
    apply (journal_log_app _ _ (staged (journal c)));
      [ apply journal_log_notify | done ].
  - unfold r_Unlock. simpl. intros [= <- <-].
    exists [ELock; EJournalWatch (length (watchList (journal c)));
            ETable ViaDB (CList (Kind m)) false; EUnlock].
    split; [ by flatten_trace | done ].
Qed.

Lemma journal_log_chain c c1 c2 :
  (exists seg, trace c1 = trace c ++ seg /\
     journal_log (staged (journal c)) seg (staged (journal c1))) ->
  (exists seg, trace c2 = trace c1 ++ seg /\
     journal_log (staged (journal c1)) seg (staged (journal c2))) ->
  exists seg, trace c2 = trace c ++ seg /\
    journal_log (staged (journal c)) seg (staged (journal c2)).
Proof.
  intros (s1 & E1 & L1) (s2 & E2 & L2).
  exists (s1 ++ s2). split; [ rewrite E2, E1; by rewrite <- app_assoc | ].
  by apply (journal_log_app _ _ (staged (journal c1))).
Qed.

(** Every call leaves a trace that accounts for the staged entries. *)
Lemma perform_journal_log range q c c' :
  well_locked c -> perform range q c = Ret tt c' ->
  exists seg,
    trace c' = trace c ++ seg /\
    journal_log (staged (journal c)) seg (staged (journal c')).
Proof.
  intros [Hmu Hinv] Hrun.
  assert (Hmut : forall op r,
            call range op c = Ret r c' ->
            exists seg,
              trace c' = trace c ++ seg /\
              journal_log (staged (journal c)) seg (staged (journal c'))).
  { intros op r E.
    destruct (tx c) as [a |] eqn:Ht; [ | destruct (dbMutex c) eqn:Hdb ].
    - apply (call_journal_log range op c r); [ done | | done ].
      by rewrite Ht.
    - rewrite call_is_mutation, mutation_blocked in E; done.
    - by apply (call_journal_log range op c r). }
  destruct q as [| m | m | kind | m | m | m | m | u | u]; simpl in Hrun;
    apply bind_ret_inv in Hrun as (a & c1 & E & Hret);
    injection Hret as <-.
  - destruct (dbMutex c) eqn:Hdb.
    + rewrite Begin_blocked in E; done.
    + rewrite Begin_run in E by done. injection E as _ <-.
      apply after_begin_journal_log.
  - unfold Client_GetForUpdate, bind in E. destruct (dbMutex c) eqn:Hdb.
    + rewrite Begin_blocked in E; done.
    + rewrite Begin_run in E by done. unfold begun in E.
      destruct (fst (sql_begin (db c))) as [ref0 | e] eqn:Hb; simpl in E.
      * rewrite Table_Get_run in E.
        set (x0 := emit _ (set_db _ (after_begin c))) in E.
        assert (Hx : mu x0 = false /\ dbMutex x0 = true /\ tx x0 = Some ref0).
        { unfold x0, after_begin. rewrite Hb. done. }
        destruct Hx as (Hm0 & Hd0 & Ht0).
        assert (Hx0 : exists seg,
                   trace x0 = trace c ++ seg /\
                   journal_log (staged (journal c)) seg (staged (journal x0))).
        { apply (journal_log_chain c (after_begin c));
            [ apply after_begin_journal_log | ].
          eexists [_]. split; [ reflexivity | done ]. }
        destruct (fst (exec ViaDB (rows_get m) (db (after_begin c))));
          simpl in E.
        -- injection E as _ <-. exact Hx0.
        -- unfold Tx_End in E.
           rewrite (end_run (mkTx ref0) x0 Hm0 Hd0 Ht0) in E. simpl in E.
           injection E as _ <-.
           apply (journal_log_chain c x0); [ exact Hx0 | ].
           apply after_end_journal_log.
      * injection E as _ <-. apply after_begin_journal_log.
  - unfold Client_Get, Table_Get in E. by apply read_journal_log in E.
  - unfold Table_List in E. by apply read_journal_log in E.
  - by apply (Hmut (MInsert m) a).
  - by apply (Hmut (MUpdate m) a).
  - by apply (Hmut (MDelete m) a).
  - by apply (watch_journal_log m c a).
  - unfold Tx_Commit in E.
    destruct (decide (tx c = Some (ref u))) as [Ht | Hne].
    + assert (Hd : dbMutex c = true) by (apply Hinv; congruence).
      rewrite (commit_run u c Hmu Hd Ht) in E. injection E as _ <-.
      apply after_commit_journal_log.
    + rewrite commit_refused in E by done. injection E as _ <-.
      apply refused_journal_log.
  - unfold Tx_End in E.
    destruct (decide (tx c = Some (ref u))) as [Ht | Hne].
    + assert (Hd : dbMutex c = true) by (apply Hinv; congruence).
      rewrite (end_run u c Hmu Hd Ht) in E. injection E as _ <-.
      apply after_end_journal_log.
    + rewrite end_refused in E by done. injection E as _ <-.
      apply refused_journal_log.
Qed.

Lemma perform_all_journal_log range qs c c' :
  well_locked c -> perform_all range qs c = Ret tt c' ->
  exists seg,
    trace c' = trace c ++ seg /\
    journal_log (staged (journal c)) seg (staged (journal c')).
Proof.
  revert c. induction qs as [| q rest IH]; intros c Hc Hrun.
  - injection Hrun as <-. exists []. split; [ by rewrite app_nil_r | done ].
  - simpl in Hrun. apply bind_ret_inv in Hrun as ([] & c1 & E & Hrest).
    assert (Hc1 : well_locked c1).
    { pose proof (perform_survives range q c Hc) as Hs.
      by rewrite E in Hs. }
    apply (journal_log_chain c c1).
    + by apply (perform_journal_log range q).
    + by apply IH.
Qed.

(** C10 (as amended).  When the backend commit fails inside [Tx.Commit],
    the call returns the error wrapped after it has released the write lock
    and cleared the active transaction, and the journal is exactly as it
    was: nothing dispatched, nothing unstaged.  A [Journal.Commit] run on
    that state flushes the entries, and a successful mutation made next
    hands them to the watches together with its own.  Over any sequence of
    later calls the entries stay staged until the first flush or unstage of
    the journal, whichever comes first: a [Journal.Commit] flushes them,
    with the entries staged since; a [Journal.Unstage] (that of a later
    [End] whose rollback succeeds) discards them. *)
Theorem failed_commit_leaves_journal_staged range t c e op r c'' qs c2 :
  mu c = false -> dbMutex c = true -> tx c = Some (ref t) ->
  fst (sql_commit (ref t) (db c)) = Err e ->
  call range op (after_commit t c) = Ret r c'' ->
  perform_all range qs (after_commit t c) = Ret tt c2 ->
  Tx_Commit t c = Ret (Some (Wrap e)) (after_commit t c) /\
  tx (after_commit t c) = None /\
  dbMutex (after_commit t c) = false /\
  mu (after_commit t c) = false /\
  journal (after_commit t c) = journal c /\
  committed (db (after_commit t c)) = committed (db c) /\
  trace (after_commit t c)
  = trace c ++ [ELock; ESqlCommit false; EDbUnlock; EUnlock] /\
  journal_Commit (after_commit t c)
  = Ret tt (emit (EJournalCommit (staged (journal c)))
              (set_journal (journal_commit (journal c)) (after_commit t c))) /\
  watchList (journal_commit (journal c))
  = List.map (receive_all (staged (journal c))) (watchList (journal c)) /\
  (r = None ->
   exists e',
     EModel e' = subject op /\
     watchList (journal c'')
     = List.map (receive_all (staged (journal c) ++ [e'])) (watchList (journal c))) /\
  exists seg,
    trace c2 = trace (after_commit t c) ++ seg /\
    (Forall (fun x => empties_journal x = false) seg ->
     staged (journal c2) = staged (journal c) ++ staged_in seg) /\
    (forall pre flushed post,
       seg = pre ++ EJournalCommit flushed :: post ->
       Forall (fun x => empties_journal x = false) pre ->
       flushed = staged (journal c) ++ staged_in pre) /\
    (forall pre dropped post,
       seg = pre ++ EJournalUnstage dropped :: post ->
       Forall (fun x => empties_journal x = false) pre ->
       dropped = staged (journal c) ++ staged_in pre).
Proof.
  intros Hmu Hdb Ht Hfail Hcall Hrun.
  assert (Hj : journal (after_commit t c) = journal c).
  { unfold after_commit. by rewrite Hfail. }
  split.
  { unfold Tx_Commit. rewrite (commit_run t c Hmu Hdb Ht). by rewrite Hfail. }
  split; [ done | ]. split; [ done | ]. split; [ done | ].
  split; [ done | ].
  split.
  { unfold after_commit. rewrite Hfail. simpl.
    by rewrite (sql_commit_failure _ _ _ Hfail). }
  split.
  { unfold after_commit. rewrite Hfail. by flatten_trace. }
  split.
  { unfold journal_Commit. by rewrite Hj. }
  split; [ apply journal_commit_watchList | ].
  split.
  { intros ->.
    destruct (call_cases range op (after_commit t c))
      as (x & [_ _ St Sj _] & [(e' & E) | (e' & E & Hm & _)]);
      try done; rewrite E in Hcall; [ discriminate | ].
    injection Hcall as <-. exists e'. split; [ done | ].
    rewrite entered_tx in St. rewrite entered_journal, Hj in Sj.
    rewrite released_journal. unfold finished. rewrite St. simpl.
    rewrite Sj. apply fold_dispatch. }
  destruct (perform_all_journal_log range qs (after_commit t c) c2)
    as (seg & Etr & Hlog); [ done | done | ].
  rewrite Hj in Hlog.
  exists seg. split; [ done | ]. split; [ | split ].
  - by apply journal_log_piles.
  - intros pre flushed post -> Hq.
    by apply (journal_log_first_flush _ _ _ post (staged (journal c2))).
  - intros pre dropped post -> Hq.
    by apply (journal_log_first_unstage _ _ _ post (staged (journal c2))).
Qed.

Lemma failed_commit_leaves_journal_staged_witness :
  (mu fc3 = false /\ dbMutex fc3 = true /\ tx fc3 = Some (ref (mkTx 0)) /\
   fst (sql_commit (ref (mkTx 0)) (db fc3)) = Err MappingError /\
   call in_order (MInsert vm_b) (after_commit (mkTx 0) fc3) = Ret None fc5 /\
   perform_all in_order unstaged_run (after_commit (mkTx 0) fc3)
   = Ret tt fu7) /\
  Tx_Commit (mkTx 0) fc3
  = Ret (Some (Wrap MappingError)) (after_commit (mkTx 0) fc3) /\
  journal (after_commit (mkTx 0) fc3) = journal fc3.
Proof.
  assert (H1 : mu fc3 = false) by by_evaluation.
  assert (H2 : dbMutex fc3 = true) by by_evaluation.
  assert (H3 : tx fc3 = Some (ref (mkTx 0))) by by_evaluation.
  assert (H4 : fst (sql_commit (ref (mkTx 0)) (db fc3)) = Err MappingError)
    by by_evaluation.
  assert (H5 : call in_order (MInsert vm_b) (after_commit (mkTx 0) fc3)
               = Ret None fc5) by by_evaluation.
  assert (H6 : perform_all in_order unstaged_run (after_commit (mkTx 0) fc3)
               = Ret tt fu7) by by_evaluation.
  split; [ conjuncts; assumption | ].
  destruct (failed_commit_leaves_journal_staged in_order (mkTx 0) fc3
              MappingError (MInsert vm_b) None fc5 unstaged_run fu7
              H1 H2 H3 H4 H5 H6)
    as (A & _ & _ & _ & B & _).
  split; assumption.
Defined.

(** C10 as stated fails on this run: the backend commit of transaction 0
    fails and leaves the entry of [vm_a] staged; a second transaction is
    begun and ended, and its [End], whose rollback succeeds, unstages that
    entry; the next [Journal.Commit] that runs, in the Insert of [vm_b],
    flushes the entry of [vm_b] alone.  The entry of [vm_a] has reached no
    watch and is staged no more. *)
Lemma later_end_unstages_leftover_entry :
  Tx_Commit (mkTx 0) fc3 = Ret (Some (Wrap MappingError)) fc4 /\
  staged (journal fc4) = [created vm_a] /\
  Client_Begin fc4 = Ret (Some (mkTx 1), None) fu5 /\
  Tx_End (mkTx 1) fu5 = Ret None fu6 /\
  staged (journal fu6) = [] /\
  Client_Insert in_order vm_b fu6 = Ret None fu7 /\
  List.filter empties_journal (trace fu7)
  = [EJournalUnstage [created vm_a]; EJournalCommit [created vm_b]] /\
  received <$> (watchList (journal fu7) !! 0%nat) = Some [created vm_b] /\
  staged (journal fu7) = [].
Proof. conjuncts; by_evaluation. Qed.

(** ** A write lock that is lost *)

Lemma perform_lock_lost range q c c' :
  lock_lost c -> perform range q c = Ret tt c' ->
  needs_write_lock q = false /\ lock_lost c'.
Proof.
  intros (Hmu & Hdb & Ht) Hrun.
  destruct q as [| m | m | kind | m | m | m | m | u | u];
    simpl in Hrun; unfold bind in Hrun.
  - by rewrite (Begin_blocked c Hmu Hdb) in Hrun.
  - unfold Client_GetForUpdate, bind in Hrun.
    by rewrite (Begin_blocked c Hmu Hdb) in Hrun.
  - unfold Client_Get, Table_Get in Hrun.
    destruct (read_frame (CGet (Kind m) (Pk m)) (rows_get m) c)
      as (r & x & E & A & B & C & _).
    rewrite E in Hrun. injection Hrun as <-.
    split; [ done | ]. unfold lock_lost. by rewrite A, B, C.
  - unfold Table_List in Hrun.
    destruct (read_frame (CList kind) (rows_list kind) c)
      as (r & x & E & A & B & C & _).
    rewrite E in Hrun. injection Hrun as <-.
    split; [ done | ]. unfold lock_lost. by rewrite A, B, C.
  - unfold Client_Insert in Hrun.
    by rewrite (mutation_blocked _ c Hmu Ht Hdb) in Hrun.
  - unfold Client_Update in Hrun.
    by rewrite (mutation_blocked _ c Hmu Ht Hdb) in Hrun.
  - unfold Client_Delete in Hrun.
    by rewrite (mutation_blocked _ c Hmu Ht Hdb) in Hrun.
  - destruct (watch_frame m c Hmu) as (r & x & E & A & B & C).
    rewrite E in Hrun. injection Hrun as <-.
    split; [ done | ]. unfold lock_lost. by rewrite A, B, C.
  - unfold Tx_Commit in Hrun. rewrite commit_refused in Hrun;
      [ | done | by rewrite Ht ].
    injection Hrun as <-. by split.
  - unfold Tx_End in Hrun. rewrite end_refused in Hrun;
      [ | done | by rewrite Ht ].
    injection Hrun as <-. by split.
Qed.

(** X2.  When [db.Begin] fails, [Begin] returns the error with the write
    lock still locked and no active transaction.  Nothing unlocks it
    afterwards: in any sequence of calls that returns, no call was a Begin,
    a GetForUpdate, an Insert, an Update or a Delete, and the lock is still
    lost at the end, where a Begin and every mutation wait for it forever,
    holding the state lock. *)
Theorem failed_begin_loses_write_lock range c e qs c2 :
  mu c = false -> dbMutex c = false -> tx c = None ->
  fst (sql_begin (db c)) = Err e ->
  perform_all range qs (after_begin c) = Ret tt c2 ->
  Client_Begin c = Ret (None, Some e) (after_begin c) /\
  trace (after_begin c)
  = trace c ++ [ELock; EDbLock; ESqlBegin false; EUnlock] /\
  lock_lost (after_begin c) /\
  Forall (fun q => needs_write_lock q = false) qs /\
  lock_lost c2 /\
  Client_Begin c2 = Blocked (emit ELock (set_mu true c2)) /\
  (forall op, call range op c2 = Blocked (emit ELock (set_mu true c2))).
Proof.
  intros Hmu Hdb Htx Hfail Hrun.
  assert (Hlost : lock_lost (after_begin c)).
  { unfold lock_lost, after_begin. rewrite Hfail. simpl.
    conjuncts; first [ reflexivity | exact Htx ]. }
  assert (Hall : forall qs c1 c3,
             lock_lost c1 -> perform_all range qs c1 = Ret tt c3 ->
             Forall (fun q => needs_write_lock q = false) qs /\ lock_lost c3).
  { clear. induction qs as [| q rest IH]; intros c1 c3 H1 Hrun.
    - injection Hrun as <-. split; [ constructor | done ].
    - simpl in Hrun. unfold bind in Hrun.
      destruct (perform range q c1) as [[] x | |] eqn:E; try done.
      destruct (perform_lock_lost range q c1 x H1 E) as (Hq & Hx).
      destruct (IH x c3 Hx Hrun) as (Hrest & H3).
      split; [ by constructor | done ]. }
  destruct (Hall qs _ c2 Hlost Hrun) as (Hqs & Hlost2).
  pose proof Hlost2 as (Hm2 & Hd2 & Ht2).
  split.
  { rewrite (Begin_run c Hmu Hdb). unfold begun. by rewrite Hfail. }
  split; [ rewrite after_begin_trace; by rewrite Hfail | ].
  split; [ done | ]. split; [ done | ]. split; [ done | ].
  split; [ by apply Begin_blocked | ].
  intros op. rewrite call_is_mutation. by apply mutation_blocked.
Qed.

Lemma failed_begin_loses_write_lock_witness :
  (mu lost0 = false /\ dbMutex lost0 = false /\ tx lost0 = None /\
   fst (sql_begin (db lost0)) = Err MappingError /\
   perform_all in_order after_lost (after_begin lost0) = Ret tt lost1) /\
  lock_lost lost1 /\
  Client_Begin lost1 = Blocked (emit ELock (set_mu true lost1)).
Proof.
  assert (H1 : mu lost0 = false) by by_evaluation.
  assert (H2 : dbMutex lost0 = false) by by_evaluation.
  assert (H2' : tx lost0 = None) by by_evaluation.
  assert (H3 : fst (sql_begin (db lost0)) = Err MappingError)
    by by_evaluation.
  assert (H4 : perform_all in_order after_lost (after_begin lost0)
               = Ret tt lost1) by by_evaluation.
  split; [ conjuncts; assumption | ].
  destruct (failed_begin_loses_write_lock in_order lost0 MappingError
              after_lost lost1 H1 H2 H2' H3 H4)
    as (_ & _ & _ & _ & A & B & _).
  split; assumption.
Defined.

(** ** The tables after a successful mutation *)

Lemma statement_ok_ex h what (f : Tables -> result (unit * Tables)) c x :
  bind (table_call h what f) (fun r => ret (err_of r)) c = Ret None x ->
  exists t t', view h (db c) = Some t /\ f t = Ok (tt, t') /\
               view h (db x) = Some t'.
Proof.
  intros H. destruct (statement_view h what f c x H) as (t & Hv).
  destruct (statement_ok h what f c x t H Hv) as (t' & Hf & Hv' & _).
  by exists t, t'.
Qed.

Lemma deleteLabels_ok h m c x t :
  Client_deleteLabels h m c = Ret None x -> view h (db c) = Some t ->
  view h (db x) = Some (mkTables (models t) (without (labels_of m t) (labels t))).
Proof.
  unfold Client_deleteLabels. intros H Hv.
  apply bind_ret_inv in H as (r & c1 & E1 & H).
  destruct r as [ls | e]; [ | discriminate ].
  destruct (listLabels_ok h _ _ c ls c1 t E1 Hv) as (-> & Hv1 & _).
  by destruct (deleteLabels_range_ok h _ c1 x t H Hv1) as (Hv2 & _).
Qed.

Lemma insertLabels_ok range h m c x t :
  Client_insertLabels range h m c = Ret None x -> view h (db c) = Some t ->
  view h (db x)
  = Some (mkTables (models t)
            (labels t ++ List.map (label_row m) (range (Labels m)))).
Proof.
  unfold Client_insertLabels. intros H Hv.
  by destruct (insertLabels_range_ok h m _ c x t H Hv) as (Hv2 & _).
Qed.

(** A mutation whose body returns nil found tables that admit it and left
    the tables [applied] describes. *)
Lemma body_tables range op h c x :
  body_of range op h c = Ret None x ->
  exists t, view h (db c) = Some t /\ admits op t /\
            view h (db x) = Some (applied range op t).
Proof.
  destruct op as [m | m | m]; simpl; intros H.
  - unfold Insert_body in H.
    apply bind_ret_inv in H as (r1 & c1 & E1 & H).
    destruct r1 as [e |]; [ discriminate | ].
    destruct (statement_ok_ex h _ _ c c1 E1) as (t & t1 & Hv & Hf & Hv1).
    apply bind_ret_inv in H as (r2 & c2 & E2 & H).
    destruct r2 as [e |]; [ discriminate | ].
    pose proof (insertLabels_ok range h m c1 c2 t1 E2 Hv1) as Hv2.
    destruct (finish_inv (mkEvent Created m None) c2 x H) as (Hdb & _).
    unfold rows_insert in Hf.
    destruct (existsb (same_row m) (models t)) eqn:Hfree; [ discriminate | ].
    injection Hf as <-. simpl in Hv2.
    exists t. split; [ done | ]. split; [ done | ]. by rewrite Hdb.
  - unfold Update_body, journal_copy in H.
    apply bind_ret_inv in H as (m0 & c00 & Ecopy & H).
    injection Ecopy as <- <-.
    apply bind_ret_inv in H as (r0 & c0 & E0 & H).
    destruct r0 as [current | e]; [ | discriminate ].
    destruct (Table_Get_ok h m c current c0 E0) as (t & Hv & Hv0 & _).
    assert (Hcur : List.find (same_row m) (models t) = Some current).
    { rewrite Table_Get_run in E0. injection E0 as E0 _.
      by apply (exec_get_ok h m (db c) current E0). }
    apply bind_ret_inv in H as (r1 & c1 & E1 & H).
    destruct r1 as [e |]; [ discriminate | ].
    destruct (statement_ok h _ _ c0 c1 t E1 Hv0) as (t1 & Hf1 & Hv1 & _).
    injection Hf1 as <-.
    apply bind_ret_inv in H as (r2 & c2 & E2 & H).
    destruct r2 as [e |]; [ discriminate | ].
    unfold Client_replaceLabels in E2.
    apply bind_ret_inv in E2 as (r3 & c3 & E3 & E2).
    destruct r3 as [e |]; [ discriminate | ].
    pose proof (deleteLabels_ok h m c1 c3 _ E3 Hv1) as Hv3.
    apply bind_ret_inv in E2 as (r5 & c4 & E5 & E2).
    destruct r5 as [e |]; [ discriminate | ].
    injection E2 as <-.
    pose proof (insertLabels_ok range h m c3 c4 _ E5 Hv3) as Hv4.
    destruct (finish_inv (mkEvent Updated m (Some current)) c4 x H)
      as (Hdb & _).
    exists t. split; [ done | ]. split; [ by exists current | ].
    rewrite Hdb. exact Hv4.
  - unfold Delete_body in H.
    apply bind_ret_inv in H as (r1 & c1 & E1 & H).
    destruct r1 as [e |]; [ discriminate | ].
    destruct (statement_ok_ex h _ _ c c1 E1) as (t & t1 & Hv & Hf & Hv1).
    injection Hf as <-.
    apply bind_ret_inv in H as (r2 & c2 & E2 & H).
    destruct r2 as [e |]; [ discriminate | ].
    pose proof (deleteLabels_ok h m c1 c2 _ E2 Hv1) as Hv2.
    destruct (finish_inv (mkEvent Deleted m None) c2 x H) as (Hdb & _).
    exists t. split; [ done | ]. split; [ done | ].
    rewrite Hdb. exact Hv2.
Qed.

(** The same for the whole call. *)
Lemma call_tables range op c c' :
  mu c = false -> (tx c = None -> dbMutex c = false) ->
  call range op c = Ret None c' ->
  exists t, view (handle_of c) (db c) = Some t /\ admits op t /\
            view (handle_of c) (db c') = Some (applied range op t).
Proof.
  intros Hmu Hdb Hcall.
  destruct (call_inv range op c None c' Hmu Hdb Hcall) as (x & Hbody & ->).
  destruct (body_tables range op _ _ x Hbody) as (t & Hv & Ha & Hv').
  rewrite entered_db in Hv. exists t. by rewrite released_db.
Qed.

(** ** Round trips *)

Lemma same_row_refl m : same_row m m = true.
Proof. unfold same_row. by rewrite !bool_decide_eq_true_2. Qed.

Lemma find_none_existsb {A} (p : A -> bool) (l : list A) :
  existsb p l = false -> List.find p l = None.
Proof.
  induction l as [| a l IH]; simpl; [ done | ].
  destruct (p a); simpl; [ discriminate | exact IH ].
Qed.

Lemma find_app_new {A} (p : A -> bool) (l : list A) (a : A) :
  existsb p l = false -> p a = true -> List.find p (l ++ [a]) = Some a.
Proof.
  induction l as [| b l IH]; simpl; intros Hl Ha.
  - by rewrite Ha.
  - destruct (p b); simpl in *; [ discriminate | by apply IH ].
Qed.

Lemma find_replaced {A} (p : A -> bool) (l : list A) (a cur : A) :
  List.find p l = Some cur -> p a = true ->
  List.find p (List.map (fun x => if p x then a else x) l) = Some a.
Proof.
  induction l as [| b l IH]; simpl; intros Hl Ha; [ discriminate | ].
  destruct (p b) eqn:Hb; simpl.
  - by rewrite Ha.
  - rewrite Hb. by apply IH.
Qed.

Lemma find_removed {A} (p : A -> bool) (l : list A) :
  List.find p (List.filter (fun x => negb (p x)) l) = None.
Proof.
  induction l as [| b l IH]; simpl; [ done | ].
  destruct (p b) eqn:Hb; simpl; [ exact IH | ]. by rewrite Hb.
Qed.

Lemma lookup_after range op t :
  admits op t -> lookup_row (subject op) (applied range op t) = stored_after op.
Proof.
  unfold lookup_row. destruct op as [m | m | m]; simpl.
  - intros Hfree. by rewrite (find_app_new _ _ m Hfree (same_row_refl m)).
  - intros (cur & Hcur).
    by rewrite (find_replaced _ _ m cur Hcur (same_row_refl m)).
  - intros _. by rewrite find_removed.
Qed.

Lemma Client_Get_lookup m c :
  next_fault (db c) = false ->
  exists c', Client_Get m c = Ret (lookup_row m (committed (db c))) c'.
Proof.
  intros Hf. unfold Client_Get. rewrite Table_Get_run.
  eexists. f_equal.
  unfold exec. rewrite Hf. simpl. unfold rows_get, lookup_row.
  by destruct (List.find (same_row m) (models (committed (db c)))).
Qed.

(** X3.  Without a transaction, a successful mutation is durable when it
    returns and [Get] reads it back: after Insert or Update of a model,
    [Get] by its key returns that model; after Delete it returns
    [NotFound].  An Insert succeeds only on a free key and puts the row
    last in the [List] of its type. *)
Theorem mutation_then_get range op c c' :
  mu c = false -> tx c = None -> dbMutex c = false ->
  call range op c = Ret None c' ->
  next_fault (db c') = false ->
  committed (db c') = applied range op (committed (db c)) /\
  admits op (committed (db c)) /\
  (exists c'', Client_Get (subject op) c' = Ret (stored_after op) c'') /\
  (forall m, op = MInsert m -> snapshot m c' = snapshot m c ++ [m]).
Proof.
  intros Hmu Ht Hdb Hcall Hf.
  destruct (call_tables range op c c' Hmu (fun _ => Hdb) Hcall)
    as (t & Hv & Ha & Hv').
  unfold handle_of in Hv, Hv'. rewrite Ht in Hv, Hv'. simpl in Hv, Hv'.
  injection Hv as <-. injection Hv' as Hc'.
  split; [ done | ]. split; [ done | ]. split.
  - destruct (Client_Get_lookup (subject op) c' Hf) as (c'' & E).
    exists c''. rewrite E, Hc'. f_equal. by apply lookup_after.
  - intros m ->. unfold snapshot. rewrite Hc'. simpl.
    rewrite List.filter_app. simpl.
    by rewrite bool_decide_eq_true_2.
Qed.

Lemma mutation_then_get_witness :
  (mu ws2 = false /\ tx ws2 = None /\ dbMutex ws2 = false /\
   call in_order (MUpdate vm_a') ws2 = Ret None rt1 /\
   next_fault (db rt1) = false) /\
  exists c'', Client_Get (subject (MUpdate vm_a')) rt1
              = Ret (stored_after (MUpdate vm_a')) c''.
Proof.
  assert (H1 : mu ws2 = false) by by_evaluation.
  assert (H2 : tx ws2 = None) by by_evaluation.
  assert (H3 : dbMutex ws2 = false) by by_evaluation.
  assert (H4 : call in_order (MUpdate vm_a') ws2 = Ret None rt1)
    by by_evaluation.
  assert (H5 : next_fault (db rt1) = false) by by_evaluation.
  split; [ conjuncts; assumption | ].
  by destruct (mutation_then_get in_order (MUpdate vm_a') ws2 rt1
                 H1 H2 H3 H4 H5) as (_ & _ & A & _).
Defined.

Example insert_update_delete_get :
  fst (exec ViaDB (rows_get vm_a) (db ws2)) = Ok vm_a /\
  fst (exec ViaDB (rows_get vm_a) (db rt1)) = Ok vm_a' /\
  Client_Delete vm_a' rt1 = Ret None rt2 /\
  fst (exec ViaDB (rows_get vm_a) (db rt2)) = Err NotFound /\
  models (committed (db rt2)) = [vm_b] /\ labels (committed (db rt2)) = [].
Proof. conjuncts; by_evaluation. Qed.

(** ** The durable tables while a transaction is open *)

Lemma durable_ret {A} (a : A) : durable (ret a).
Proof. intros c a' c' [= <- <-]. done. Qed.

Lemma durable_bind {A B} (m : M A) (k : A -> M B) :
  durable m -> (forall a, durable (k a)) -> durable (bind m k).
Proof.
  intros Hm Hk c b c' H.
  apply bind_ret_inv in H as (a & c1 & E1 & E2).
  rewrite (Hk a c1 b c' E2). by apply (Hm c a c1).
Qed.

Lemma exec_tx_committed {A} r (f : Tables -> result (A * Tables)) d :
  committed (snd (exec (ViaTx r) f d)) = committed d.
Proof.
  unfold exec. destruct (next_fault d); [ done | ].
  destruct (view (ViaTx r) (tick d)) as [t |]; [ | done ].
  by destruct (f t) as [[a t'] | e].
Qed.

Lemma exec_read_committed {A} (f : Tables -> result (A * Tables)) d :
  (forall t a t', f t = Ok (a, t') -> t' = t) ->
  committed (snd (exec ViaDB f d)) = committed d.
Proof.
  intros Hread. unfold exec. destruct (next_fault d); [ done | ]. simpl.
  destruct (f (committed d)) as [[a t'] | e] eqn:Hf; [ | done ].
  simpl. by apply (Hread _ a).
Qed.

Lemma durable_table_call {A} r what (f : Tables -> result (A * Tables)) :
  durable (table_call (ViaTx r) what f).
Proof.
  intros c a c' H.
  destruct (table_call_step (ViaTx r) what f c) as (r1 & d & E & E').
  rewrite E' in H. injection H as <- <-. simpl.
  pose proof (exec_tx_committed r f (db c)) as Hc. by rewrite E in Hc.
Qed.

Lemma durable_read {A} what (f : Tables -> result (A * Tables)) :
  (forall t a t', f t = Ok (a, t') -> t' = t) ->
  durable (table_call ViaDB what f).
Proof.
  intros Hread c a c' H.
  destruct (table_call_step ViaDB what f c) as (r1 & d & E & E').
  rewrite E' in H. injection H as <- <-. simpl.
  pose proof (exec_read_committed f (db c) Hread) as Hc. by rewrite E in Hc.
Qed.

Lemma rows_get_reads m t a t' : rows_get m t = Ok (a, t') -> t' = t.
Proof.
  unfold rows_get. destruct (List.find _ _); [ | discriminate ].
  by intros [= _ <-].
Qed.

Lemma rows_list_reads kind t a t' : rows_list kind t = Ok (a, t') -> t' = t.
Proof. unfold rows_list. by intros [= _ <-]. Qed.

Lemma durable_via_journal e f : durable (via_journal e f).
Proof. intros c a c' [= _ <-]. done. Qed.

Lemma durable_finish e : durable (finish e).
Proof.
  intros c a c' H. rewrite finish_run in H. injection H as _ <-.
  by rewrite finished_db.
Qed.

Ltac durable_tac :=
  repeat first
    [ apply durable_ret
    | apply durable_table_call
    | apply durable_finish
    | apply durable_bind; [ | intros ? ]
    | match goal with |- durable (match ?x with _ => _ end) =>
        destruct x end ].

Lemma durable_insertLabels_range r m kvs :
  durable (insertLabels_range (ViaTx r) m kvs).
Proof.
  induction kvs as [| [l v] rest IH]; simpl.
  - apply durable_ret.
  - unfold Table_InsertLabel. durable_tac. apply IH.
Qed.

Lemma durable_deleteLabels_range r ls :
  durable (deleteLabels_range (ViaTx r) ls).
Proof.
  induction ls as [| l rest IH]; simpl.
  - apply durable_ret.
  - unfold Table_DeleteLabel. durable_tac. apply IH.
Qed.

Lemma durable_deleteLabels r m : durable (Client_deleteLabels (ViaTx r) m).
Proof.
  unfold Client_deleteLabels, Table_ListLabels.
  apply durable_bind; [ apply durable_table_call | intros [ls | e] ].
  - apply durable_deleteLabels_range.
  - apply durable_ret.
Qed.

Lemma durable_body range op r : durable (body_of range op (ViaTx r)).
Proof.
  destruct op as [m | m | m]; simpl.
  - unfold Insert_body, Table_Insert.
    apply durable_bind; [ durable_tac | intros [e |]; [ apply durable_ret | ] ].
    apply durable_bind;
      [ apply durable_insertLabels_range
      | intros [e |]; [ apply durable_ret | ] ].
    apply (durable_finish (mkEvent Created m None)).
  - unfold Update_body, journal_copy, Table_Get, Table_Update.
    apply durable_bind; [ apply durable_ret | intros m0 ].
    apply durable_bind;
      [ apply durable_table_call
      | intros [current | e]; [ | apply durable_ret ] ].
    apply durable_bind; [ durable_tac | intros [e |]; [ apply durable_ret | ] ].
    apply durable_bind.
    + unfold Client_replaceLabels.
      apply durable_bind;
        [ apply durable_deleteLabels | intros [e |]; [ apply durable_ret | ] ].
      apply durable_bind;
        [ apply durable_insertLabels_range
        | intros [e |]; apply durable_ret ].
    + intros [e |]; [ apply durable_ret | ].
      apply (durable_finish (mkEvent Updated m (Some current))).
  - unfold Delete_body, Table_Delete.
    apply durable_bind; [ durable_tac | intros [e |]; [ apply durable_ret | ] ].
    apply durable_bind;
      [ apply durable_deleteLabels | intros [e |]; [ apply durable_ret | ] ].
    apply (durable_finish (mkEvent Deleted m None)).
Qed.

(** A mutation inside a transaction, whatever it returns, leaves the
    durable tables alone. *)
Lemma call_in_tx_durable range op c a r c' :
  mu c = false -> tx c = Some a -> call range op c = Ret r c' ->
  committed (db c') = committed (db c).
Proof.
  intros Hmu Ht Hcall.
  destruct (call_inv range op c r c' Hmu) as (x & Hbody & ->);
    [ by rewrite Ht | done | ].
  rewrite released_db. unfold handle_of in Hbody. rewrite Ht in Hbody.
  rewrite (durable_body range op a _ _ _ Hbody). by rewrite entered_db.
Qed.

Lemma watch_durable m c r c' :
  mu c = false -> Client_Watch m c = Ret r c' ->
  committed (db c') = committed (db c).
Proof.
  intros Hmu.
  unfold Client_Watch, with_deferred, bind, r_Lock. rewrite Hmu. simpl.
  unfold Table_List, table_call. simpl.
  pose proof (exec_read_committed (rows_list (Kind m)) (db c)
                (rows_list_reads (Kind m))) as Hc.
  destruct (exec ViaDB (rows_list (Kind m)) (db c)) as [[rows | e] d];
    simpl in *.
  - rewrite notify_rows_run.
    unfold watch_Start, via_journal, r_Unlock. simpl.
    by intros [= _ <-].
  - unfold r_Unlock. simpl. by intros [= _ <-].
Qed.

Lemma perform_in_tx_durable range t q c c' :
  holds_write_lock t c -> ends t q = false ->
  perform range q c = Ret tt c' ->
  committed (db c') = committed (db c).
Proof.
  intros (Hmu & Hdb & Ht) Hq Hrun.
  destruct q as [| m | m | kind | m | m | m | m | u | u];
    simpl in Hrun; unfold bind in Hrun.
  - by rewrite (Begin_blocked c Hmu Hdb) in Hrun.
  - unfold Client_GetForUpdate, bind in Hrun.
    by rewrite (Begin_blocked c Hmu Hdb) in Hrun.
  - destruct (Client_Get m c) as [r x | |] eqn:E; try done.
    injection Hrun as <-.
    apply (durable_read (CGet (Kind m) (Pk m)) (rows_get m)
             (rows_get_reads m) c r x E).
  - destruct (Table_List ViaDB kind c) as [r x | |] eqn:E; try done.
    injection Hrun as <-.
    apply (durable_read (CList kind) (rows_list kind)
             (rows_list_reads kind) c r x E).
  - destruct (Client_Insert range m c) as [r x | |] eqn:E; try done.
    injection Hrun as <-.
    by apply (call_in_tx_durable range (MInsert m) c (ref t) r x).
  - destruct (Client_Update range m c) as [r x | |] eqn:E; try done.
    injection Hrun as <-.
    by apply (call_in_tx_durable range (MUpdate m) c (ref t) r x).
  - destruct (Client_Delete m c) as [r x | |] eqn:E; try done.
    injection Hrun as <-.
    by apply (call_in_tx_durable range (MDelete m) c (ref t) r x).
  - destruct (Client_Watch m c) as [r x | |] eqn:E; try done.
    injection Hrun as <-. by apply (watch_durable m c r x).
  - simpl in Hq. apply bool_decide_eq_false in Hq.
    unfold Tx_Commit in Hrun. rewrite commit_refused in Hrun;
      [ | done | rewrite Ht; congruence ].
    by injection Hrun as <-.
  - simpl in Hq. apply bool_decide_eq_false in Hq.
    unfold Tx_End in Hrun. rewrite end_refused in Hrun;
      [ | done | rewrite Ht; congruence ].
    by injection Hrun as <-.
Qed.

(** X4.  While a transaction is open, no call other than its own Commit
    changes the durable tables, whatever the calls return: the writes go
    to the transaction.  [Get], which reads through the connection, keeps
    returning the row that was durable when the span began, so it does not
    see the rows written inside the transaction. *)
Theorem open_tx_leaves_durable_tables range t qs c c2 m :
  holds_write_lock t c ->
  Forall (fun q => ends t q = false) qs ->
  perform_all range qs c = Ret tt c2 ->
  next_fault (db c2) = false ->
  committed (db c2) = committed (db c) /\
  exists c3, Client_Get m c2 = Ret (lookup_row m (committed (db c))) c3.
Proof.
  intros Hold Hqs Hrun Hf.
  assert (Hc : committed (db c2) = committed (db c)).
  { clear Hf. revert c Hold Hrun.
    induction qs as [| q rest IH]; intros c Hold Hrun.
    - by injection Hrun as <-.
    - apply Forall_cons in Hqs as [Hq Hrest].
      simpl in Hrun. unfold bind in Hrun.
      destruct (perform range q c) as [[] x | |] eqn:E; try done.
      destruct (perform_within_tx range t q c x Hold Hq E) as (Hx & _).
      rewrite (IH Hrest x Hx Hrun).
      by apply (perform_in_tx_durable range t q c x). }
  split; [ done | ].
  destruct (Client_Get_lookup m c2 Hf) as (c3 & E).
  exists c3. by rewrite E, Hc.
Qed.

(** ** A transaction as a whole *)

Lemma call_all_cons range op rest c c' :
  call_all range (op :: rest) c = Ret None c' ->
  exists c1, call range op c = Ret None c1 /\
             call_all range rest c1 = Ret None c'.
Proof.
  simpl. intros H. apply bind_ret_inv in H as (r & c1 & E1 & H).
  destruct r as [e |]; [ discriminate | ]. by exists c1.
Qed.

Lemma sql_commit_ok r d w :
  next_fault d = false -> view (ViaTx r) d = Some w ->
  sql_commit r d = (Ok tt, mkDB w None (List.tl (faults d)) (next_ref d)).
Proof.
  intros Hf Hv. unfold sql_commit. by rewrite Hf, view_tick, Hv.
Qed.

Lemma sql_rollback_ok r d w :
  next_fault d = false -> view (ViaTx r) d = Some w ->
  sql_rollback r d
  = (Ok tt, mkDB (committed d) None (List.tl (faults d)) (next_ref d)).
Proof.
  intros Hf Hv. unfold sql_rollback. by rewrite Hf, view_tick, Hv.
Qed.

(** Mutations of one caller inside the transaction of [t], all
    successful. *)
Lemma call_all_in_tx range t ops c c' w :
  holds_write_lock t c -> view (ViaTx (ref t)) (db c) = Some w ->
  call_all range ops c = Ret None c' ->
  holds_write_lock t c' /\
  view (ViaTx (ref t)) (db c') = Some (applied_all range ops w) /\
  committed (db c') = committed (db c).
Proof.
  revert c w. induction ops as [| op rest IH]; intros c w Hold Hv Hrun.
  - injection Hrun as <-. by split.
  - destruct (call_all_cons range op rest c c' Hrun) as (c1 & E1 & Erest).
    pose proof Hold as (Hmu & Hdb & Ht).
    assert (Hno : tx c = None -> dbMutex c = false) by (by rewrite Ht).
    destruct (call_frame range op c None c1 Hmu Hno E1) as (A & B & C).
    destruct (call_tables range op c c1 Hmu Hno E1) as (t0 & Hv0 & _ & Hv1).
    unfold handle_of in Hv0, Hv1. rewrite Ht in Hv0, Hv1.
    rewrite Hv in Hv0. injection Hv0 as <-.
    assert (Hold1 : holds_write_lock t c1).
    { unfold holds_write_lock. by rewrite A, B, C. }
    destruct (IH c1 _ Hold1 Hv1 Erest) as (Hold' & Hv' & Hc').
    split; [ done | ]. split; [ done | ].
    rewrite Hc'. by apply (call_in_tx_durable range op c (ref t) None c1).
Qed.

(** X5.  A transaction is all or nothing.  After a successful [Begin] and
    any mutations that all succeed, the durable tables are still those of
    before [Begin]; a [Commit] whose backend commit goes through makes
    the tables of the transaction durable, which are the mutations applied
    in order to the tables of before [Begin]; an [End] whose rollback goes
    through leaves the durable tables as they were before [Begin]. *)
Theorem transaction_all_or_nothing range c t ops c2 :
  mu c = false -> dbMutex c = false ->
  fst (sql_begin (db c)) = Ok (ref t) ->
  call_all range ops (after_begin c) = Ret None c2 ->
  next_fault (db c2) = false ->
  committed (db c2) = committed (db c) /\
  (exists c3,
     Tx_Commit t c2 = Ret None c3 /\
     committed (db c3) = applied_all range ops (committed (db c)) /\
     working (db c3) = None /\ tx c3 = None /\ dbMutex c3 = false) /\
  (exists c3,
     Tx_End t c2 = Ret None c3 /\
     committed (db c3) = committed (db c) /\
     working (db c3) = None /\ tx c3 = None /\ dbMutex c3 = false).
Proof.
  intros Hmu Hdb Hok Hrun Hf.
  destruct (sql_begin_ok _ _ Hok) as (_ & _ & Hc & Hw & _).
  assert (Hold : holds_write_lock t (after_begin c)).
  { unfold holds_write_lock, after_begin. rewrite Hok. by simpl. }
  assert (Hdbb : db (after_begin c) = snd (sql_begin (db c))).
  { unfold after_begin. by destruct (fst (sql_begin (db c))). }
  assert (Hv : view (ViaTx (ref t)) (db (after_begin c))
               = Some (committed (db c))).
  { rewrite Hdbb. simpl. rewrite Hw. by rewrite bool_decide_eq_true_2. }
  destruct (call_all_in_tx range t ops _ c2 _ Hold Hv Hrun)
    as ((Hm2 & Hd2 & Ht2) & Hv2 & Hc2).
  rewrite Hdbb, Hc in Hc2.
  split; [ done | ]. split.
  - exists (after_commit t c2). unfold Tx_Commit.
    rewrite (commit_run t c2 Hm2 Hd2 Ht2).
    unfold after_commit. rewrite (sql_commit_ok _ _ _ Hf Hv2). by simpl.
  - exists (after_end t c2). unfold Tx_End.
    rewrite (end_run t c2 Hm2 Hd2 Ht2).
    unfold after_end. rewrite (sql_rollback_ok _ _ _ Hf Hv2). simpl.
    by rewrite Hc2.
Qed.

Lemma transaction_all_or_nothing_witness :
  (mu eg0 = false /\ dbMutex eg0 = false /\
   fst (sql_begin (db eg0)) = Ok (ref (mkTx 0)) /\
   call_all in_order two_inserts (after_begin eg0) = Ret None eg1 /\
   next_fault (db eg1) = false) /\
  exists c3,
    Tx_Commit (mkTx 0) eg1 = Ret None c3 /\
    committed (db c3) = applied_all in_order two_inserts (committed (db eg0)).
Proof.
  assert (H1 : mu eg0 = false) by by_evaluation.
  assert (H2 : dbMutex eg0 = false) by by_evaluation.
  assert (H3 : fst (sql_begin (db eg0)) = Ok (ref (mkTx 0))) by by_evaluation.
  assert (H4 : call_all in_order two_inserts (after_begin eg0) = Ret None eg1)
    by by_evaluation.
  assert (H5 : next_fault (db eg1) = false) by by_evaluation.
  split; [ conjuncts; assumption | ].
  destruct (transaction_all_or_nothing in_order eg0 (mkTx 0) two_inserts eg1
              H1 H2 H3 H4 H5) as (_ & (c3 & A & B & _) & _).
  exists c3. split; assumption.
Defined.

(** The example of the comment on [Begin]: both rows are durable after
    [Commit], and the watch has both events, in order. *)
Example begin_insert_insert_commit :
  models (committed (db eg1)) = [] /\
  Tx_Commit (mkTx 0) eg1 = Ret None eg2 /\
  models (committed (db eg2)) = [vm_a; vm_b] /\
  received <$> (watchList (journal eg1) !! 0%nat) = Some [] /\
  received <$> (watchList (journal eg2) !! 0%nat)
  = Some [created vm_a; created vm_b].
Proof. conjuncts; by_evaluation. Qed.

(** X6.  Without a transaction, mutations that all succeed leave the
    durable tables that result from applying them in order; when they
    have returned, the state lock and the write lock are free and no
    transaction is open. *)
Theorem mutations_apply_in_order range ops c c' :
  mu c = false -> tx c = None -> dbMutex c = false ->
  call_all range ops c = Ret None c' ->
  committed (db c') = applied_all range ops (committed (db c)) /\
  mu c' = false /\ tx c' = None /\ dbMutex c' = false.
Proof.
  revert c. induction ops as [| op rest IH]; intros c Hmu Ht Hdb Hrun.
  - by injection Hrun as <-.
  - destruct (call_all_cons range op rest c c' Hrun) as (c1 & E1 & Erest).
    destruct (call_frame range op c None c1 Hmu (fun _ => Hdb) E1)
      as (A & B & C).
    destruct (call_tables range op c c1 Hmu (fun _ => Hdb) E1)
      as (t0 & Hv0 & _ & Hv1).
    unfold handle_of in Hv0, Hv1. rewrite Ht in Hv0, Hv1. simpl in Hv0, Hv1.
    injection Hv0 as <-. injection Hv1 as Hc1.
    assert (Ht1 : tx c1 = None) by (rewrite B; exact Ht).
    assert (Hd1 : dbMutex c1 = false) by (rewrite C; exact Hdb).
    destruct (IH c1 A Ht1 Hd1 Erest) as (Hc' & Hrest).
    split; [ | done ]. by rewrite Hc', Hc1.
Qed.

Lemma mutations_apply_in_order_witness :
  (mu (opened []) = false /\ tx (opened []) = None /\
   dbMutex (opened []) = false /\
   call_all in_order two_inserts (opened []) = Ret None ws2) /\
  committed (db ws2)
  = applied_all in_order two_inserts (committed (db (opened []))).
Proof.
  assert (H1 : mu (opened []) = false) by by_evaluation.
  assert (H2 : tx (opened []) = None) by by_evaluation.
  assert (H3 : dbMutex (opened []) = false) by by_evaluation.
  assert (H4 : call_all in_order two_inserts (opened []) = Ret None ws2)
    by by_evaluation.
  split; [ conjuncts; assumption | ].
  by destruct (mutations_apply_in_order in_order two_inserts (opened []) ws2
                 H1 H2 H3 H4) as (A & _).
Defined.

Lemma open_tx_leaves_durable_tables_witness :
  (holds_write_lock (mkTx 0) (after_begin fc1) /\
   Forall (fun q => ends (mkTx 0) q = false) others /\
   perform_all in_order others (after_begin fc1) = Ret tt span_end /\
   next_fault (db span_end) = false) /\
  committed (db span_end) = committed (db (after_begin fc1)).
Proof.
  assert (H1 : holds_write_lock (mkTx 0) (after_begin fc1))
    by (unfold holds_write_lock; conjuncts; by_evaluation).
  assert (H2 : Forall (fun q => ends (mkTx 0) q = false) others).
  { unfold others.
    repeat (apply List.Forall_cons; [ reflexivity | ]). apply List.Forall_nil. }
  assert (H3 : perform_all in_order others (after_begin fc1) = Ret tt span_end)
    by by_evaluation.
  assert (H4 : next_fault (db span_end) = false) by by_evaluation.
  split; [ conjuncts; assumption | ].
  by destruct (open_tx_leaves_durable_tables in_order (mkTx 0) others
                 (after_begin fc1) span_end vm_a H1 H2 H3 H4) as (A & _).
Defined.

(** ** The order in which watches get the events *)

Lemma joined_nil a : joined [] a = a.
Proof.
  destruct a as [[[kind s] cl] heard]. simpl.
  destruct (s && negb cl); by rewrite app_nil_r.
Qed.

Lemma joined_app es1 es2 a : joined es2 (joined es1 a) = joined (es1 ++ es2) a.
Proof.
  destruct a as [[[kind s] cl] heard]. simpl.
  destruct (s && negb cl); rewrite <- app_assoc; [ | done ].
  by rewrite List.filter_app.
Qed.

(** The audience once an event is staged. *)
Lemma audience_stage e j : audience (stage e j) = List.map (joined [e]) (audience j).
Proof.
  unfold audience, stage. simpl. rewrite List.map_map.
  apply List.map_ext. intros w. unfold bound_for, joined, live, matches.
  simpl. destruct (started w && negb (closed w)); rewrite <- ?app_assoc;
    [ | done ].
  by rewrite List.filter_app.
Qed.

(** A flush changes nothing in what the watches are bound to get. *)
Lemma audience_commit j : audience (journal_commit j) = audience j.
Proof.
  unfold audience. rewrite journal_commit_watchList, List.map_map.
  apply List.map_ext. intros w.
  unfold bound_for, receive_all, live, matches. simpl.
  destruct w as [k s cl rc]. simpl.
  destruct (s && negb cl) eqn:L; simpl; rewrite ?L; simpl;
    by rewrite ?app_nil_r.
Qed.

Lemma audience_finished e x :
  audience (journal (finished e x)) = List.map (joined [e]) (audience (journal x)).
Proof.
  unfold finished. destruct (tx x); simpl.
  - apply audience_stage.
  - rewrite audience_commit. apply audience_stage.
Qed.

(** One successful mutation, with or without a transaction. *)
Lemma call_audience range op c c' :
  mu c = false -> (tx c = None -> dbMutex c = false) ->
  call range op c = Ret None c' ->
  exists e, announces op e /\
    audience (journal c') = List.map (joined [e]) (audience (journal c)) /\
    (tx c = None -> staged (journal c') = []) /\
    (tx c <> None ->
     watchList (journal c') = watchList (journal c) /\
     staged (journal c') = staged (journal c) ++ [e]).
Proof.
  intros Hmu Hdb Hcall.
  destruct (call_cases range op c Hmu Hdb)
    as (x & [_ _ St Sj _] & [(e & E) | (e & E & Hm & Ha)]);
    rewrite E in Hcall; [ discriminate | ].
  injection Hcall as <-.
  rewrite entered_tx in St. rewrite entered_journal in Sj.
  exists e. split; [ by split | ].
  rewrite released_journal. split.
  - by rewrite audience_finished, Sj.
  - unfold finished. rewrite St, Sj.
    split; intros Ht; destruct (tx c); try done.
Qed.

(** X7.  Every watch gets the events of one caller's successful mutations
    in the order of the calls.  After the calls, what each live watch has
    received or has pending is what it had before followed by the events of
    its type, one per mutation, in call order; a watch that is not live
    gets none.  Without a transaction nothing is left pending; inside a
    transaction the handlers have received nothing new, the events are
    staged in call order, and a [Commit] whose backend commit succeeds
    then hands them over in that order. *)
Theorem events_follow_call_order range ops c c' :
  mu c = false -> (tx c = None -> dbMutex c = false) ->
  call_all range ops c = Ret None c' ->
  exists es,
    Forall2 announces ops es /\
    audience (journal c') = List.map (joined es) (audience (journal c)) /\
    (tx c = None -> ops <> [] -> staged (journal c') = []) /\
    (forall t, tx c = Some (ref t) -> dbMutex c = true ->
       watchList (journal c') = watchList (journal c) /\
       staged (journal c') = staged (journal c) ++ es /\
       (fst (sql_commit (ref t) (db c')) = Ok tt ->
        exists c3,
          Tx_Commit t c' = Ret None c3 /\
          staged (journal c3) = [] /\
          watchList (journal c3)
          = List.map (receive_all (staged (journal c) ++ es))
                     (watchList (journal c)))).
Proof.
  revert c. induction ops as [| op rest IH]; intros c Hmu Hdb Hrun.
  - injection Hrun as <-. exists []. split; [ constructor | ].
    split.
    { rewrite <- (List.map_id (audience (journal c))) at 1.
      apply List.map_ext. intros a. by rewrite joined_nil. }
    split; [ done | ].
    intros t Ht Hd. rewrite app_nil_r. split; [ done | ]. split; [ done | ].
    intros Hok. exists (after_commit t c). unfold Tx_Commit.
    rewrite (commit_run t c Hmu Hd Ht), Hok. split; [ done | ].
    unfold after_commit. rewrite Hok. simpl.
    split; [ done | apply fold_dispatch ].
  - destruct (call_all_cons range op rest c c' Hrun) as (c1 & E1 & Erest).
    destruct (call_frame range op c None c1 Hmu Hdb E1) as (A & B & C).
    destruct (call_audience range op c c1 Hmu Hdb E1)
      as (e & He & Haud & Hnone & Hsome).
    assert (Hdb1 : tx c1 = None -> dbMutex c1 = false).
    { rewrite B, C. exact Hdb. }
    destruct (IH c1 A Hdb1 Erest) as (es & Hes & Haud' & Hnone' & Hsome').
    exists (e :: es). split; [ by constructor | ].
    split.
    { rewrite Haud', Haud, List.map_map. apply List.map_ext. intros a.
      apply (joined_app [e] es a). }
    split.
    { intros Ht _. destruct rest as [| op2 rest2].
      - injection Erest as <-. by apply Hnone.
      - apply Hnone'; [ by rewrite B | done ]. }
    intros t Ht Hd.
    destruct Hsome as (Hw1 & Hs1); [ by rewrite Ht | ].
    destruct (Hsome' t) as (Hw' & Hs' & Hcommit);
      [ by rewrite B | by rewrite C | ].
    rewrite Hw1 in Hw'. rewrite Hs1, <- app_assoc in Hs'. simpl in Hs'.
    split; [ done | ]. split; [ done | ].
    intros Hok. destruct (Hcommit Hok) as (c3 & E3 & Hst3 & Hw3).
    exists c3. split; [ done | ]. split; [ done | ].
    rewrite Hw3, Hw1, Hs1, <- app_assoc. done.
Qed.

Lemma events_follow_call_order_witness :
  (mu (after_begin eg0) = false /\
   (tx (after_begin eg0) = None -> dbMutex (after_begin eg0) = false) /\
   call_all in_order two_inserts (after_begin eg0) = Ret None eg1) /\
  exists es,
    Forall2 announces two_inserts es /\
    audience (journal eg1)
    = List.map (joined es) (audience (journal (after_begin eg0))).
Proof.
  assert (H1 : mu (after_begin eg0) = false) by by_evaluation.
  assert (H2 : tx (after_begin eg0) = None -> dbMutex (after_begin eg0) = false)
    by (intros H; vm_compute in H; discriminate H).
  assert (H3 : call_all in_order two_inserts (after_begin eg0) = Ret None eg1)
    by by_evaluation.
  split; [ conjuncts; assumption | ].
  destruct (events_follow_call_order in_order two_inserts (after_begin eg0)
              eg1 H1 H2 H3) as (es & A & B & _).
  exists es. split; assumption.
Defined.

(** ** Watch, whatever the snapshot *)

(** The journal a Watch call leaves. *)
Lemma watch_run m c :
  mu c = false ->
  exists r c',
    Client_Watch m c = Ret r c' /\
    staged (journal c') = staged (journal c) /\
    ((next_fault (db c) = false /\
      r = (Some (length (watchList (journal c))), None) /\
      watchList (journal c')
      = watchList (journal c) ++ [new_watch m c true])
     \/
     (next_fault (db c) = true /\
      r = (None, Some (Wrap MappingError)) /\
      watchList (journal c')
      = watchList (journal c) ++ [new_watch m c false] /\
      trace c'
      = trace c ++ [ELock; EJournalWatch (length (watchList (journal c)));
                    ETable ViaDB (CList (Kind m)) false; EUnlock])).
Proof.
  intros Hmu.
  unfold Client_Watch, with_deferred, bind, r_Lock. rewrite Hmu. simpl.
  unfold Table_List, table_call, exec. simpl.
  destruct (next_fault (db c)) eqn:Hf; simpl.
  - unfold r_Unlock. simpl. eexists _, _. split; [ reflexivity | ].
    simpl. split; [ done | ]. right.
    split; [ done | ]. split; [ done | ]. split; [ done | by flatten_trace ].
  - rewrite notify_rows_run.
    unfold watch_Start, via_journal, r_Unlock. simpl.
    eexists _, _. split; [ reflexivity | ].
    rewrite notify_fresh_watch, start_fresh_watch. simpl.
    split; [ done | ]. left. by split.
Qed.

(** X8.  A Watch call whose snapshot [List] fails returns the error
    wrapped and no watch, but the watch it registered stays in the
    journal: it was handed nothing and was not started, so no flush of the
    journal, now or later, hands it an event; the other watches and the
    staged entries are as they were. *)
Theorem failed_watch_stays_registered m c es :
  mu c = false -> next_fault (db c) = true ->
  exists c',
    Client_Watch m c = Ret (None, Some (Wrap MappingError)) c' /\
    staged (journal c') = staged (journal c) /\
    watchList (journal c')
    = watchList (journal c) ++ [mkWatch (Kind m) false false []] /\
    trace c'
    = trace c ++ [ELock; EJournalWatch (length (watchList (journal c)));
                  ETable ViaDB (CList (Kind m)) false; EUnlock] /\
    List.fold_left dispatch es (watchList (journal c'))
    = List.fold_left dispatch es (watchList (journal c))
      ++ [mkWatch (Kind m) false false []].
Proof.
  intros Hmu Hf.
  destruct (watch_run m c Hmu)
    as (r & c' & E & Hst & [(Hf' & _) | (_ & -> & Hw & Htr)]);
    [ congruence | ].
  exists c'. split; [ done | ]. split; [ done | ].
  split; [ done | ]. split; [ done | ].
  rewrite Hw, !fold_dispatch, List.map_app. done.
Qed.

Lemma failed_watch_stays_registered_witness :
  (mu wf0 = false /\ next_fault (db wf0) = true) /\
  exists c',
    Client_Watch vm_a wf0 = Ret (None, Some (Wrap MappingError)) c' /\
    staged (journal c') = staged (journal wf0) /\
    watchList (journal c')
    = watchList (journal wf0) ++ [mkWatch (Kind vm_a) false false []].
Proof.
  assert (H1 : mu wf0 = false) by by_evaluation.
  assert (H2 : next_fault (db wf0) = true) by by_evaluation.
  split; [ split; assumption | ].
  destruct (failed_watch_stays_registered vm_a wf0 [] H1 H2)
    as (c' & A & B & C & _).
  exists c'. conjuncts; assumption.
Defined.

Lemma audience_app st ws1 ws2 :
  audience (mkJournal st (ws1 ++ ws2))
  = audience (mkJournal st ws1) ++ audience (mkJournal st ws2).
Proof. unfold audience. simpl. apply List.map_app. Qed.

(** X9.  A successful Watch call joins the audience without a gap: the
    new watch has the [Created] events of the snapshot and, being live, is
    bound to get after them the entries of its type that are staged at
    that moment (those of an open transaction, which the snapshot does not
    show); what the other watches are bound to get is unchanged. *)
Theorem watch_joins_audience m c :
  mu c = false -> next_fault (db c) = false ->
  exists c',
    Client_Watch m c
    = Ret (Some (length (watchList (journal c))), None) c' /\
    audience (journal c')
    = audience (journal c)
      ++ [(Kind m, true, false,
           List.map created (snapshot m c)
           ++ List.filter (fun e => bool_decide (Kind m = Kind (EModel e)))
                          (staged (journal c)))].
Proof.
  intros Hmu Hf.
  destruct (watch_run m c Hmu)
    as (r & c' & E & Hst & [(_ & -> & Hw) | (Hf' & _)]);
    [ | congruence ].
  exists c'. split; [ done | ].
  destruct (journal c') as [st' ws'] eqn:Ej'. simpl in Hst, Hw. subst st' ws'.
  rewrite audience_app.
  f_equal; first [ reflexivity | unfold audience; by destruct (journal c) ].
Qed.

Lemma watch_joins_audience_witness :
  (mu eg1 = false /\ next_fault (db eg1) = false) /\
  exists c',
    Client_Watch vm_b eg1
    = Ret (Some (length (watchList (journal eg1))), None) c'.
Proof.
  assert (H1 : mu eg1 = false) by by_evaluation.
  assert (H2 : next_fault (db eg1) = false) by by_evaluation.
  split; [ split; assumption | ].
  destruct (watch_joins_audience vm_b eg1 H1 H2) as (c' & A & _).
  by exists c'.
Defined.

Example watch_during_transaction :
  let c1 := state_of (Client_Watch vm_b eg1) in
  let c2 := state_of (Tx_Commit (mkTx 0) c1) in
  snapshot vm_b eg1 = [] /\
  received <$> (watchList (journal c1) !! 1%nat) = Some [] /\
  received <$> (watchList (journal c2) !! 1%nat)
  = Some [created vm_a; created vm_b] /\
  snapshot vm_b c2 = [vm_a; vm_b].
Proof. cbv zeta. conjuncts; by_evaluation. Qed.

(** ** What a mutation leaves alone *)

Lemma same_row_other m m' x :
  other_key m m' -> same_row m x = true -> same_row m' x = false.
Proof.
  unfold same_row. intros Hother H.
  apply andb_true_iff in H as [Hk Hp].
  apply bool_decide_eq_true in Hk. apply bool_decide_eq_true in Hp.
  destruct Hother as [Hne | Hne].
  - rewrite (bool_decide_eq_false_2 (Kind x = Kind m')) by congruence. done.
  - rewrite (bool_decide_eq_false_2 (Pk x = Pk m')) by congruence.
    apply andb_false_r.
Qed.

Lemma for_key_other m m' l :
  other_key m m' -> for_key (Kind m) (Pk m) l = true ->
  for_key (Kind m') (Pk m') l = false.
Proof.
  unfold for_key. intros Hother H.
  apply andb_true_iff in H as [Hk Hp].
  apply bool_decide_eq_true in Hk. apply bool_decide_eq_true in Hp.
  destruct Hother as [Hne | Hne].
  - rewrite (bool_decide_eq_false_2 (LKind l = Kind m')) by congruence. done.
  - rewrite (bool_decide_eq_false_2 (Parent l = Pk m')) by congruence.
    apply andb_false_r.
Qed.

Lemma find_app_other {A} (p : A -> bool) (l : list A) (a : A) :
  p a = false -> List.find p (l ++ [a]) = List.find p l.
Proof.
  intros Ha. induction l as [| b l IH]; simpl; [ by rewrite Ha | ].
  by destruct (p b).
Qed.

Lemma find_map_other {A} (p q : A -> bool) (l : list A) (a : A) :
  p a = false -> (forall x, q x = true -> p x = false) ->
  List.find p (List.map (fun x => if q x then a else x) l) = List.find p l.
Proof.
  intros Ha Hq. induction l as [| b l IH]; simpl; [ done | ].
  destruct (q b) eqn:Hb.
  - by rewrite Ha, (Hq b Hb).
  - by destruct (p b).
Qed.

Lemma find_filter_other {A} (p q : A -> bool) (l : list A) :
  (forall x, q x = true -> p x = false) ->
  List.find p (List.filter (fun x => negb (q x)) l) = List.find p l.
Proof.
  intros Hq. induction l as [| b l IH]; simpl; [ done | ].
  destruct (q b) eqn:Hb; simpl.
  - by rewrite (Hq b Hb).
  - by destruct (p b).
Qed.

Lemma lookup_other range op m' t :
  other_key (subject op) m' ->
  lookup_row m' (applied range op t) = lookup_row m' t.
Proof.
  intros Hother. unfold lookup_row.
  assert (Hm : same_row m' (subject op) = false)
    by (apply (same_row_other (subject op)); [ done | apply same_row_refl ]).
  assert (Hq : forall x, same_row (subject op) x = true -> same_row m' x = false)
    by (intros x; by apply same_row_other).
  destruct op as [m | m | m]; simpl in *.
  - by rewrite find_app_other.
  - by rewrite find_map_other.
  - by rewrite find_filter_other.
Qed.

Lemma without_other m m' (ls : list Label) :
  other_key m m' ->
  List.filter (for_key (Kind m') (Pk m'))
              (without (List.filter (for_key (Kind m) (Pk m)) ls) ls)
  = List.filter (for_key (Kind m') (Pk m')) ls.
Proof.
  intros Hother. unfold without. rewrite filter_filter.
  apply List.filter_ext_in. intros y Hy.
  destruct (for_key (Kind m') (Pk m') y) eqn:Hk; [ | apply andb_false_r ].
  rewrite andb_true_r. apply List.forallb_forall. intros l Hl.
  apply List.filter_In in Hl as [_ Hl].
  apply negb_true_iff, bool_decide_eq_false. intros ->.
  by rewrite (for_key_other m m' l Hother Hl) in Hk.
Qed.

Lemma mirror_other m m' kvs :
  other_key m m' ->
  List.filter (for_key (Kind m') (Pk m')) (List.map (label_row m) kvs) = [].
Proof.
  intros Hother. apply filter_none. intros y Hy.
  apply List.in_map_iff in Hy as (kv & <- & _).
  apply (for_key_other m m'); [ done | ].
  unfold for_key. simpl. by rewrite !bool_decide_eq_true_2.
Qed.

Lemma labels_other range op m' t :
  other_key (subject op) m' ->
  labels_of m' (applied range op t) = labels_of m' t.
Proof.
  intros Hother. unfold labels_of.
  destruct op as [m | m | m]; simpl in *.
  - by rewrite List.filter_app, mirror_other, app_nil_r.
  - rewrite List.filter_app, mirror_other, app_nil_r by done.
    by apply without_other.
  - by apply without_other.
Qed.

(** X10.  A successful Insert, Update or Delete touches the row and the
    label rows of its own key only: for a model with another key, the row
    [Get] would find and the label rows stored for it are the same before
    and after, in the tables the mutation worked on (the durable ones, or
    those of the transaction). *)
Theorem mutation_leaves_other_keys range op c c' m' :
  mu c = false -> (tx c = None -> dbMutex c = false) ->
  call range op c = Ret None c' ->
  other_key (subject op) m' ->
  exists t t',
    view (handle_of c) (db c) = Some t /\
    view (handle_of c) (db c') = Some t' /\
    lookup_row m' t' = lookup_row m' t /\
    labels_of m' t' = labels_of m' t.
Proof.
  intros Hmu Hdb Hcall Hother.
  destruct (call_tables range op c c' Hmu Hdb Hcall) as (t & Hv & _ & Hv').
  exists t, (applied range op t).
  split; [ done | ]. split; [ done | ].
  split; [ by apply lookup_other | by apply labels_other ].
Qed.

Lemma mutation_leaves_other_keys_witness :
  (mu ws2 = false /\ (tx ws2 = None -> dbMutex ws2 = false) /\
   call in_order (MUpdate vm_a') ws2 = Ret None rt1 /\
   other_key (subject (MUpdate vm_a')) vm_b) /\
  exists t t',
    view (handle_of ws2) (db ws2) = Some t /\
    view (handle_of ws2) (db rt1) = Some t' /\
    lookup_row vm_b t' = lookup_row vm_b t.
Proof.
  assert (H1 : mu ws2 = false) by by_evaluation.
  assert (H2 : tx ws2 = None -> dbMutex ws2 = false)
    by (intros _; by_evaluation).
  assert (H3 : call in_order (MUpdate vm_a') ws2 = Ret None rt1)
    by by_evaluation.
  assert (H4 : other_key (subject (MUpdate vm_a')) vm_b).
  { right. intros H. vm_compute in H. discriminate H. }
  split; [ conjuncts; assumption | ].
  destruct (mutation_leaves_other_keys in_order (MUpdate vm_a') ws2 rt1 vm_b
              H1 H2 H3 H4) as (t & t' & A & B & C & _).
  exists t, t'. conjuncts; assumption.
Defined.

(** ** One entry per successful mutation, none otherwise *)

Lemma staged_in_app s1 s2 : staged_in (s1 ++ s2) = staged_in s1 ++ staged_in s2.
Proof. unfold staged_in. apply List.flat_map_app. Qed.

Lemma staged_in_quiet seg :
  Forall (fun x => touches_journal x = false) seg -> staged_in seg = [].
Proof.
  induction 1 as [| x seg Hx _ IH]; [ done | ].
  unfold staged_in in *. simpl. rewrite IH. by destruct x.
Qed.

(** X11.  An Insert, Update or Delete stages exactly one entry when it
    returns nil, the one for its model and action, and none when it
    returns an error: whatever failed (the primary statement, the fetch of
    Update, or the labels), the error comes back wrapped, the journal is
    as it was and the call's trace has no journal effect.  Either way the
    call has given the locks back. *)
Theorem one_entry_per_success range op c r c' :
  mu c = false -> (tx c = None -> dbMutex c = false) ->
  call range op c = Ret r c' ->
  mu c' = false /\ tx c' = tx c /\ dbMutex c' = dbMutex c /\
  exists seg,
    trace c' = trace c ++ seg /\
    match r with
    | Some err =>
        (exists cause_of, err = Wrap cause_of) /\
        journal c' = journal c /\
        Forall (fun x => touches_journal x = false) seg
    | None =>
        exists e, announces op e /\ staged_in seg = [e]
    end.
Proof.
  intros Hmu Hdb Hcall.
  destruct (call_frame range op c r c' Hmu Hdb Hcall) as (A & B & C).
  split; [ done | ]. split; [ done | ]. split; [ done | ].
  destruct (call_cases range op c Hmu Hdb)
    as (x & Sx & [(e & E) | (e & E & Hm & Ha)]);
    rewrite E in Hcall; injection Hcall as <- <-.
  - destruct (released_quiet c x Sx) as (Hj & seg & Htr & Hq).
    exists seg. split; [ done | ]. split; [ by exists e | by split ].
  - destruct Sx as [_ _ _ _ (seg & Str & Svia)].
    destruct (finished_stages e x) as (rest & Hrest).
    assert (Hrest' : staged_in rest = []).
    { unfold finished in Hrest. destruct (tx x); simpl in Hrest.
      - apply app_inv_head in Hrest. by injection Hrest as <-.
      - rewrite <- app_assoc in Hrest. apply app_inv_head in Hrest.
        by injection Hrest as <-. }
    exists (opening c ++ seg ++ EStage e :: rest ++ closing c).
    split.
    + rewrite released_trace, Hrest, Str, entered_trace. by flatten_trace.
    + exists e. split; [ by split | ].
      rewrite !staged_in_app.
      rewrite (staged_in_quiet (opening c) (opening_quiet c)).
      rewrite (staged_in_quiet seg (via_quiet _ _ Svia)). simpl.
      change (EStage e :: rest ++ closing c)
        with ([EStage e] ++ rest ++ closing c).
      rewrite !staged_in_app, Hrest'.
      by rewrite (staged_in_quiet (closing c) (closing_quiet c)).
Qed.

Lemma one_entry_per_success_witness :
  (mu lf0 = false /\ (tx lf0 = None -> dbMutex lf0 = false) /\
   call in_order (MInsert vm_a) lf0
   = Ret (Some (Wrap (Wrap MappingError)))
         (state_of (call in_order (MInsert vm_a) lf0))) /\
  mu (state_of (call in_order (MInsert vm_a) lf0)) = false.
Proof.
  assert (H1 : mu lf0 = false) by by_evaluation.
  assert (H2 : tx lf0 = None -> dbMutex lf0 = false)
    by (intros _; by_evaluation).
  assert (H3 : call in_order (MInsert vm_a) lf0
               = Ret (Some (Wrap (Wrap MappingError)))
                     (state_of (call in_order (MInsert vm_a) lf0)))
    by by_evaluation.
  split; [ conjuncts; assumption | ].
  by destruct (one_entry_per_success in_order (MInsert vm_a) lf0 _ _ H1 H2 H3)
    as (A & _).
Defined.

(** X12.  [GetForUpdate] whose [Begin] fails returns the model as given,
    no Tx and the error of [db.Begin] wrapped, without fetching anything;
    as the failed [Begin] left the write lock locked with no transaction to
    release it, the client then waits forever in any later Begin or
    mutation. *)
Theorem get_for_update_failed_begin range m c e op :
  mu c = false -> dbMutex c = false -> tx c = None ->
  fst (sql_begin (db c)) = Err e ->
  Client_GetForUpdate m c = Ret (m, None, Some (Wrap e)) (after_begin c) /\
  trace (after_begin c)
  = trace c ++ [ELock; EDbLock; ESqlBegin false; EUnlock] /\
  lock_lost (after_begin c) /\
  Client_GetForUpdate m (after_begin c)
  = Blocked (emit ELock (set_mu true (after_begin c))) /\
  call range op (after_begin c)
  = Blocked (emit ELock (set_mu true (after_begin c))).
Proof.
  intros Hmu Hdb Htx Hfail.
  assert (Hlost : lock_lost (after_begin c)).
  { unfold lock_lost, after_begin. rewrite Hfail. simpl.
    conjuncts; first [ reflexivity | exact Htx ]. }
  pose proof Hlost as (Hm & Hd & Ht).
  split.
  { unfold Client_GetForUpdate, bind. rewrite (Begin_run c Hmu Hdb).
    unfold begun. by rewrite Hfail. }
  split; [ rewrite after_begin_trace; by rewrite Hfail | ].
  split; [ done | ]. split.
  - unfold Client_GetForUpdate, bind. by rewrite (Begin_blocked _ Hm Hd).
  - rewrite call_is_mutation. by apply mutation_blocked.
Qed.

Lemma get_for_update_failed_begin_witness :
  (mu lost0 = false /\ dbMutex lost0 = false /\ tx lost0 = None /\
   fst (sql_begin (db lost0)) = Err MappingError) /\
  Client_GetForUpdate vm_a lost0
  = Ret (vm_a, None, Some (Wrap MappingError)) (after_begin lost0).
Proof.
  assert (H1 : mu lost0 = false) by by_evaluation.
  assert (H2 : dbMutex lost0 = false) by by_evaluation.
  assert (H3 : tx lost0 = None) by by_evaluation.
  assert (H4 : fst (sql_begin (db lost0)) = Err MappingError)
    by by_evaluation.
  split; [ conjuncts; assumption | ].
  by destruct (get_for_update_failed_begin in_order vm_a lost0 MappingError
                 (MInsert vm_a) H1 H2 H3 H4) as (A & _).
Defined.

(** ** Open and Close *)

Lemma collect_schema DDL ms acc l :
  collect DDL ms acc = Some l ->
  l = acc ++ List.flat_map
               (fun m => match DDL m with Ok ddl => ddl | Err _ => [] end) ms /\
  Forall (fun m => is_ok (DDL m) = true) ms.
Proof.
  revert acc. induction ms as [| m rest IH]; intros acc; simpl.
  - intros [= <-]. rewrite app_nil_r. split; [ done | constructor ].
  - destruct (DDL m) as [ddl | e] eqn:Hm; [ | discriminate ].
    intros H. destruct (IH _ H) as (-> & Hall).
    split; [ by rewrite <- app_assoc | ].
    constructor; [ by rewrite Hm | done ].
Qed.

Lemma exec_all_cases db statements s :
  r_models (snd (exec_all db statements s)) = r_models s /\
  r_db (snd (exec_all db statements s)) = r_db s /\
  next_conn (snd (exec_all db statements s)) = next_conn s /\
  match fst (exec_all db statements s) with
  | None =>
      host_log (snd (exec_all db statements s))
      = host_log s ++ List.map (fun st => HExec db st true) statements
  | Some e =>
      e = Wrap MappingError /\
      exists done bad rest ok,
        statements = done ++ bad :: rest /\
        host_log (snd (exec_all db statements s))
        = host_log s ++ List.map (fun st => HExec db st true) done
          ++ [HExec db bad false; HClose db ok]
  end.
Proof.
  revert s. induction statements as [| ddl rest IH]; intros s; simpl.
  - by rewrite app_nil_r.
  - destruct (host_fault s) eqn:Hf; simpl.
    + split; [ done | ]. split; [ done | ]. split; [ done | ].
      split; [ done | ]. eexists [], ddl, rest, _. split; [ done | ].
      by rewrite <- app_assoc.
    + destruct (IH (host_emit (HExec db ddl true) (host_tick s)))
        as (A & B & C & D).
      split; [ done | ]. split; [ done | ]. split; [ done | ].
      destruct (fst (exec_all db rest _)) as [e |].
      * destruct D as (-> & done & bad & tl & ok & -> & Hlog).
        split; [ done | ]. exists (ddl :: done), bad, tl, ok.
        split; [ done | ]. rewrite Hlog. simpl. by rewrite <- app_assoc.
      * rewrite D. simpl. by rewrite <- app_assoc.
Qed.

(** What every [Open] that returns has done. *)
Lemma open_cases DDL purge s err s' :
  Client_Open DDL purge s = Returned err s' ->
  r_models s' = r_models s ++ [ALabel] /\
  next_conn s' = S (next_conn s) /\
  Forall (fun m => is_ok (DDL m) = true) (r_models s ++ [ALabel]) /\
  exists done tail,
    host_log s'
    = host_log s ++ (if purge then [HRemove] else [])
      ++ HSqlOpen (next_conn s)
         :: List.map (fun st => HExec (next_conn s) st true) done ++ tail /\
    match err with
    | None =>
        done = schema DDL (r_models s ++ [ALabel]) /\ tail = [] /\
        r_db s' = Some (next_conn s)
    | Some e =>
        e = Wrap MappingError /\ r_db s' = r_db s /\
        exists bad rest ok,
          schema DDL (r_models s ++ [ALabel]) = done ++ bad :: rest /\
          tail = [HExec (next_conn s) bad false; HClose (next_conn s) ok]
    end.
Proof.
  unfold Client_Open.
  set (s0 := if purge then os_Remove s else s).
  assert (H0 : r_models s0 = r_models s /\ r_db s0 = r_db s /\
               next_conn s0 = next_conn s /\
               host_log s0 = host_log s ++ (if purge then [HRemove] else [])).
  { unfold s0. destruct purge; simpl; by rewrite ?app_nil_r. }
  destruct H0 as (Hm0 & Hd0 & Hn0 & Hl0).
  destruct (host_fault s0); [ discriminate | ].
  set (s1 := mkHost _ _ _ _ _).
  destruct (collect DDL (r_models s1) [Pragma]) as [statements |] eqn:Hcol;
    [ | discriminate ].
  destruct (collect_schema DDL _ _ _ Hcol) as (Hst & Hall).
  simpl in Hst, Hall. rewrite Hm0 in Hst, Hall.
  change (Pragma :: List.flat_map _ (r_models s ++ [ALabel]))
    with (schema DDL (r_models s ++ [ALabel])) in Hst.
  pose proof (exec_all_cases (next_conn s0) statements s1) as (A & B & C & D).
  destruct (exec_all (next_conn s0) statements s1) as [[e |] s2] eqn:Hex;
    simpl in *; intros [= <- <-]; simpl.
  - rewrite A, C, Hm0, Hn0. split; [ done | ]. split; [ done | ].
    split; [ done | ].
    destruct D as (-> & done & bad & rest & ok & Hsplit & Hlog).
    exists done, [HExec (next_conn s) bad false; HClose (next_conn s) ok].
    split.
    + rewrite Hlog, Hl0, Hn0. by flatten_trace.
    + split; [ done | ]. split; [ by rewrite B | ].
      exists bad, rest, ok. by rewrite <- Hst, Hsplit.
  - rewrite A, C, Hm0, Hn0. split; [ done | ]. split; [ done | ].
    split; [ done | ].
    exists statements, []. split.
    + rewrite D, Hl0, Hn0. rewrite app_nil_r. by flatten_trace.
    + by rewrite Hst.
Qed.

(** X13.  An [Open] that returns has appended a Label to [r.models],
    opened one connection, and executed on it, in order, the statements of
    the schema: [Pragma] first, then the DDL of every model, that of Label
    last.  When it returns nil it executed all of them and [r.db] is the
    new connection.  When a statement fails it executed none after it,
    closed the new connection, left [r.db] as it was and returned the error
    wrapped. *)
Theorem open_runs_schema DDL purge s err s' :
  Client_Open DDL purge s = Returned err s' ->
  r_models s' = r_models s ++ [ALabel] /\
  next_conn s' = S (next_conn s) /\
  Forall (fun m => is_ok (DDL m) = true) (r_models s ++ [ALabel]) /\
  exists done tail,
    host_log s'
    = host_log s ++ (if purge then [HRemove] else [])
      ++ HSqlOpen (next_conn s)
         :: List.map (fun st => HExec (next_conn s) st true) done ++ tail /\
    match err with
    | None =>
        done = schema DDL (r_models s ++ [ALabel]) /\ tail = [] /\
        r_db s' = Some (next_conn s)
    | Some e =>
        e = Wrap MappingError /\ r_db s' = r_db s /\
        exists bad rest ok,
          schema DDL (r_models s ++ [ALabel]) = done ++ bad :: rest /\
          tail = [HExec (next_conn s) bad false; HClose (next_conn s) ok]
    end.
Proof. apply open_cases. Qed.

Lemma open_runs_schema_witness :
  Client_Open ddl_eg false (host0 [false; false; true; true])
  = Returned (Some (Wrap MappingError))
             (landed (Client_Open ddl_eg false (host0 [false; false; true; true])))
  /\
  r_models (landed (Client_Open ddl_eg false (host0 [false; false; true; true])))
  = r_models (host0 [false; false; true; true]) ++ [ALabel].
Proof.
  assert (H : Client_Open ddl_eg false (host0 [false; false; true; true])
              = Returned (Some (Wrap MappingError))
                  (landed (Client_Open ddl_eg false
                             (host0 [false; false; true; true]))))
    by by_evaluation.
  split; [ exact H | ].
  by destruct (open_runs_schema ddl_eg false _ _ _ H) as (A & _).
Defined.

Example open_then_fail :
  host_log (landed (Client_Open ddl_eg false (host0 [false; false; true; true])))
  = [HSqlOpen 0; HExec 0 Pragma true; HExec 0 "CREATE TABLE vm" false;
     HClose 0 false].
Proof. by_evaluation. Qed.

(** X14.  A second [Open] on a client that is open registers Label a
    second time, so the schema it runs holds the DDL of Label twice, and
    it never closes the connection of the first: when it returns nil
    [r.db] is a new connection and the first one is left open with nothing
    referring to it. *)
Theorem second_open_leaks_first DDL p1 p2 s s1 err s2 :
  Client_Open DDL p1 s = Returned None s1 ->
  Client_Open DDL p2 s1 = Returned err s2 ->
  r_db s1 = Some (next_conn s) /\
  r_models s2 = r_models s ++ [ALabel; ALabel] /\
  (err = None -> r_db s2 = Some (S (next_conn s))) /\
  (err <> None -> r_db s2 = Some (next_conn s)) /\
  exists seg,
    host_log s2 = host_log s1 ++ seg /\
    Forall (fun x => forall ok, x <> HClose (next_conn s) ok) seg.
Proof.
  intros H1 H2.
  destruct (open_cases DDL p1 s None s1 H1)
    as (Hm1 & Hn1 & _ & d1 & t1 & _ & _ & _ & Hdb1).
  destruct (open_cases DDL p2 s1 err s2 H2)
    as (Hm2 & Hn2 & _ & d2 & t2 & Hlog2 & Herr).
  split; [ done | ].
  split; [ rewrite Hm2, Hm1; by rewrite <- app_assoc | ].
  rewrite Hn1 in *.
  assert (Hne : forall ok, HClose (S (next_conn s)) ok <> HClose (next_conn s) ok)
    by (intros ok [= H]; lia).
  destruct err as [e |].
  - destruct Herr as (_ & Hdb2 & bad & rest & ok & _ & ->).
    split; [ done | ]. split; [ intros _; by rewrite Hdb2 | ].
    eexists. split; [ exact Hlog2 | ].
    apply Forall_app. split; [ destruct p2; by repeat constructor | ].
    constructor; [ done | ].
    apply Forall_app. split.
    + apply List.Forall_map. apply Forall_forall. by intros.
    + constructor; [ done | ]. constructor; [ | constructor ].
      intros ok' [= H _]. lia.
  - destruct Herr as (_ & -> & Hdb2).
    split; [ done | ]. split; [ done | ].
    eexists. split; [ exact Hlog2 | ].
    apply Forall_app. split; [ destruct p2; by repeat constructor | ].
    constructor; [ done | ].
    rewrite app_nil_r. apply List.Forall_map. apply Forall_forall. by intros.
Qed.

Lemma second_open_leaks_first_witness :
  (Client_Open ddl_eg true (host0 [])
   = Returned None (landed (Client_Open ddl_eg true (host0 []))) /\
   Client_Open ddl_eg false (landed (Client_Open ddl_eg true (host0 [])))
   = Returned None
       (landed (Client_Open ddl_eg false
                  (landed (Client_Open ddl_eg true (host0 [])))))) /\
  r_models (landed (Client_Open ddl_eg false
                      (landed (Client_Open ddl_eg true (host0 [])))))
  = r_models (host0 []) ++ [ALabel; ALabel].
Proof.
  assert (H1 : Client_Open ddl_eg true (host0 [])
               = Returned None (landed (Client_Open ddl_eg true (host0 []))))
    by by_evaluation.
  assert (H2 : Client_Open ddl_eg false
                 (landed (Client_Open ddl_eg true (host0 [])))
               = Returned None
                   (landed (Client_Open ddl_eg false
                              (landed (Client_Open ddl_eg true (host0 []))))))
    by by_evaluation.
  split; [ split; assumption | ].
  by destruct (second_open_leaks_first ddl_eg true false _ _ _ _ H1 H2)
    as (_ & A & _).
Defined.

(** X15.  [Close] after a successful [Open] closes the connection that
    [Open] created.  If [db.Close] goes through, [r.db] is nil, the file is
    removed after the close when [purge] is set, and a further [Close],
    with or without [purge], returns nil and does nothing at all, not even
    remove the file.  If [db.Close] fails, [Close] returns the error
    wrapped, keeps [r.db], and removes nothing. *)
Theorem close_after_open DDL p q q' s s1 :
  Client_Open DDL p s = Returned None s1 ->
  r_db s1 = Some (next_conn s) /\
  (host_fault s1 = false ->
   exists s2,
     Client_Close q s1 = Returned None s2 /\
     r_db s2 = None /\
     host_log s2
     = host_log s1 ++ HClose (next_conn s) true
                      :: (if q then [HRemove] else []) /\
     Client_Close q' s2 = Returned None s2) /\
  (host_fault s1 = true ->
   exists s2,
     Client_Close q s1 = Returned (Some (Wrap MappingError)) s2 /\
     r_db s2 = Some (next_conn s) /\
     host_log s2 = host_log s1 ++ [HClose (next_conn s) false]).
Proof.
  intros H1.
  destruct (open_cases DDL p s None s1 H1)
    as (_ & _ & _ & d1 & t1 & _ & _ & _ & Hdb1).
  split; [ done | ].
  unfold Client_Close, db_Close. rewrite Hdb1.
  split; intros Hf; rewrite Hf; simpl.
  - eexists. split; [ reflexivity | ].
    destruct q; simpl; by rewrite <- ?app_assoc.
  - eexists. split; [ reflexivity | ]. by simpl.
Qed.

Lemma close_after_open_witness :
  Client_Open ddl_eg true (host0 [])
  = Returned None (landed (Client_Open ddl_eg true (host0 []))) /\
  r_db (landed (Client_Open ddl_eg true (host0 [])))
  = Some (next_conn (host0 [])).
Proof.
  assert (H1 : Client_Open ddl_eg true (host0 [])
               = Returned None (landed (Client_Open ddl_eg true (host0 []))))
    by by_evaluation.
  split; [ exact H1 | ].
  by destruct (close_after_open ddl_eg true true true _ _ H1) as (A & _).
Defined.

Example open_close_close :
  let s1 := landed (Client_Open ddl_eg true (host0 [])) in
  let s2 := landed (Client_Close true s1) in
  r_db s2 = None /\
  host_log s2 = host_log s1 ++ [HClose 0 true; HRemove] /\
  Client_Close true s2 = Returned None s2.
Proof. cbv zeta. conjuncts; by_evaluation. Qed.

(** ** A mutation on its own is not all or nothing *)

Lemma statement_failed h what (f : Tables -> result (unit * Tables)) c x e :
  bind (table_call h what f) (fun r => ret (err_of r)) c = Ret (Some e) x ->
  view h (db x) = view h (db c).
Proof.
  unfold bind, table_call, ret. intros H.
  destruct (exec h f (db c)) as [r d] eqn:E.
  injection H as Hr <-. simpl.
  destruct r as [[] | e']; [ discriminate | ].
  pose proof (exec_failure h f (db c) e') as Hd. rewrite E in Hd.
  specialize (Hd eq_refl). simpl in Hd. subst d. apply view_tick.
Qed.

Lemma insertLabels_range_fails h m kvs c e x t :
  insertLabels_range h m kvs c = Ret (Some e) x ->
  view h (db c) = Some t ->
  exists done bad rest,
    kvs = done ++ bad :: rest /\
    view h (db x)
    = Some (mkTables (models t) (labels t ++ List.map (label_row m) done)).
Proof.
  revert c t. induction kvs as [| [l v] rest IH]; intros c t H Hv.
  - discriminate.
  - simpl in H. apply bind_ret_inv in H as (r & c1 & E1 & H).
    destruct r as [e0 |].
    + injection H as _ <-. exists [], (l, v), rest. split; [ done | ].
      rewrite (statement_failed h _ _ c c1 e0 E1), Hv. simpl.
      rewrite app_nil_r. by destruct t.
    + destruct (statement_ok h _ _ c c1 t E1 Hv) as (t' & Hf & Hv' & _).
      injection Hf as <-.
      destruct (IH c1 _ H Hv') as (done & bad & tl & -> & Hx).
      exists ((l, v) :: done), bad, tl. split; [ done | ].
      rewrite Hx. simpl. by rewrite <- app_assoc.
Qed.

(** X16.  Without a transaction an Insert is not all or nothing: when the
    row was inserted and the label synchronization then fails, the call
    returns the error wrapped and stages nothing, but the row stays in the
    durable tables, where [Get] finds it, with the label rows of only the
    entries that had been inserted before the failure. *)
Theorem failed_insert_keeps_row range m c x1 x2 e :
  mu c = false -> tx c = None -> dbMutex c = false ->
  Table_Insert ViaDB m (entered c) = Ret None x1 ->
  Client_insertLabels range ViaDB m x1 = Ret (Some e) x2 ->
  exists c' done bad rest,
    Client_Insert range m c = Ret (Some (Wrap e)) c' /\
    journal c' = journal c /\
    range (Labels m) = done ++ bad :: rest /\
    committed (db c')
    = mkTables (models (committed (db c)) ++ [m])
               (labels (committed (db c)) ++ List.map (label_row m) done) /\
    (next_fault (db c') = false ->
     exists c'', Client_Get m c' = Ret (Ok m) c'').
Proof.
  intros Hmu Ht Hdb H1 H2.
  assert (Hh : handle_of c = ViaDB) by (unfold handle_of; by rewrite Ht).
  assert (Hbody : Insert_body range m (handle_of c) (entered c)
                  = Ret (Some (Wrap e)) x2).
  { rewrite Hh. unfold Insert_body, bind. by rewrite H1, H2. }
  assert (S1 : backend_step ViaDB (entered c) x1)
    by (eapply backend_only_step; [ apply backend_only_Table_Insert | exact H1 ]).
  assert (S2 : backend_step ViaDB x1 x2)
    by (eapply backend_only_step; [ apply backend_only_insertLabels | exact H2 ]).
  assert (S : backend_step (handle_of c) (entered c) x2)
    by (rewrite Hh; eapply backend_step_trans; eauto).
  assert (Hcall : Client_Insert range m c = Ret (Some (Wrap e)) (released c x2)).
  { apply (mutation_run (Insert_body range m)); try done.
    - destruct S as [-> _ _ _ _]. apply entered_mu.
    - intros _. destruct S as [_ -> _ _ _]. by apply entered_dbMutex. }
  destruct (statement_ok_ex ViaDB _ _ _ x1 H1) as (t & t1 & Hv & Hf & Hv1).
  rewrite entered_db in Hv. simpl in Hv. injection Hv as <-.
  unfold rows_insert in Hf.
  destruct (existsb (same_row m) (models (committed (db c)))) eqn:Hfree;
    [ discriminate | ].
  injection Hf as <-.
  destruct (insertLabels_range_fails ViaDB m _ x1 e x2 _ H2 Hv1)
    as (done & bad & rest & Hsplit & Hv2).
  simpl in Hv2. injection Hv2 as Hc2.
  exists (released c x2), done, bad, rest.
  split; [ done | ].
  split; [ by apply released_quiet | ].
  split; [ done | ].
  split; [ by rewrite released_db | ].
  intros Hfault.
  destruct (Client_Get_lookup m (released c x2) Hfault) as (c'' & E).
  exists c''. rewrite E, released_db, Hc2. f_equal.
  unfold lookup_row. simpl.
  by rewrite (find_app_new _ _ m Hfree (same_row_refl m)).
Qed.

Lemma failed_insert_keeps_row_witness :
  (mu lf0 = false /\ tx lf0 = None /\ dbMutex lf0 = false /\
   Table_Insert ViaDB vm_a (entered lf0) = Ret None lf1 /\
   Client_insertLabels in_order ViaDB vm_a lf1
   = Ret (Some (Wrap MappingError)) lf2) /\
  exists c' done bad rest,
    Client_Insert in_order vm_a lf0
    = Ret (Some (Wrap (Wrap MappingError))) c' /\
    journal c' = journal lf0 /\
    in_order (Labels vm_a) = done ++ bad :: rest /\
    committed (db c')
    = mkTables (models (committed (db lf0)) ++ [vm_a])
               (labels (committed (db lf0))
                ++ List.map (label_row vm_a) done).
Proof.
  assert (H1 : mu lf0 = false) by by_evaluation.
  assert (H2 : tx lf0 = None) by by_evaluation.
  assert (H3 : dbMutex lf0 = false) by by_evaluation.
  assert (H4 : Table_Insert ViaDB vm_a (entered lf0) = Ret None lf1)
    by by_evaluation.
  assert (H5 : Client_insertLabels in_order ViaDB vm_a lf1
               = Ret (Some (Wrap MappingError)) lf2) by by_evaluation.
  split; [ conjuncts; assumption | ].
  destruct (failed_insert_keeps_row in_order vm_a lf0 lf1 lf2
              (Wrap MappingError) H1 H2 H3 H4 H5)
    as (c' & done & bad & rest & A & B & C & D & _).
  exists c', done, bad, rest. conjuncts; assumption.
Defined.

Example failed_insert_row_is_there :
  models (committed (db (state_of (Client_Insert in_order vm_a lf0))))
  = [vm_a] /\
  labels (committed (db (state_of (Client_Insert in_order vm_a lf0)))) = [] /\
  staged (journal (state_of (Client_Insert in_order vm_a lf0))) = [].
Proof. conjuncts; by_evaluation. Qed.
